(** * MEO Sync: the synchronisation pipeline, embedded and verified

    A shallow embedding of the pipeline of the repository (types.ts,
    filters.ts, gbp.ts, logger.ts, instagram.ts and processSinglePost of
    server.ts) with the properties of its specification.

    Conventions of the embedding.
    - A JavaScript string is the list of its UTF-16 code units, so that
      [length] is the source's [.length] and [firstn] its [substring(0, n)].
    - An optional string field ([caption?], [media_url?]) is an [option];
      the source tests such fields for truthiness, under which the empty
      string counts as absent ([truthy]).
    - Every reading of the system clock, every HTTP exchange and every file
      operation is an input of the model: the environment supplies the k-th
      clock reading, the k-th response of an endpoint and the outcome of the
      k-th write.
    - The diagnostic calls [log.debug], [log.info], [log.warn], [log.error]
      do not influence any value and are left out. *)

From Stdlib Require Import String Ascii DecimalString.
From Stdlib Require Import ZArith List Bool Arith Lia.
From Stdlib Require Import Permutation Sorted.
Import ListNotations.

Local Open Scope Z_scope.

(** ** JavaScript strings *)

Module JS.

Definition codeunit := Z.
Definition jsstring := list codeunit.

(** An ASCII literal as a JavaScript string. *)
Definition lit (s : string) : jsstring :=
  map (fun a => Z.of_nat (nat_of_ascii a)) (list_ascii_of_string s).

Fixpoint eqb (a b : jsstring) : bool :=
  match a, b with
  | [], [] => true
  | x :: a', y :: b' => (x =? y) && eqb a' b'
  | _, _ => false
  end.

(** [Array.prototype.includes] on an array of strings. *)
Definition includes (l : list jsstring) (x : jsstring) : bool :=
  existsb (fun y => eqb y x) l.

(** Truthiness of an optional string: [undefined] and [''] are falsy. *)
Definition truthy (o : option jsstring) : bool :=
  match o with
  | Some (_ :: _) => true
  | _ => false
  end.

(** [o || d] for an optional string [o]. *)
Definition orDefault (o : option jsstring) (d : jsstring) : jsstring :=
  match o with
  | Some (c :: s) => c :: s
  | _ => d
  end.

(** WhiteSpace and LineTerminator code units, the ones [trim] removes. *)
Definition isWhiteSpace (c : codeunit) : bool :=
  ((9 <=? c) && (c <=? 13)) || (c =? 32) || (c =? 160) || (c =? 0x1680)
  || ((0x2000 <=? c) && (c <=? 0x200A)) || (c =? 0x2028) || (c =? 0x2029)
  || (c =? 0x202F) || (c =? 0x205F) || (c =? 0x3000) || (c =? 0xFEFF).

Fixpoint dropWhile (p : codeunit -> bool) (s : jsstring) : jsstring :=
  match s with
  | [] => []
  | c :: s' => if p c then dropWhile p s' else s
  end.

Fixpoint takeWhile (p : codeunit -> bool) (s : jsstring) : jsstring :=
  match s with
  | [] => []
  | c :: s' => if p c then c :: takeWhile p s' else []
  end.

Definition trimStart (s : jsstring) : jsstring := dropWhile isWhiteSpace s.
Definition trimEnd (s : jsstring) : jsstring :=
  rev (dropWhile isWhiteSpace (rev s)).

(** [String.prototype.trim]. *)
Definition trim (s : jsstring) : jsstring := trimEnd (trimStart s).

(** [s.substring(0, n)] for a non-negative [n]. *)
Definition substring0 (n : nat) (s : jsstring) : jsstring := firstn n s.

End JS.

Import JS.

(** ** The tag pattern [/#[\w\u00c0-\u024f\u1e00-\u1eff]+/gi]

    The pattern is shared by [extractHashtags], [filterByContent] and
    [convertInstagramToGBPPost].  The functions below are written for any
    character class [cls]; [tagClass] is the class of the source. *)

Definition hash : codeunit := 35.

(** [\w], U+00C0 to U+024F and U+1E00 to U+1EFF.  On ASCII the [i] flag
    adds nothing to the class, [\w] being closed under change of case. *)
Definition tagClass (c : codeunit) : bool :=
  ((48 <=? c) && (c <=? 57)) || ((65 <=? c) && (c <=? 90)) || (c =? 95)
  || ((97 <=? c) && (c <=? 122))
  || ((0xC0 <=? c) && (c <=? 0x24F)) || ((0x1E00 <=? c) && (c <=? 0x1EFF)).

Section TagPattern.

Variable cls : codeunit -> bool.

(** Length of the match of the pattern anchored at the head of [s]: a [#]
    and the longest non-empty run of class characters after it. *)
Definition matchTagAt (s : jsstring) : option nat :=
  match s with
  | c :: rest =>
      if c =? hash then
        match List.length (takeWhile cls rest) with
        | O => None
        | S n => Some (S (S n))
        end
      else None
  | [] => None
  end.

(** [text.match(re)] with the [g] flag: all matches from left to right, the
    search resuming after each match.  [skip] counts the code units of the
    current match still to pass over. *)
Fixpoint matchAllFrom (skip : nat) (s : jsstring) : list jsstring :=
  match s with
  | [] => []
  | _ :: rest =>
      match skip with
      | S k => matchAllFrom k rest
      | O =>
          match matchTagAt s with
          | Some n => firstn n s :: matchAllFrom (Nat.pred n) rest
          | None => matchAllFrom 0 rest
          end
      end
  end.

(** [text.replace(re, '')] with the [g] flag. *)
Fixpoint replaceAllFrom (skip : nat) (s : jsstring) : jsstring :=
  match s with
  | [] => []
  | c :: rest =>
      match skip with
      | S k => replaceAllFrom k rest
      | O =>
          match matchTagAt s with
          | Some n => replaceAllFrom (Nat.pred n) rest
          | None => c :: replaceAllFrom 0 rest
          end
      end
  end.

Definition stripTags (s : jsstring) : jsstring := replaceAllFrom 0 s.

(** [extractHashtags]: no text, or no match, gives the empty array. *)
Definition extractHashtags (text : option jsstring) : list jsstring :=
  match text with
  | Some (c :: s) => matchAllFrom 0 (c :: s)
  | _ => []
  end.

End TagPattern.


(** ** Built-ins of the JavaScript engine

    The character class of the tag pattern under the [i] flag,
    [String.prototype.toLowerCase], the parser behind [new Date(string)]
    ([None] where [getTime()] is [NaN]), [Date.prototype.toISOString], the
    conversion of a number to a string, and the way the hexadecimal decoder
    of [Buffer] reads a code unit outside ASCII are taken as given. *)

Record Runtime := mkRuntime {
  wordChar : codeunit -> bool;
  toLowerCase : jsstring -> jsstring;
  dateParse : jsstring -> option Z;
  toISOString : Z -> jsstring;
  numberToString : Z -> jsstring;
  unhexWide : codeunit -> option Z
}.

(** ** types.ts *)

Inductive MediaType := IMAGE | VIDEO | CAROUSEL_ALBUM.

Definition MediaType_eqb (a b : MediaType) : bool :=
  match a, b with
  | IMAGE, IMAGE | VIDEO, VIDEO | CAROUSEL_ALBUM, CAROUSEL_ALBUM => true
  | _, _ => false
  end.

Record InstagramPost := mkPost {
  id : jsstring;
  caption : option jsstring;
  media_type : MediaType;
  media_url : option jsstring;
  permalink : jsstring;
  timestamp : jsstring;
  like_count : option Z;
  comments_count : option Z
}.

(** The [reason] of a [FilterResult] is a string built from one of six
    templates in filters.ts.  Each constructor stands for one template and
    carries the values the template interpolates. *)
Inductive Reason :=
| TargetHashtagMissing (configured : jsstring)
| MediaTypeUnsupported (mediaType : MediaType)
| PostTooOld (ageMs maxAgeHours : Z)
| NoCaption
| CaptionTooShort
| TooManyHashtags (count : nat).

Record FilterResult := mkFilterResult {
  shouldSync : bool;
  matchedHashtags : list jsstring;
  reason : option Reason
}.

Definition pass : FilterResult := mkFilterResult true [] None.
Definition reject (r : Reason) : FilterResult := mkFilterResult false [] (Some r).

(** ** The environment: clock, network, file system, and the state they reach *)

(** A JavaScript [Error]; [code] is set on the errors of the [fs] module. *)
Record Error := mkError { message : jsstring; code : option jsstring }.

Inductive Http (A : Type) :=
| Resolved (data : A)
| Rejected (axiosError : Error).
Arguments Resolved {A} data.
Arguments Rejected {A} axiosError.

Record GBPTokenResponse := mkTokenResponse {
  access_token : jsstring;
  expires_in : Z;
  refresh_token : option jsstring;
  scope : jsstring;
  token_type : jsstring
}.

Inductive PostState := LIVE | REJECTED.

Record GBPCreatePostResponse := mkCreateResponse {
  name : jsstring;
  state : PostState
}.

Inductive MediaFormat := PHOTO.
Inductive TopicType := STANDARD | EVENT | OFFER.
Inductive ActionType := LEARN_MORE | CALL | BOOK | ORDER | SHOP | SIGN_UP.

Record CallToAction := mkCallToAction {
  actionType : ActionType;
  url : option jsstring
}.

Record MediaItem := mkMediaItem {
  mediaFormat : MediaFormat;
  sourceUrl : jsstring
}.

Record GBPLocalPost := mkLocalPost {
  languageCode : jsstring;
  summary : jsstring;
  media : option (list MediaItem);
  topicType : TopicType;
  callToAction : option CallToAction
}.

(** The body of the request and, with it, the token of its
    [Authorization] header. *)
Record GBPCreatePostRequest := mkCreateRequest {
  localPost : GBPLocalPost;
  validateOnly : bool;
  bearer : option jsstring
}.

Inductive SyncStatus := success | failed | skipped.

Definition SyncStatus_eqb (a b : SyncStatus) : bool :=
  match a, b with
  | success, success | failed, failed | skipped, skipped => true
  | _, _ => false
  end.

(** The fields of a [SyncLog] keep their names inside a module, [id] and
    [timestamp] being fields of [InstagramPost] as well. *)
Module SyncLog.

Record t := mk {
  id : jsstring;
  timestamp : jsstring;
  instagramPostId : jsstring;
  instagramCaption : option jsstring;
  instagramMediaUrl : option jsstring;
  gbpPostId : option jsstring;
  status : SyncStatus;
  error : option jsstring;
  hashtags : list jsstring;
  syncDuration : Z
}.

End SyncLog.

Definition SyncLog : Type := SyncLog.t.

(** A line of sync-history.jsonl, as [JSON.parse] sees it: the record that
    [JSON.stringify] wrote, or text that does not decode (or decodes to
    [null]). *)
Inductive Line :=
| Entry (r : SyncLog)
| Malformed.

Record World := mkWorld {
  (** the k-th value returned by [Date.now()] / [new Date()] *)
  clock : nat -> Z;
  ticks : nat;
  (** the response to the k-th request to the token endpoint *)
  tokenEndpoint : nat -> Http GBPTokenResponse;
  refreshRequests : nat;
  (** the response to the k-th request to the local-post endpoint *)
  postEndpoint : nat -> Http GBPCreatePostResponse;
  createRequests : list GBPCreatePostRequest;
  (** the fields of the one GoogleBusinessProfileAPI instance *)
  accessToken : option jsstring;
  tokenExpiresAt : Z;
  (** the fault, if any, of the k-th file operation *)
  fsFault : nat -> option Error;
  fsOps : nat;
  (** sync-history.jsonl: [None] while the file does not exist *)
  syncLogFile : option (list Line);
  (** the records handed to [logSync], oldest first *)
  logSyncCalls : list SyncLog
}.

Definition tick (w : World) : World :=
  mkWorld (clock w) (S (ticks w)) (tokenEndpoint w) (refreshRequests w)
    (postEndpoint w) (createRequests w) (accessToken w) (tokenExpiresAt w)
    (fsFault w) (fsOps w) (syncLogFile w) (logSyncCalls w).

Definition countRefresh (w : World) : World :=
  mkWorld (clock w) (ticks w) (tokenEndpoint w) (S (refreshRequests w))
    (postEndpoint w) (createRequests w) (accessToken w) (tokenExpiresAt w)
    (fsFault w) (fsOps w) (syncLogFile w) (logSyncCalls w).

Definition recordCreate (rq : GBPCreatePostRequest) (w : World) : World :=
  mkWorld (clock w) (ticks w) (tokenEndpoint w) (refreshRequests w)
    (postEndpoint w) (createRequests w ++ [rq]) (accessToken w)
    (tokenExpiresAt w) (fsFault w) (fsOps w) (syncLogFile w) (logSyncCalls w).

Definition setAccessToken (t : option jsstring) (w : World) : World :=
  mkWorld (clock w) (ticks w) (tokenEndpoint w) (refreshRequests w)
    (postEndpoint w) (createRequests w) t (tokenExpiresAt w)
    (fsFault w) (fsOps w) (syncLogFile w) (logSyncCalls w).

Definition setTokenExpiresAt (t : Z) (w : World) : World :=
  mkWorld (clock w) (ticks w) (tokenEndpoint w) (refreshRequests w)
    (postEndpoint w) (createRequests w) (accessToken w) t
    (fsFault w) (fsOps w) (syncLogFile w) (logSyncCalls w).

Definition countFsOp (w : World) : World :=
  mkWorld (clock w) (ticks w) (tokenEndpoint w) (refreshRequests w)
    (postEndpoint w) (createRequests w) (accessToken w) (tokenExpiresAt w)
    (fsFault w) (S (fsOps w)) (syncLogFile w) (logSyncCalls w).

Definition setSyncLogFile (f : option (list Line)) (w : World) : World :=
  mkWorld (clock w) (ticks w) (tokenEndpoint w) (refreshRequests w)
    (postEndpoint w) (createRequests w) (accessToken w) (tokenExpiresAt w)
    (fsFault w) (fsOps w) f (logSyncCalls w).

Definition recordLogSync (r : SyncLog) (w : World) : World :=
  mkWorld (clock w) (ticks w) (tokenEndpoint w) (refreshRequests w)
    (postEndpoint w) (createRequests w) (accessToken w) (tokenExpiresAt w)
    (fsFault w) (fsOps w) (syncLogFile w) (logSyncCalls w ++ [r]).

(** ** Computations: state that survives an exception *)

Inductive Outcome (A : Type) :=
| Returned (a : A)
| Thrown (e : Error).
Arguments Returned {A} a.
Arguments Thrown {A} e.

Definition M (A : Type) : Type := World -> Outcome A * World.

Definition ret {A} (a : A) : M A := fun w => (Returned a, w).

Definition throw {A} (e : Error) : M A := fun w => (Thrown e, w).

Definition bind {A B} (c : M A) (k : A -> M B) : M B :=
  fun w =>
    match c w with
    | (Returned a, w') => k a w'
    | (Thrown e, w') => (Thrown e, w')
    end.

(** [try { c } catch (error) { handler error }]. *)
Definition tryCatch {A} (c : M A) (handler : Error -> M A) : M A :=
  fun w =>
    match c w with
    | (Returned a, w') => (Returned a, w')
    | (Thrown e, w') => handler e w'
    end.

Definition gets {A} (f : World -> A) : M A := fun w => (Returned (f w), w).
Definition modify (f : World -> World) : M unit := fun w => (Returned tt, f w).

Declare Scope js_scope.
Delimit Scope js_scope with js.
Notation "x <- c ;; k" := (bind c (fun x => k))
  (at level 61, c at next level, right associativity) : js_scope.
Notation "c ;; k" := (bind c (fun _ => k))
  (at level 61, right associativity) : js_scope.
Local Open Scope js_scope.

(** [Date.now()], and the instant of [new Date()]. *)
Definition Date_now : M Z :=
  fun w => (Returned (clock w (ticks w)), tick w).

Definition enoent : Error :=
  mkError (lit "ENOENT: no such file or directory") (Some (lit "ENOENT")).

(** One operation of [fs.promises]: the fault of the environment first. *)
Definition fsOp : M unit :=
  fun w =>
    match fsFault w (fsOps w) with
    | Some e => (Thrown e, countFsOp w)
    | None => (Returned tt, countFsOp w)
    end.

Definition fs_access : M unit :=
  fsOp ;;
  f <- gets syncLogFile ;;
  match f with
  | Some _ => ret tt
  | None => throw enoent
  end.

Definition fs_readFile : M (list Line) :=
  fsOp ;;
  f <- gets syncLogFile ;;
  match f with
  | Some lines => ret lines
  | None => throw enoent
  end.

Definition fs_appendFile (l : Line) : M unit :=
  fsOp ;;
  f <- gets syncLogFile ;;
  modify (setSyncLogFile
            (Some (match f with Some lines => lines ++ [l] | None => [l] end))).

(** ** filters.ts *)

Module Filters.

Record PostFilter := mkPostFilter { targetHashtag : jsstring }.

Section WithRuntime.

Variable rt : Runtime.

(** [appConfig.sync.targetHashtag]. *)
Variable configTargetHashtag : jsstring.

Definition newPostFilter : PostFilter :=
  mkPostFilter (toLowerCase rt configTargetHashtag).

Definition filterByMediaType (post : InstagramPost) : FilterResult :=
  let allowedTypes := [IMAGE; CAROUSEL_ALBUM] in
  if negb (existsb (MediaType_eqb (media_type post)) allowedTypes)
  then reject (MediaTypeUnsupported (media_type post))
  else pass.

(** [ageHours > maxAgeHours] compares [(now - postDate) / 3600000] with
    [maxAgeHours]; division by a positive constant being monotone, this is
    [now - postDate > maxAgeHours * 3600000].  An unparsable timestamp makes
    [ageHours] [NaN], and the comparison false. *)
Definition tooOld (now : Z) (post : InstagramPost) (maxAgeHours : Z) : bool :=
  match dateParse rt (timestamp post) with
  | Some postDate => now - postDate >? maxAgeHours * (1000 * 60 * 60)
  | None => false
  end.

Definition ageMs (now : Z) (post : InstagramPost) : Z :=
  match dateParse rt (timestamp post) with
  | Some postDate => now - postDate
  | None => 0
  end.

Definition filterByAge (post : InstagramPost) (maxAgeHours : Z)
  : M FilterResult :=
  now <- Date_now ;;
  if tooOld now post maxAgeHours
  then ret (reject (PostTooOld (ageMs now post) maxAgeHours))
  else ret pass.

Definition filterByContent (post : InstagramPost) : FilterResult :=
  match caption post with
  | Some (c :: s) =>
      let cap := c :: s in
      if (List.length (trim cap) =? 0)%nat then reject NoCaption
      else
        let cleanedCaption := trim (stripTags (wordChar rt) cap) in
        if (List.length cleanedCaption <? 10)%nat then reject CaptionTooShort
        else
          let hashtags := extractHashtags (wordChar rt) (caption post) in
          if (20 <? List.length hashtags)%nat
          then reject (TooManyHashtags (List.length hashtags))
          else pass
  | _ => reject NoCaption
  end.

(** The loop over [additionalFilters]: the first result that refuses. *)
Fixpoint firstRefusal (filters : list FilterResult) : option FilterResult :=
  match filters with
  | [] => None
  | f :: rest => if negb (shouldSync f) then Some f else firstRefusal rest
  end.

Definition filterPost (self : PostFilter) (post : InstagramPost)
  : M FilterResult :=
  let hashtags := extractHashtags (wordChar rt) (caption post) in
  let normalizedHashtags := map (toLowerCase rt) hashtags in
  let hasTargetHashtag := includes normalizedHashtags (targetHashtag self) in
  if negb hasTargetHashtag
  then ret (reject (TargetHashtagMissing configTargetHashtag))
  else
    byMediaType <- ret (filterByMediaType post) ;;
    byAge <- filterByAge post 24 ;;
    byContent <- ret (filterByContent post) ;;
    let additionalFilters := [byMediaType; byAge; byContent] in
    match firstRefusal additionalFilters with
    | Some f => ret f
    | None => ret (mkFilterResult true hashtags None)
    end.

End WithRuntime.

End Filters.

(** ** gbp.ts *)

Module Gbp.

Definition defaultSummary : jsstring :=
  lit "Check out our latest post on Instagram!".

(** The sentence substituted for a summary that is too short. *)
Definition fallbackSummary : jsstring :=
  [0x6700; 0x65b0; 0x306e; 0x6295; 0x7a3f; 0x3092; 0x30c1; 0x30a7; 0x30c3;
   0x30af; 0xff01; 0x8a73; 0x7d30; 0x306f; 0x20; 0x49; 0x6e; 0x73; 0x74;
   0x61; 0x67; 0x72; 0x61; 0x6d; 0x20; 0x3092; 0x3054; 0x89a7; 0x304f;
   0x3060; 0x3055; 0x3044; 0x3002].

(** The prefix of the error of [refreshAccessToken]. *)
Definition tokenRefreshFailed : jsstring :=
  [0x47; 0x42; 0x50; 0x20; 0x30c8; 0x30fc; 0x30af; 0x30f3; 0x66f4; 0x65b0;
   0x306b; 0x5931; 0x6557; 0x3a; 0x20].

(** The prefix of the error of [createLocalPost]. *)
Definition postCreationFailed : jsstring :=
  [0x47; 0x42; 0x50; 0x20; 0x6295; 0x7a3f; 0x4f5c; 0x6210; 0x306b; 0x5931;
   0x6557; 0x3a; 0x20].

Definition ellipsis : jsstring := lit "...".

(** The request to the token endpoint and its response. *)
Definition axios_post_refreshToken : M GBPTokenResponse :=
  fun w =>
    match tokenEndpoint w (refreshRequests w) with
    | Resolved data => (Returned data, countRefresh w)
    | Rejected e => (Thrown e, countRefresh w)
    end.

(** The request to the local-post endpoint and its response. *)
Definition axios_post_createPost (rq : GBPCreatePostRequest)
  : M GBPCreatePostResponse :=
  fun w =>
    match postEndpoint w (List.length (createRequests w)) with
    | Resolved data => (Returned data, recordCreate rq w)
    | Rejected e => (Thrown e, recordCreate rq w)
    end.

Definition refreshAccessToken : M jsstring :=
  tryCatch
    (response <- axios_post_refreshToken ;;
     modify (setAccessToken (Some (access_token response))) ;;
     now <- Date_now ;;
     modify (setTokenExpiresAt (now + expires_in response * 1000)) ;;
     ret (access_token response))
    (fun axiosError =>
       throw (mkError (tokenRefreshFailed ++ message axiosError) None)).

(** The test of [getValidAccessToken]; the clock is read only when a token
    is held, as [||] evaluates its right operand only then. *)
Definition mustRefresh : M bool :=
  token <- gets accessToken ;;
  if negb (truthy token) then ret true
  else
    now <- Date_now ;;
    expiresAt <- gets tokenExpiresAt ;;
    ret (now >=? expiresAt - 60000).

Definition getValidAccessToken : M (option jsstring) :=
  stale <- mustRefresh ;;
  (if stale then (refreshAccessToken ;; ret tt) else ret tt) ;;
  gets accessToken.

Section WithRuntime.

Variable rt : Runtime.

Definition convertInstagramToGBPPost (instagramPost : InstagramPost)
  : GBPLocalPost :=
  let summary0 := orDefault (caption instagramPost) defaultSummary in
  let summary1 := trim (stripTags (wordChar rt) summary0) in
  let summary2 :=
    if (1500 <? List.length summary1)%nat
    then substring0 1497 summary1 ++ ellipsis
    else summary1 in
  let summary3 :=
    if (List.length summary2 <? 10)%nat then fallbackSummary else summary2 in
  let localPost :=
    mkLocalPost (lit "en-US") summary3 None STANDARD
      (Some (mkCallToAction LEARN_MORE (Some (permalink instagramPost)))) in
  match media_url instagramPost with
  | Some (c :: u) =>
      if MediaType_eqb (media_type instagramPost) IMAGE
      then mkLocalPost (languageCode localPost) (summary localPost)
             (Some [mkMediaItem PHOTO (c :: u)])
             (topicType localPost) (callToAction localPost)
      else localPost
  | _ => localPost
  end.

Definition createLocalPost (instagramPost : InstagramPost) : M jsstring :=
  tryCatch
    (token <- getValidAccessToken ;;
     let localPost := convertInstagramToGBPPost instagramPost in
     let createPostRequest := mkCreateRequest localPost false token in
     response <- axios_post_createPost createPostRequest ;;
     ret (name response))
    (fun axiosError =>
       throw (mkError (postCreationFailed ++ message axiosError) None)).

End WithRuntime.

End Gbp.

(** ** logger.ts *)

Module Logger.

(** The result of [getSyncLogStats]; a module keeps [failed] and [skipped]
    apart from the statuses of the same names. *)
Module Stats.

Record t := mk {
  total : nat;
  successful : nat;
  failed : nat;
  skipped : nat;
  lastSync : option jsstring
}.

End Stats.

(** [Array.prototype.slice(start, end)] for integer bounds: a negative bound
    counts from the end, and every bound is clamped to the array. *)
Definition relativeIndex (len : nat) (i : Z) : nat :=
  if i <? 0 then Z.to_nat (Z.max (Z.of_nat len + i) 0)
  else Nat.min (Z.to_nat i) len.

Definition slice {A} (start final : Z) (l : list A) : list A :=
  let k := relativeIndex (List.length l) start in
  let e := relativeIndex (List.length l) final in
  firstn (e - k) (skipn k l).

(** The two filters around [JSON.parse]: the lines that decode. *)
Fixpoint decoded (lines : list Line) : list SyncLog :=
  match lines with
  | [] => []
  | Entry r :: rest => r :: decoded rest
  | Malformed :: rest => decoded rest
  end.

(** [logSync]; the call is put on record in [logSyncCalls] first. *)
Definition logSync (syncLog : SyncLog) : M unit :=
  modify (recordLogSync syncLog) ;;
  tryCatch (fs_appendFile (Entry syncLog)) (fun _ => ret tt).

Section WithRuntime.

Variable rt : Runtime.

(** The comparator handed to [sort]: the time of [b] minus the time of [a];
    a [NaN] result counts as [+0] in the sort. *)
Definition compareLogs (a b : SyncLog) : Z :=
  match dateParse rt (SyncLog.timestamp b),
        dateParse rt (SyncLog.timestamp a) with
  | Some tb, Some ta => tb - ta
  | _, _ => 0
  end.

(** [Array.prototype.sort].  ECMAScript wants the sort stable, and for a
    comparator that orders the elements consistently, as this one does when
    every timestamp parses, there is one stable sorted arrangement
    ([stable_order_unique] below): every engine returns it, and it is the
    one that insertion from the right builds.  When a timestamp does not parse the comparator answers [NaN],
    which the sort counts as [+0], and is no longer consistent: the order
    is then the engine's own (the one of V8 differs from the one below), a
    rearrangement of the same records still.  So the properties that speak
    of the order of a read assume that every timestamp parses; without
    that assumption only what holds of every rearrangement is stated. *)
Fixpoint insertLog (x : SyncLog) (l : list SyncLog) : list SyncLog :=
  match l with
  | [] => [x]
  | y :: l' => if compareLogs x y <=? 0 then x :: l else y :: insertLog x l'
  end.

Fixpoint sortLogs (l : list SyncLog) : list SyncLog :=
  match l with
  | [] => []
  | x :: l' => insertLog x (sortLogs l')
  end.

Definition getSyncLogs (limit offset : Z) : M (list SyncLog) :=
  tryCatch
    (fs_access ;;
     data <- fs_readFile ;;
     ret (slice offset (offset + limit) (sortLogs (decoded data))))
    (fun error =>
       match code error with
       | Some c => if JS.eqb c (lit "ENOENT") then ret [] else throw error
       | None => throw error
       end).

Definition countStatus (s : SyncStatus) (logs : list SyncLog) : nat :=
  List.length (filter (fun log => SyncStatus_eqb (SyncLog.status log) s) logs).

Definition getSyncLogStats : M Stats.t :=
  tryCatch
    (logs <- getSyncLogs 1000 0 ;;
     ret (Stats.mk (List.length logs)
            (countStatus success logs)
            (countStatus failed logs)
            (countStatus skipped logs)
            (match logs with
             | first :: _ => Some (SyncLog.timestamp first)
             | [] => None
             end)))
    (fun _ => ret (Stats.mk 0 0 0 0 None)).

End WithRuntime.

End Logger.

(** ** server.ts: the processing of one post *)

Module Server.

Section WithRuntime.

Variable rt : Runtime.
Variable configTargetHashtag : jsstring.

(** The module-level [postFilter] instance. *)
Variable postFilter : Filters.PostFilter.

Definition processSinglePost (post : InstagramPost) : M unit :=
  startTime <- Date_now ;;
  idTime <- Date_now ;;
  let syncId := id post ++ lit "-" ++ numberToString rt idTime in
  tryCatch
    (filterResult <- Filters.filterPost rt configTargetHashtag postFilter post ;;
     if negb (shouldSync filterResult) then
       stamp <- Date_now ;;
       finish <- Date_now ;;
       Logger.logSync
         (SyncLog.mk syncId (toISOString rt stamp) (id post) (caption post)
            (media_url post) None skipped None
            (matchedHashtags filterResult) (finish - startTime))
     else
       gbpPostId <- Gbp.createLocalPost rt post ;;
       stamp <- Date_now ;;
       finish <- Date_now ;;
       Logger.logSync
         (SyncLog.mk syncId (toISOString rt stamp) (id post) (caption post)
            (media_url post) (Some gbpPostId) success None
            (matchedHashtags filterResult) (finish - startTime)))
    (fun error =>
       stamp <- Date_now ;;
       finish <- Date_now ;;
       Logger.logSync
         (SyncLog.mk syncId (toISOString rt stamp) (id post) (caption post)
            (media_url post) None failed (Some (message error))
            [] (finish - startTime))).

End WithRuntime.

End Server.

(** ** node:crypto and Buffer, as instagram.ts uses them *)

Module Crypto.

Definition byte := Z.
Definition bytes := list byte.

(** *** SHA-256 (FIPS 180-4) on 32-bit words *)

Definition w32 (x : Z) : Z := x mod 2 ^ 32.
Definition add32 (x y : Z) : Z := w32 (x + y).
Definition rotr (n x : Z) : Z :=
  Z.lor (Z.shiftr x n) (w32 (Z.shiftl x (32 - n))).
Definition not32 (x : Z) : Z := 2 ^ 32 - 1 - x.

Definition Ch (x y z : Z) : Z := Z.lxor (Z.land x y) (Z.land (not32 x) z).
Definition Maj (x y z : Z) : Z :=
  Z.lxor (Z.lxor (Z.land x y) (Z.land x z)) (Z.land y z).
Definition Sigma0 (x : Z) : Z :=
  Z.lxor (Z.lxor (rotr 2 x) (rotr 13 x)) (rotr 22 x).
Definition Sigma1 (x : Z) : Z :=
  Z.lxor (Z.lxor (rotr 6 x) (rotr 11 x)) (rotr 25 x).
Definition sigma0 (x : Z) : Z :=
  Z.lxor (Z.lxor (rotr 7 x) (rotr 18 x)) (Z.shiftr x 3).
Definition sigma1 (x : Z) : Z :=
  Z.lxor (Z.lxor (rotr 17 x) (rotr 19 x)) (Z.shiftr x 10).

(** The largest [r] below [2 ^ bits] with [r ^ k <= n], bit by bit. *)
Fixpoint rootFrom (k n : Z) (bits : nat) (r : Z) : Z :=
  match bits with
  | O => r
  | S b =>
      let c := r + 2 ^ Z.of_nat b in
      if c ^ k <=? n then rootFrom k n b c else rootFrom k n b r
  end.

Definition isPrime (n : nat) : bool :=
  forallb (fun d => negb (Nat.modulo n d =? 0)%nat) (seq 2 (n - 2)).

(** The primes up to 311, of which there are 64. *)
Definition primes : list Z :=
  map Z.of_nat (filter isPrime (seq 2 310)).

(** The round constants: the first 32 bits of the fractional parts of the
    cube roots of the first 64 primes. *)
Definition K256 : list Z :=
  Eval vm_compute in
    map (fun p => w32 (rootFrom 3 (p * 2 ^ 96) 36 0)) primes.

Record Hash := mkHash { h0 : Z; h1 : Z; h2 : Z; h3 : Z;
                        h4 : Z; h5 : Z; h6 : Z; h7 : Z }.

(** The first 32 bits of the fractional part of a square root. *)
Definition sqrtFraction (p : Z) : Z := w32 (rootFrom 2 (p * 2 ^ 64) 36 0).

(** The initial hash value, from the first eight primes. *)
Definition initialHash : Hash :=
  Eval vm_compute in
    mkHash (sqrtFraction 2) (sqrtFraction 3) (sqrtFraction 5) (sqrtFraction 7)
      (sqrtFraction 11) (sqrtFraction 13) (sqrtFraction 17) (sqrtFraction 19).

(** The [n] low bytes of [x], the most significant first. *)
Definition wordBytes (n : nat) (x : Z) : bytes :=
  map (fun i => Z.shiftr x (8 * Z.of_nat i) mod 256) (rev (seq 0 n)).

(** The message with its padding: a 1 bit, zeros, and the length in bits
    as a 64-bit big-endian number, to a multiple of 64 bytes. *)
Definition pad (msg : bytes) : bytes :=
  let len := Z.of_nat (List.length msg) in
  let zeros := Z.to_nat ((55 - len) mod 64) in
  msg ++ [0x80] ++ repeat 0 zeros ++ wordBytes 8 (8 * len).

(** Big-endian 32-bit words of a byte sequence. *)
Fixpoint words (b : bytes) : list Z :=
  match b with
  | b0 :: b1 :: b2 :: b3 :: rest =>
      (((b0 * 256 + b1) * 256 + b2) * 256 + b3) :: words rest
  | _ => []
  end.

(** The message schedule: [n] more words after the ones of [ws]. *)
Fixpoint schedule (n : nat) (ws : list Z) : list Z :=
  match n with
  | O => ws
  | S n' =>
      let i := List.length ws in
      let at_ k := nth (i - k) ws 0 in
      schedule n'
        (ws ++ [add32 (add32 (sigma1 (at_ 2%nat)) (at_ 7%nat))
                      (add32 (sigma0 (at_ 15%nat)) (at_ 16%nat))])
  end.

Definition round (s : Hash) (kw : Z * Z) : Hash :=
  let t1 := add32 (add32 (add32 (h7 s) (Sigma1 (h4 s)))
                         (add32 (Ch (h4 s) (h5 s) (h6 s)) (fst kw)))
                  (snd kw) in
  let t2 := add32 (Sigma0 (h0 s)) (Maj (h0 s) (h1 s) (h2 s)) in
  mkHash (add32 t1 t2) (h0 s) (h1 s) (h2 s)
         (add32 (h3 s) t1) (h4 s) (h5 s) (h6 s).

Definition compress (h : Hash) (block : list Z) : Hash :=
  let s := fold_left round (combine K256 (schedule 48 block)) h in
  mkHash (add32 (h0 h) (h0 s)) (add32 (h1 h) (h1 s))
         (add32 (h2 h) (h2 s)) (add32 (h3 h) (h3 s))
         (add32 (h4 h) (h4 s)) (add32 (h5 h) (h5 s))
         (add32 (h6 h) (h6 s)) (add32 (h7 h) (h7 s)).

(** The blocks of 16 words; [n] bounds their number. *)
Fixpoint blocks (n : nat) (ws : list Z) : list (list Z) :=
  match n, ws with
  | S n', _ :: _ => firstn 16 ws :: blocks n' (skipn 16 ws)
  | _, _ => []
  end.

Definition hashBytes (h : Hash) : bytes :=
  wordBytes 4 (h0 h) ++ wordBytes 4 (h1 h) ++ wordBytes 4 (h2 h)
  ++ wordBytes 4 (h3 h) ++ wordBytes 4 (h4 h) ++ wordBytes 4 (h5 h)
  ++ wordBytes 4 (h6 h) ++ wordBytes 4 (h7 h).

Definition sha256 (msg : bytes) : bytes :=
  let ws := words (pad msg) in
  hashBytes (fold_left compress (blocks (List.length ws) ws) initialHash).

(** *** HMAC (RFC 2104) with SHA-256 *)

Definition blockKey (key : bytes) : bytes :=
  let k := if (64 <? List.length key)%nat then sha256 key else key in
  k ++ repeat 0 (64 - List.length k).

Definition hmacSha256 (key msg : bytes) : bytes :=
  let k := blockKey key in
  sha256 (map (Z.lxor 0x5c) k ++ sha256 (map (Z.lxor 0x36) k ++ msg)).

(** *** Strings to bytes and back *)

(** UTF-8 of a JavaScript string; a lone surrogate becomes U+FFFD. *)
Definition utf8CodePoint (c : Z) : bytes :=
  if c <? 0x80 then [c]
  else if c <? 0x800 then [0xC0 + c / 64; 0x80 + c mod 64]
  else if c <? 0x10000 then
    [0xE0 + c / 4096; 0x80 + (c / 64) mod 64; 0x80 + c mod 64]
  else [0xF0 + c / 262144; 0x80 + (c / 4096) mod 64;
        0x80 + (c / 64) mod 64; 0x80 + c mod 64].

Definition isHighSurrogate (c : Z) : bool := (0xD800 <=? c) && (c <=? 0xDBFF).
Definition isLowSurrogate (c : Z) : bool := (0xDC00 <=? c) && (c <=? 0xDFFF).

Fixpoint utf8From (pendingHigh : option Z) (s : jsstring) : bytes :=
  match s with
  | [] => match pendingHigh with Some _ => utf8CodePoint 0xFFFD | None => [] end
  | c :: rest =>
      match pendingHigh with
      | Some hi =>
          if isLowSurrogate c
          then utf8CodePoint (0x10000 + (hi - 0xD800) * 1024 + (c - 0xDC00))
                 ++ utf8From None rest
          else utf8CodePoint 0xFFFD
                 ++ (if isHighSurrogate c then utf8From (Some c) rest
                     else if isLowSurrogate c
                          then utf8CodePoint 0xFFFD ++ utf8From None rest
                          else utf8CodePoint c ++ utf8From None rest)
      | None =>
          if isHighSurrogate c then utf8From (Some c) rest
          else if isLowSurrogate c
               then utf8CodePoint 0xFFFD ++ utf8From None rest
               else utf8CodePoint c ++ utf8From None rest
      end
  end.

Definition utf8 (s : jsstring) : bytes := utf8From None s.

(** [digest('hex')]: two lower-case digits per byte. *)
Definition hexDigit (d : Z) : codeunit := if d <? 10 then 48 + d else 87 + d.

Fixpoint hexEncode (b : bytes) : jsstring :=
  match b with
  | [] => []
  | x :: rest => hexDigit (x / 16) :: hexDigit (x mod 16) :: hexEncode rest
  end.

Section Decoder.

Variable rt : Runtime.

(** The value of a hexadecimal digit. *)
Definition unhex (c : codeunit) : option Z :=
  if (48 <=? c) && (c <=? 57) then Some (c - 48)
  else if (97 <=? c) && (c <=? 102) then Some (c - 87)
  else if (65 <=? c) && (c <=? 70) then Some (c - 55)
  else if c <? 128 then None
  else unhexWide rt c.

(** [Buffer.from(s, 'hex')]: the pairs of digits up to the first pair that
    is not one, or up to a last single character. *)
Fixpoint hexDecode (s : jsstring) : bytes :=
  match s with
  | a :: b :: rest =>
      match unhex a, unhex b with
      | Some x, Some y => (16 * x + y) :: hexDecode rest
      | _, _ => []
      end
  | _ => []
  end.

End Decoder.

Fixpoint bytes_eqb (a b : bytes) : bool :=
  match a, b with
  | [], [] => true
  | x :: a', y :: b' => (x =? y) && bytes_eqb a' b'
  | _, _ => false
  end.

Definition rangeError : Error :=
  mkError (lit "Input buffers must have the same byte length")
          (Some (lit "ERR_CRYPTO_TIMING_SAFE_EQUAL_LENGTH")).

(** [crypto.timingSafeEqual]: buffers of different lengths are an error. *)
Definition timingSafeEqual (a b : bytes) : M bool :=
  if (List.length a =? List.length b)%nat then ret (bytes_eqb a b)
  else throw rangeError.

(** [createHmac('sha256', key).update(data).digest('hex')]. *)
Definition hmacHex (key data : jsstring) : jsstring :=
  hexEncode (hmacSha256 (utf8 key) (utf8 data)).

End Crypto.

(** ** instagram.ts: the signature of a webhook *)

Module Instagram.

Fixpoint startsWith (pat s : jsstring) : bool :=
  match pat, s with
  | [], _ => true
  | p :: pat', c :: s' => (p =? c) && startsWith pat' s'
  | _ :: _, [] => false
  end.

(** [s.replace(pat, '')] for a string [pat]: the first occurrence goes. *)
Fixpoint removeFirst (pat s : jsstring) : jsstring :=
  if startsWith pat s then skipn (List.length pat) s
  else match s with
       | [] => []
       | c :: rest => c :: removeFirst pat rest
       end.

Section WithSecret.

Variable rt : Runtime.

(** [appConfig.instagram.appSecret]. *)
Variable appSecret : jsstring.

Definition verifyWebhookSignature (payload signature : jsstring) : M bool :=
  tryCatch
    (let expectedSignature := Crypto.hmacHex appSecret payload in
     let providedSignature := removeFirst (lit "sha256=") signature in
     isValid <- Crypto.timingSafeEqual
                  (Crypto.hexDecode rt expectedSignature)
                  (Crypto.hexDecode rt providedSignature) ;;
     ret isValid)
    (fun _ => ret false).

End WithSecret.

End Instagram.

(** ** Callers of getValidAccessToken that overlap

    An [async] function runs without interruption up to an [await], and
    from the settling of the awaited promise up to the next.  A call of
    [getValidAccessToken] therefore has three uninterrupted parts: the test
    and, when it asks for a refresh, the start of [refreshAccessToken] up
    to the sending of the request ([call]); the rest of
    [refreshAccessToken] once the response is there ([resume]); and the
    [return this.accessToken] after the [await] ([finish]).  Other callers
    may run between the parts. *)

Module Overlap.

Inductive Caller :=
| Idle
| Awaiting (request : nat)
| Refreshed
| Done (result : Outcome (option jsstring)).

Record System := mkSystem { world : World; callers : list Caller }.

Inductive Event :=
| Call (i : nat)
| Resume (i : nat)
| Finish (i : nat).

Fixpoint setCaller (i : nat) (c : Caller) (l : list Caller) : list Caller :=
  match l, i with
  | [], _ => []
  | _ :: l', O => c :: l'
  | x :: l', S i' => x :: setCaller i' c l'
  end.

(** From the call to the first [await], or to the return when the token
    is good. *)
Definition call (w : World) : Caller * World :=
  match Gbp.mustRefresh w with
  | (Returned true, w1) => (Awaiting (refreshRequests w1), countRefresh w1)
  | (Returned false, w1) => (Done (Returned (accessToken w1)), w1)
  | (Thrown e, w1) => (Done (Thrown e), w1)
  end.

(** From the arrival of the response to request [k] to the end of
    [refreshAccessToken]; its error goes through [getValidAccessToken]
    unchanged. *)
Definition resume (k : nat) (w : World) : Caller * World :=
  match tokenEndpoint w k with
  | Resolved response =>
      let w1 := setAccessToken (Some (access_token response)) w in
      let now := clock w1 (ticks w1) in
      (Refreshed,
       setTokenExpiresAt (now + expires_in response * 1000) (tick w1))
  | Rejected axiosError =>
      (Done (Thrown (mkError (Gbp.tokenRefreshFailed ++ message axiosError)
                             None)), w)
  end.

(** [return this.accessToken]. *)
Definition finish (w : World) : Caller * World :=
  (Done (Returned (accessToken w)), w).

(** One event; [None] when the caller is not at that point. *)
Definition exec (e : Event) (s : System) : option System :=
  match e with
  | Call i =>
      match nth_error (callers s) i with
      | Some Idle =>
          let (c, w) := call (world s) in
          Some (mkSystem w (setCaller i c (callers s)))
      | _ => None
      end
  | Resume i =>
      match nth_error (callers s) i with
      | Some (Awaiting k) =>
          let (c, w) := resume k (world s) in
          Some (mkSystem w (setCaller i c (callers s)))
      | _ => None
      end
  | Finish i =>
      match nth_error (callers s) i with
      | Some Refreshed =>
          let (c, w) := finish (world s) in
          Some (mkSystem w (setCaller i c (callers s)))
      | _ => None
      end
  end.

Fixpoint run (schedule : list Event) (s : System) : option System :=
  match schedule with
  | [] => Some s
  | e :: rest =>
      match exec e s with
      | Some s' => run rest s'
      | None => None
      end
  end.

(** [n] callers, none of which has started. *)
Definition start (n : nat) (w : World) : System := mkSystem w (repeat Idle n).

(** One caller, its parts run one after the other. *)
Definition alone (w : World) : Caller * World :=
  match call w with
  | (Awaiting k, w1) =>
      match resume k w1 with
      | (Refreshed, w2) => finish w2
      | (c, w2) => (c, w2)
      end
  | (c, w1) => (c, w1)
  end.

End Overlap.

(** ** An engine for the examples

    Lower case of the ASCII letters, the date format that [toISOString]
    writes (with or without milliseconds), decimal numerals, no hexadecimal
    digit outside ASCII.  The examples feed it ASCII strings and dates of
    that format only. *)

Module Node.

Definition asciiLower (s : jsstring) : jsstring :=
  map (fun c => if (65 <=? c) && (c <=? 90) then c + 32 else c) s.

Definition digit (c : codeunit) : option Z :=
  if (48 <=? c) && (c <=? 57) then Some (c - 48) else None.

Fixpoint number (acc : Z) (s : jsstring) : option Z :=
  match s with
  | [] => Some acc
  | c :: rest =>
      match digit c with
      | Some d => number (10 * acc + d) rest
      | None => None
      end
  end.

Definition isLeap (y : Z) : bool :=
  ((y mod 4 =? 0) && negb (y mod 100 =? 0)) || (y mod 400 =? 0).

Definition daysInMonth (y m : Z) : Z :=
  if m =? 2 then (if isLeap y then 29 else 28)
  else if (m =? 4) || (m =? 6) || (m =? 9) || (m =? 11) then 30 else 31.

(** Days from 1970-01-01 to the civil date. *)
Definition daysFromCivil (y m d : Z) : Z :=
  let y' := if m <=? 2 then y - 1 else y in
  let era := y' / 400 in
  let yoe := y' - era * 400 in
  let doy := (153 * (if 2 <? m then m - 3 else m + 9) + 2) / 5 + d - 1 in
  let doe := yoe * 365 + yoe / 4 - yoe / 100 + doy in
  era * 146097 + doe - 719468.

Definition civilFromDays (z : Z) : Z * Z * Z :=
  let z' := z + 719468 in
  let era := z' / 146097 in
  let doe := z' - era * 146097 in
  let yoe := (doe - doe / 1460 + doe / 36524 - doe / 146096) / 365 in
  let doy := doe - (365 * yoe + yoe / 4 - yoe / 100) in
  let mp := (5 * doy + 2) / 153 in
  let d := doy - (153 * mp + 2) / 5 + 1 in
  let m := if mp <? 10 then mp + 3 else mp - 9 in
  (yoe + era * 400 + (if m <=? 2 then 1 else 0), m, d).

Definition field (from len : nat) (s : jsstring) : option Z :=
  number 0 (firstn len (skipn from s)).

Definition charAt (i : nat) (s : jsstring) : codeunit := nth i s (-1).

(** [YYYY-MM-DDTHH:mm:ssZ] and [YYYY-MM-DDTHH:mm:ss.sssZ]. *)
Definition isoParse (s : jsstring) : option Z :=
  let punctuated :=
    (charAt 4 s =? 45) && (charAt 7 s =? 45) && (charAt 10 s =? 84)
    && (charAt 13 s =? 58) && (charAt 16 s =? 58) in
  let tail := skipn 19 s in
  let millis :=
    match tail with
    | [90] => Some 0
    | [46; a; b; c; 90] => number 0 [a; b; c]
    | _ => None
    end in
  match field 0 4 s, field 5 2 s, field 8 2 s,
        field 11 2 s, field 14 2 s, field 17 2 s, millis with
  | Some y, Some mo, Some d, Some h, Some mi, Some sec, Some ms =>
      if punctuated && (1 <=? mo) && (mo <=? 12) && (1 <=? d)
         && (d <=? daysInMonth y mo) && (h <=? 23) && (mi <=? 59)
         && (sec <=? 59)
      then Some ((((daysFromCivil y mo d * 24 + h) * 60 + mi) * 60 + sec)
                 * 1000 + ms)
      else None
  | _, _, _, _, _, _, _ => None
  end.

Fixpoint digits (n : nat) (x : Z) : jsstring :=
  match n with
  | O => []
  | S n' => digits n' (x / 10) ++ [48 + x mod 10]
  end.

(** For the years 0000 to 9999. *)
Definition isoString (t : Z) : jsstring :=
  let day := t / 86400000 in
  let ms := t mod 86400000 in
  let '(y, m, d) := civilFromDays day in
  digits 4 y ++ [45] ++ digits 2 m ++ [45] ++ digits 2 d ++ [84]
  ++ digits 2 (ms / 3600000) ++ [58] ++ digits 2 (ms / 60000 mod 60) ++ [58]
  ++ digits 2 (ms / 1000 mod 60) ++ [46] ++ digits 3 (ms mod 1000) ++ [90].

Definition decimal (x : Z) : jsstring :=
  lit (NilZero.string_of_int (Z.to_int x)).

Definition runtime : Runtime :=
  mkRuntime tagClass asciiLower isoParse isoString decimal (fun _ => None).

End Node.

(** ** The vocabulary of the specification *)

Module Spec.


Section WithRuntime.

Variable rt : Runtime.

(** The tag tokens of the caption, in order, with repetitions. *)
Definition tagTokens (post : InstagramPost) : list jsstring :=
  extractHashtags (wordChar rt) (caption post).




(** Not older than 24 hours at the instant [now]. *)
Definition recent (now : Z) (post : InstagramPost) : Prop :=
  Filters.tooOld rt now post 24 = false.


(** The verdict of the filter in the world [w]. *)
Definition verdict (configTargetHashtag : jsstring)
    (self : Filters.PostFilter) (post : InstagramPost) (w : World)
  : Outcome FilterResult :=
  fst (Filters.filterPost rt configTargetHashtag self post w).

(** *** The summary and the media of a listing request *)

Definition truncate1500 (s : jsstring) : jsstring :=
  if (1500 <? List.length s)%nat then firstn 1497 s ++ lit "..." else s.

Definition fallbackIfShort (s : jsstring) : jsstring :=
  if (List.length s <? 10)%nat then Gbp.fallbackSummary else s.

Definition captionOrDefault (post : InstagramPost) : jsstring :=
  if truthy (caption post)
  then match caption post with Some s => s | None => [] end
  else Gbp.defaultSummary.

(** The summary as the specification words it: caption or default, tags
    stripped, truncated, fallback when short. *)
Definition summaryAsSpecified (post : InstagramPost) : jsstring :=
  fallbackIfShort
    (truncate1500 (stripTags (wordChar rt) (captionOrDefault post))).

(** The same with one more step: the white space around the stripped text
    is trimmed before the length is looked at. *)
Definition summaryAsAmended (post : InstagramPost) : jsstring :=
  fallbackIfShort
    (truncate1500 (trim (stripTags (wordChar rt) (captionOrDefault post)))).

(** The candidate is a single image and has a media URL. *)
Definition singleImageWithUrl (post : InstagramPost) : Prop :=
  media_type post = IMAGE /\ truthy (media_url post) = true.

End WithRuntime.

(** *** The credential *)

(** No token is held, or the expiry less the margin of 60 seconds is at or
    before the next reading of the clock. *)
Definition tokenStale (w : World) : bool :=
  negb (truthy (accessToken w))
  || (tokenExpiresAt w - 60000 <=? clock w (ticks w)).

(** The token is stale, and stays so whatever the clock reads: none is
    held, or every reading is at or after the expiry less the margin. *)
Definition staleThroughout (w : World) : Prop :=
  truthy (accessToken w) = false
  \/ forall k, tokenExpiresAt w - 60000 <= clock w k.

(** *** The signature of a webhook *)

(** The HMAC-SHA256 digest of the payload under the secret. *)
Definition digest (appSecret payload : jsstring) : Crypto.bytes :=
  Crypto.hmacSha256 (Crypto.utf8 appSecret) (Crypto.utf8 payload).

(** The bytes that the signature header decodes to. *)
Definition decodedSignature (rt : Runtime) (signature : jsstring)
  : Crypto.bytes :=
  Crypto.hexDecode rt (Instagram.removeFirst (lit "sha256=") signature).

Definition isHexDigit (c : codeunit) : bool :=
  ((48 <=? c) && (c <=? 57)) || ((97 <=? c) && (c <=? 102))
  || ((65 <=? c) && (c <=? 70)).

(** Well-formed hexadecimal: digits only, and an even number of them. *)
Definition wellFormedHex (s : jsstring) : bool :=
  forallb isHexDigit s && Nat.even (List.length s).

(** *** The ledger *)

(** Two worlds with the same ledger and the same file system. *)
Definition sameLedger (w w' : World) : Prop :=
  logSyncCalls w' = logSyncCalls w /\ fsFault w' = fsFault w
  /\ fsOps w' = fsOps w /\ syncLogFile w' = syncLogFile w.

(** The instant of a record: what [new Date(r.timestamp).getTime()] is,
    [None] standing for [NaN]. *)
Definition timeOf (rt : Runtime) (r : SyncLog) : option Z :=
  dateParse rt (SyncLog.timestamp r).

(** [a] is strictly more recent than [b]. *)
Definition newer (rt : Runtime) (a b : SyncLog) : Prop :=
  exists ta tb, timeOf rt a = Some ta /\ timeOf rt b = Some tb /\ tb < ta.

(** [a] is at least as recent as [b]. *)
Definition notOlder (rt : Runtime) (a b : SyncLog) : Prop :=
  exists ta tb, timeOf rt a = Some ta /\ timeOf rt b = Some tb /\ tb <= ta.

(** The timestamps of the records denote instants, all different. *)
Definition distinctTimes (rt : Runtime) (records : list SyncLog) : Prop :=
  Forall (fun r => timeOf rt r <> None) records
  /\ NoDup (map (timeOf rt) records).

(** The file exists with these lines, and no file operation fails. *)
Definition readable (w : World) (lines : list Line) : Prop :=
  syncLogFile w = Some lines /\ forall k, fsFault w k = None.

Definition isENOENT (e : Error) : bool :=
  match code e with
  | Some c => JS.eqb c (lit "ENOENT")
  | None => false
  end.

(** A client that reads [n] pages of [limit] records one after the other,
    from page [k] on. *)
Fixpoint readPagesFrom (rt : Runtime) (limit : Z) (k n : nat)
  : M (list (list SyncLog)) :=
  match n with
  | O => ret []
  | S n' =>
      page <- Logger.getSyncLogs rt limit (Z.of_nat k * limit) ;;
      rest <- readPagesFrom rt limit (S k) n' ;;
      ret (page :: rest)
  end.

(** The records written on the lines of the file, in the order of the
    file; a line that does not decode holds none. *)
Definition written (lines : list Line) : list SyncLog :=
  flat_map (fun l => match l with Entry r => [r] | Malformed => [] end) lines.

(** Every timestamp denotes an instant. *)
Definition parsed (rt : Runtime) (records : list SyncLog) : Prop :=
  Forall (fun r => timeOf rt r <> None) records.

Definition status_eq_dec : forall a b : SyncStatus, {a = b} + {a <> b}.
Proof. decide equality. Defined.

(** The record is of an instant after the cutoff. *)
Definition after (rt : Runtime) (cutoff : Z) (r : SyncLog) : bool :=
  match timeOf rt r with
  | Some t => cutoff <? t
  | None => false
  end.

(** The record is of the instant [t]. *)
Definition atInstant (rt : Runtime) (t : Z) (r : SyncLog) : bool :=
  match timeOf rt r with
  | Some u => u =? t
  | None => false
  end.

(** A stable sort of [records] from the most recent to the oldest: [l] is
    in descending order of time, and the records of one instant are the
    same in [l] and in [records], in the same order. *)
Definition stablySorted (rt : Runtime) (records l : list SyncLog) : Prop :=
  StronglySorted (notOlder rt) l
  /\ forall t, filter (atInstant rt t) l = filter (atInstant rt t) records.

(** The number of records of status [s], by a scan of the records. *)
Definition withStatus (s : SyncStatus) (records : list SyncLog) : nat :=
  count_occ status_eq_dec (map SyncLog.status records) s.

(** The file after the append of [r]. *)
Definition appended (r : SyncLog) (file : option (list Line))
  : option (list Line) :=
  Some (match file with Some lines => lines ++ [Entry r] | None => [Entry r] end).

End Spec.

(** ** Inputs of the examples *)

Module Sample.

(** 2023-01-01T12:00:00.000Z. *)
Definition noon : Z := 1672574400000.

Definition listing : jsstring := lit "accounts/123/locations/456/localPosts/789".

(** A quiet environment: the clock advances by a millisecond per reading,
    the endpoints answer, the disk does not fail, no token is held and the
    ledger file does not exist yet. *)
Definition world : World :=
  mkWorld (fun k => noon + Z.of_nat k) 0
    (fun _ => Resolved (mkTokenResponse (lit "new-token") 3600 None
                         (lit "https://www.googleapis.com/auth/business.manage")
                         (lit "Bearer"))) 0
    (fun _ => Resolved (mkCreateResponse listing LIVE)) []
    None 0
    (fun _ => None) 0
    None [].

(** The same environment with a token that is good for an hour. *)
Definition worldWithToken : World :=
  setTokenExpiresAt (noon + 3600000)
    (setAccessToken (Some (lit "held-token")) world).

(** An environment in which both endpoints fail. *)
Definition worldOffline : World :=
  mkWorld (fun k => noon + Z.of_nat k) 0
    (fun _ => Rejected (mkError (lit "Network Error") None)) 0
    (fun _ => Rejected (mkError (lit "Network Error") None)) []
    None 0
    (fun _ => None) 0
    None [].

(** The quiet environment with a clock that advances by two days per
    reading. *)
Definition worldDays : World :=
  mkWorld (fun k => noon + 172800000 * Z.of_nat k) 0
    (fun _ => Resolved (mkTokenResponse (lit "new-token") 3600 None
                         (lit "https://www.googleapis.com/auth/business.manage")
                         (lit "Bearer"))) 0
    (fun _ => Resolved (mkCreateResponse listing LIVE)) []
    None 0
    (fun _ => None) 0
    None [].

Definition postFilter : Filters.PostFilter :=
  Filters.newPostFilter Node.runtime (lit "#MEO").

Definition post (text : string) (kind : MediaType) : InstagramPost :=
  mkPost (lit "17900000000000001") (Some (lit text)) kind
    (Some (lit "https://cdn.example/p.jpg"))
    (lit "https://instagram.com/p/test") (lit "2023-01-01T11:00:00.000Z")
    (Some 12) (Some 3).

Definition menu : InstagramPost :=
  post "Our new lunch menu is here! #MEO #food" IMAGE.

Definition video : InstagramPost :=
  post "Our new lunch menu is here! #MEO #food" VIDEO.


(** The [k]-th record of a ledger written at one record per second. *)
Definition record (k : nat) : SyncLog :=
  SyncLog.mk (lit "17900000000000001-" ++ Node.decimal (noon + Z.of_nat k))
    (Node.isoString (noon + 1000 * Z.of_nat k))
    (lit "17900000000000001") None None None
    (match Nat.modulo k 3 with
     | O => success
     | S O => failed
     | _ => skipped
     end)
    None [] 12.

Definition ledger (n : nat) : list Line :=
  map (fun k => Entry (record k)) (seq 0 n).

(** The quiet environment with a ledger of [n] records on disk. *)
Definition worldWithLedger (n : nat) : World :=
  setSyncLogFile (Some (ledger n)) world.

(** An environment in which the file cannot be read for want of rights. *)
Definition eacces : Error :=
  mkError (lit "EACCES: permission denied") (Some (lit "EACCES")).

Definition worldNoAccess : World :=
  mkWorld (fun k => noon + Z.of_nat k) 0
    (fun _ => Resolved (mkTokenResponse (lit "new-token") 3600 None
                         (lit "https://www.googleapis.com/auth/business.manage")
                         (lit "Bearer"))) 0
    (fun _ => Resolved (mkCreateResponse listing LIVE)) []
    None 0
    (fun _ => Some eacces) 0
    (Some (ledger 3)) [].

Definition appSecret : jsstring := lit "test-secret".
Definition payload : jsstring := lit "test payload".

(** The signature of [payload] under [appSecret], as the platform sends it. *)
Definition signature : jsstring :=
  lit "sha256=2f94a757d2246073e26781d117ce0183ebd87b4d66c460494376d5c37d71985b".

End Sample.

(** ** filters.ts: batches and the change of the target tag *)

Module FilterBatch.

(** What [result.reason || 'Unknown reason'] gives. *)
Inductive ReasonText :=
| Given (r : Reason)
| UnknownReason.

Definition reasonOrUnknown (o : option Reason) : ReasonText :=
  match o with
  | Some r => Given r
  | None => UnknownReason
  end.

Record Batch := mkBatch {
  toSync : list InstagramPost;
  filtered : list (InstagramPost * ReasonText)
}.

(** The message of [updateTargetHashtag] for a tag without its marker. *)
Definition markerRequired : jsstring :=
  [0x30cf; 0x30c3; 0x30b7; 0x30e5; 0x30bf; 0x30b0; 0x306f; 0x20; 0x23; 0x20;
   0x3067; 0x59cb; 0x307e; 0x308b; 0x5fc5; 0x8981; 0x304c; 0x3042; 0x308a;
   0x307e; 0x3059].

Section WithRuntime.

Variable rt : Runtime.
Variable configTargetHashtag : jsstring.

(** [filterPosts]: the posts are looked at in order, each pushed on one of
    the two arrays. *)
Fixpoint filterPosts (self : Filters.PostFilter) (posts : list InstagramPost)
  : M Batch :=
  match posts with
  | [] => ret (mkBatch [] [])
  | post :: rest =>
      result <- Filters.filterPost rt configTargetHashtag self post ;;
      later <- filterPosts self rest ;;
      if shouldSync result
      then ret (mkBatch (post :: toSync later) (filtered later))
      else ret (mkBatch (toSync later)
                  ((post, reasonOrUnknown (reason result)) :: filtered later))
  end.

(** [updateTargetHashtag]: the instance with its new tag, or the error. *)
Definition updateTargetHashtag (newHashtag : jsstring)
    (self : Filters.PostFilter) : Error + Filters.PostFilter :=
  match newHashtag with
  | c :: _ =>
      if c =? hash
      then inr (Filters.mkPostFilter (toLowerCase rt newHashtag))
      else inl (mkError markerRequired None)
  | [] => inl (mkError markerRequired None)
  end.

End WithRuntime.

End FilterBatch.

(** ** gbp.ts: the dry run, the connection test and the token status *)

Module GbpChecks.

Record Validation := mkValidation {
  isValid : bool;
  errors : option (list jsstring)
}.

Record ConnectionData := mkConnectionData {
  accountId : jsstring;
  locationId : jsstring;
  tokenValid : bool;
  validationWorking : bool
}.

Record ConnectionResult := mkConnectionResult {
  connected : bool;
  connectionMessage : jsstring;
  data : option ConnectionData
}.

Record TokenStatus := mkTokenStatus {
  hasToken : bool;
  expiresAt : option Z;
  isExpired : bool
}.

Definition connectionOk : jsstring :=
  [0x47; 0x42; 0x50; 0x20; 0x41; 0x50; 0x49; 0x20; 0x63a5; 0x7d9a; 0x6210;
   0x529f].

Definition connectionFailed : jsstring :=
  [0x47; 0x42; 0x50; 0x20; 0x41; 0x50; 0x49; 0x20; 0x63a5; 0x7d9a; 0x306b;
   0x5931; 0x6557; 0x3a; 0x20].

Section WithRuntime.

Variable rt : Runtime.

(** [appConfig.gbp.accountId] and [appConfig.gbp.locationId]. *)
Variable configAccountId configLocationId : jsstring.

(** [validateLocalPost]: the request of [createLocalPost] with
    [validateOnly: true], its failure turned into a result. *)
Definition validateLocalPost (instagramPost : InstagramPost) : M Validation :=
  tryCatch
    (token <- Gbp.getValidAccessToken ;;
     let localPost := Gbp.convertInstagramToGBPPost rt instagramPost in
     let validateRequest := mkCreateRequest localPost true token in
     Gbp.axios_post_createPost validateRequest ;;
     ret (mkValidation true None))
    (fun axiosError => ret (mkValidation false (Some [message axiosError]))).

Definition testConnection : M ConnectionResult :=
  tryCatch
    (token <- Gbp.getValidAccessToken ;;
     now <- Date_now ;;
     let dummyPost :=
       mkPost (lit "test") (Some (lit "Test post for connection validation"))
         IMAGE None (lit "https://instagram.com/test") (toISOString rt now)
         None None in
     validation <- validateLocalPost dummyPost ;;
     ret (mkConnectionResult true connectionOk
            (Some (mkConnectionData configAccountId configLocationId
                     (truthy token) (isValid validation)))))
    (fun error =>
       ret (mkConnectionResult false (connectionFailed ++ message error) None)).

(** [getTokenStatus]; [expiresAt] is left out while [tokenExpiresAt] is 0. *)
Definition getTokenStatus : M TokenStatus :=
  token <- gets accessToken ;;
  expires <- gets tokenExpiresAt ;;
  now <- Date_now ;;
  ret (mkTokenStatus (truthy token)
         (if expires =? 0 then None else Some expires)
         (now >=? expires)).

End WithRuntime.

End GbpChecks.

(** ** logger.ts: the retention of the ledger *)

Module Retention.

(** [fs.writeFile]: the file is replaced by the lines written. *)
Definition fs_writeFile (lines : list Line) : M unit :=
  fsOp ;;
  modify (setSyncLogFile (Some lines)).

Section WithRuntime.

Variable rt : Runtime.

(** [d.setDate(d.getDate() - days)] on the instant [now], in the time zone
    of the process: the instant [days] calendar days before. *)
Variable daysBefore : Z -> Z -> Z.

(** [new Date(log.timestamp) > cutoffDate]; false for a timestamp that does
    not parse. *)
Definition newerThan (cutoff : Z) (log : SyncLog) : bool :=
  match dateParse rt (SyncLog.timestamp log) with
  | Some t => t >? cutoff
  | None => false
  end.

Definition clearOldLogs (daysToKeep : Z) : M unit :=
  tryCatch
    (now <- Date_now ;;
     let cutoffDate := daysBefore now daysToKeep in
     logs <- Logger.getSyncLogs rt 10000 0 ;;
     let recentLogs := filter (newerThan cutoffDate) logs in
     if (List.length recentLogs <? List.length logs)%nat
     then fs_writeFile (map Entry recentLogs)
     else ret tt)
    (fun _ => ret tt).

End WithRuntime.

End Retention.

(** ** instagram.ts: the handshake, the entries of a webhook, recency *)

Module Webhook.

Module Verb.
Inductive t := add | edit | delete.
End Verb.

Record ChangeValue := mkChangeValue {
  media_id : option jsstring;
  verb : option Verb.t
}.

Record Change := mkChange { field : jsstring; value : ChangeValue }.

Record InstagramWebhookEntry := mkEntry {
  entryId : jsstring;
  time : Z;
  changes : list Change
}.

Record InstagramWebhookPayload := mkPayload {
  object : jsstring;
  entry : list InstagramWebhookEntry
}.

(** The Graph API: the response to the k-th request for the details of a
    media, the response to the k-th request for the recent media, and the
    requests sent so far (a media id, or the limit asked for). *)
Record Graph := mkGraph {
  mediaDetails : nat -> Http InstagramPost;
  detailRequests : list jsstring;
  recentMedia : nat -> Http (list InstagramPost);
  recentRequests : list Z
}.

(** The prefix of the errors of [getMediaDetails] and [getRecentMedia]. *)
Definition instagramApiError : jsstring :=
  [0x49; 0x6e; 0x73; 0x74; 0x61; 0x67; 0x72; 0x61; 0x6d; 0x20; 0x41; 0x50;
   0x49; 0x20; 0x30a8; 0x30e9; 0x30fc; 0x3a; 0x20].

Definition getMediaDetails (mediaId : jsstring) (g : Graph)
  : Outcome InstagramPost * Graph :=
  let g' := mkGraph (mediaDetails g) (detailRequests g ++ [mediaId])
              (recentMedia g) (recentRequests g) in
  match mediaDetails g (List.length (detailRequests g)) with
  | Resolved post => (Returned post, g')
  | Rejected axiosError =>
      (Thrown (mkError (instagramApiError ++ message axiosError) None), g')
  end.

Definition getRecentMedia (limit : Z) (g : Graph)
  : Outcome (list InstagramPost) * Graph :=
  let g' := mkGraph (mediaDetails g) (detailRequests g)
              (recentMedia g) (recentRequests g ++ [limit]) in
  match recentMedia g (List.length (recentRequests g)) with
  | Resolved posts => (Returned posts, g')
  | Rejected axiosError =>
      (Thrown (mkError (instagramApiError ++ message axiosError) None), g')
  end.

(** [change.field === 'media' && change.value?.verb === 'add'
    && change.value?.media_id]: the id to fetch, if the change has one. *)
Definition newMedia (change : Change) : option jsstring :=
  if JS.eqb (field change) (lit "media") then
    match verb (value change), media_id (value change) with
    | Some Verb.add, Some (c :: mediaId) => Some (c :: mediaId)
    | _, _ => None
    end
  else None.

(** The loop of [processWebhookEntry]; a failed fetch is passed over. *)
Fixpoint processChanges (l : list Change) (g : Graph)
  : list InstagramPost * Graph :=
  match l with
  | [] => ([], g)
  | change :: rest =>
      match newMedia change with
      | Some mediaId =>
          match getMediaDetails mediaId g with
          | (Returned post, g1) =>
              let (posts, g2) := processChanges rest g1 in (post :: posts, g2)
          | (Thrown _, g1) => processChanges rest g1
          end
      | None => processChanges rest g
      end
  end.

Definition processWebhookEntry (e : InstagramWebhookEntry) (g : Graph)
  : list InstagramPost * Graph :=
  processChanges (changes e) g.

Fixpoint processEntries (l : list InstagramWebhookEntry) (g : Graph)
  : list InstagramPost * Graph :=
  match l with
  | [] => ([], g)
  | e :: rest =>
      let (processedPosts, g1) := processWebhookEntry e g in
      let (newPosts, g2) := processEntries rest g1 in
      (processedPosts ++ newPosts, g2)
  end.

Definition processWebhookPayload (payload : InstagramWebhookPayload)
    (g : Graph) : Outcome (list InstagramPost) * Graph :=
  let (newPosts, g') := processEntries (entry payload) g in
  (Returned newPosts, g').

Section WithConfig.

Variable rt : Runtime.

(** [appConfig.instagram.webhookVerifyToken]. *)
Variable webhookVerifyToken : jsstring.

(** [verifyWebhookChallenge].  The parameters are strings, as the casts
    of the handler say; one missing from the query is [None]. *)
Definition verifyWebhookChallenge (mode token challenge : option jsstring)
  : option jsstring :=
  match mode, token with
  | Some m, Some t =>
      if JS.eqb m (lit "subscribe") && JS.eqb t webhookVerifyToken
      then challenge
      else None
  | _, _ => None
  end.

(** [isRecentPost]: [diffMinutes <= withinMinutes], false when the
    timestamp does not parse. *)
Definition isRecentPost (timestamp : jsstring) (withinMinutes : Z) : M bool :=
  now <- Date_now ;;
  match dateParse rt timestamp with
  | Some postTime => ret (now - postTime <=? withinMinutes * (1000 * 60))
  | None => ret false
  end.

End WithConfig.

End Webhook.

(** ** server.ts: the handlers of the webhook and of the logs *)

Module Api.

Inductive ChallengeResponse :=
| Challenge200 (text : jsstring)
| Forbidden403.

Record Pagination := mkPagination {
  total : nat;
  page : Z;
  limit : Z;
  totalPages : Z
}.

Inductive LogsResponse :=
| Logs200 (logs : list SyncLog) (pagination : Pagination)
| Logs500 (errorMessage : jsstring).

(** [Math.ceil(a / b)] for integers, [b] not 0. *)
Definition ceilDiv (a b : Z) : Z := - ((- a) / b).

(** [parseInt(text) || d]: [None] is [NaN], and 0 is falsy as well. *)
Definition orNumber (parsed : option Z) (d : Z) : Z :=
  match parsed with
  | Some 0 | None => d
  | Some n => n
  end.

Section WithRuntime.

Variable rt : Runtime.
Variable configTargetHashtag : jsstring.
Variable postFilter : Filters.PostFilter.
Variable appSecret webhookVerifyToken : jsstring.

(** The GET handler of the webhook path. *)
Definition webhookGet (mode token challenge : option jsstring)
  : ChallengeResponse :=
  match Webhook.verifyWebhookChallenge webhookVerifyToken mode token challenge
  with
  | Some (c :: text) => Challenge200 (c :: text)
  | _ => Forbidden403
  end.

(** The [for] loop over the posts of a batch. *)
Fixpoint processPosts (posts : list InstagramPost) : M unit :=
  match posts with
  | [] => ret tt
  | post :: rest =>
      Server.processSinglePost rt configTargetHashtag postFilter post ;;
      processPosts rest
  end.

(** [processWebhookAsync]; the Graph API is threaded beside the world. *)
Definition processWebhookAsync (payload : Webhook.InstagramWebhookPayload)
    (g : Webhook.Graph) : M Webhook.Graph :=
  match Webhook.processWebhookPayload payload g with
  | (Returned newPosts, g') =>
      tryCatch
        (match newPosts with
         | [] => ret tt
         | _ :: _ => processPosts newPosts
         end)
        (fun _ => ret tt) ;;
      ret g'
  | (Thrown _, g') => ret g'
  end.

(** The POST handler of the webhook path: the status of the response, and
    the processing that the handler starts without waiting for it.
    [payload] is [JSON.stringify(req.body)], [body] the parsed request. *)
Definition webhookPost (signature : option jsstring) (payload : jsstring)
    (body : Webhook.InstagramWebhookPayload) (g : Webhook.Graph)
  : M (Z * Webhook.Graph) :=
  match signature with
  | Some (c :: sig) =>
      valid <- Instagram.verifyWebhookSignature rt appSecret payload (c :: sig) ;;
      if valid
      then g' <- processWebhookAsync body g ;; ret (200, g')
      else ret (403, g)
  | _ => ret (400, g)
  end.

(** The handler of [GET /api/logs]; [pageParam] and [limitParam] are what
    [parseInt] makes of the query, [None] for [NaN]. *)
Definition logsGet (pageParam limitParam : option Z) : M LogsResponse :=
  let page := orNumber pageParam 1 in
  let limit := Z.min (orNumber limitParam 50) 100 in
  let offset := (page - 1) * limit in
  tryCatch
    (logs <- Logger.getSyncLogs rt limit offset ;;
     stats <- Logger.getSyncLogStats rt ;;
     ret (Logs200 logs
            (mkPagination (Logger.Stats.total stats) page limit
               (ceilDiv (Z.of_nat (Logger.Stats.total stats)) limit))))
    (fun error => ret (Logs500 (message error))).

End WithRuntime.

End Api.

(** ** cli.ts: one cycle of polling *)

Module Cli.

Record PollState := mkPollState {
  lastPollTime : jsstring;
  lastProcessedPostId : option jsstring;
  totalProcessed : Z;
  totalSynced : Z
}.

Record PollOptions := mkPollOptions {
  dryRun : option bool;
  limit : option Z
}.

Section WithRuntime.

Variable rt : Runtime.
Variable configTargetHashtag : jsstring.
Variable postFilter : Filters.PostFilter.

(** [appConfig.sync.maxPostsPerPoll]. *)
Variable maxPostsPerPoll : Z.

(** [new Date(post.timestamp) > lastPollDate]. *)
Definition newerThanPoll (lastPollDate : option Z) (post : InstagramPost)
  : bool :=
  match dateParse rt (timestamp post), lastPollDate with
  | Some t, Some t0 => t >? t0
  | _, _ => false
  end.

(** The loop over [toSync], counting the posts whose processing did not
    raise. *)
Fixpoint syncAll (posts : list InstagramPost) (syncedCount : Z) : M Z :=
  match posts with
  | [] => ret syncedCount
  | post :: rest =>
      counted <- tryCatch
                   (Server.processSinglePost rt configTargetHashtag postFilter
                      post ;;
                    ret (syncedCount + 1))
                   (fun _ => ret syncedCount) ;;
      syncAll rest counted
  end.

(** [savePollState]: the write of the state file, its failure swallowed. *)
Definition savePollState : M unit :=
  tryCatch fsOp (fun _ => ret tt).

(** [poll]: the poll state and the Graph API after the cycle.  The error
    of [getRecentMedia], which [poll] raises again, is the left injection:
    the poll state is then as before, and the request has been sent. *)
Definition poll (options : PollOptions) (pollState : PollState)
    (g : Webhook.Graph) : M ((Error + PollState) * Webhook.Graph) :=
  let lastPollDate := dateParse rt (lastPollTime pollState) in
  Date_now ;;
  let limit := Api.orNumber (limit options) maxPostsPerPoll in
  match Webhook.getRecentMedia limit g with
  | (Thrown e, g') => ret (inl e, g')
  | (Returned posts, g') =>
      match posts with
      | [] => ret (inr pollState, g')
      | _ :: _ =>
          let newPosts := filter (newerThanPoll lastPollDate) posts in
          match newPosts with
          | [] => ret (inr pollState, g')
          | first :: _ =>
              batch <- FilterBatch.filterPosts rt configTargetHashtag
                         postFilter newPosts ;;
              match dryRun options with
              | Some true => ret (inr pollState, g')
              | _ =>
                  syncedCount <- syncAll (FilterBatch.toSync batch) 0 ;;
                  now <- Date_now ;;
                  let pollState' :=
                    mkPollState (toISOString rt now) (Some (id first))
                      (totalProcessed pollState
                       + Z.of_nat (List.length newPosts))
                      (totalSynced pollState + syncedCount) in
                  savePollState ;;
                  ret (inr pollState', g')
              end
          end
      end
  end.

End WithRuntime.

End Cli.

(** ** validators.ts *)

Module Validators.

(** [html.replace(/c/g, text)] for a character [c]. *)
Definition replaceChar (c : codeunit) (text : jsstring) (s : jsstring)
  : jsstring :=
  flat_map (fun x => if x =? c then text else [x]) s.

Definition sanitizeHtml (html : jsstring) : jsstring :=
  replaceChar 47 (lit "&#x2F;")
    (replaceChar 39 (lit "&#039;")
       (replaceChar 34 (lit "&quot;")
          (replaceChar 62 (lit "&gt;")
             (replaceChar 60 (lit "&lt;")
                (replaceChar 38 (lit "&amp;") html))))).

(** [path.replace(/\.\./g, '')]: the pairs of dots, from left to right. *)
Fixpoint removeDotPairs (s : jsstring) : jsstring :=
  match s with
  | 46 :: rest =>
      match rest with
      | 46 :: rest' => removeDotPairs rest'
      | _ => 46 :: removeDotPairs rest
      end
  | c :: rest => c :: removeDotPairs rest
  | [] => []
  end.

(** The characters that the second replacement of [sanitizePath] removes:
    the angle brackets, the colon, the double quote, the bar, the question
    mark and the star. *)
Definition invalidFilenameChar (c : codeunit) : bool :=
  (c =? 60) || (c =? 62) || (c =? 58) || (c =? 34) || (c =? 124)
  || (c =? 63) || (c =? 42).

(** [path.replace(/\/+/g, '/')]; [afterSlash] tells that the last character
    kept is a slash. *)
Fixpoint mergeSlashes (afterSlash : bool) (s : jsstring) : jsstring :=
  match s with
  | [] => []
  | c :: rest =>
      if c =? 47
      then if afterSlash then mergeSlashes true rest
           else 47 :: mergeSlashes true rest
      else c :: mergeSlashes false rest
  end.

Definition sanitizePath (path : jsstring) : jsstring :=
  mergeSlashes false
    (filter (fun c => negb (invalidFilenameChar c)) (removeDotPairs path)).

Inductive SignatureCheck :=
| MissingSignature401
| InvalidFormat401
| Next.

(** The middleware [validateWebhookSignature]. *)
Definition validateWebhookSignature (signature : option jsstring)
  : SignatureCheck :=
  match signature with
  | Some (c :: sig) =>
      if negb (Instagram.startsWith (lit "sha256=") (c :: sig))
         || negb (List.length (c :: sig) =? 71)%nat
      then InvalidFormat401
      else Next
  | _ => MissingSignature401
  end.

End Validators.

(** ** Terms of the properties of these functions *)

Module Terms.

(** No [#] of [s] is followed by a character of the class: the tag pattern
    matches nowhere in [s]. *)
Fixpoint tagFree (cls : codeunit -> bool) (s : jsstring) : bool :=
  match s with
  | [] => true
  | c :: rest =>
      negb ((c =? hash)
            && match rest with d :: _ => cls d | [] => false end)
      && tagFree cls rest
  end.

(** The ids that the changes of a payload ask to fetch, in order. *)
Definition mediaToFetch (payload : Webhook.InstagramWebhookPayload)
  : list jsstring :=
  flat_map
    (fun e =>
       flat_map
         (fun change =>
            match Webhook.newMedia change with
            | Some mediaId => [mediaId]
            | None => []
            end)
         (Webhook.changes e))
    (Webhook.entry payload).

(** The posts among the responses [k], [k + 1], ... to [n] requests. *)
Fixpoint resolvedFrom (answers : nat -> Http InstagramPost) (k n : nat)
  : list InstagramPost :=
  match n with
  | O => []
  | S n' =>
      match answers k with
      | Resolved post => post :: resolvedFrom answers (S k) n'
      | Rejected _ => resolvedFrom answers (S k) n'
      end
  end.

(** The requests that only validate. *)
Definition validationOnly (rq : GBPCreatePostRequest) : Prop :=
  validateOnly rq = true.

(** Two worlds that differ by the number of readings of the clock at
    most: the same credential, the same requests sent, the same disk and
    the same ledger. *)
Definition onlyClockRead (w w' : World) : Prop :=
  clock w' = clock w /\ (ticks w <= ticks w')%nat
  /\ tokenEndpoint w' = tokenEndpoint w
  /\ refreshRequests w' = refreshRequests w
  /\ postEndpoint w' = postEndpoint w
  /\ createRequests w' = createRequests w
  /\ accessToken w' = accessToken w
  /\ tokenExpiresAt w' = tokenExpiresAt w
  /\ fsFault w' = fsFault w /\ fsOps w' = fsOps w
  /\ syncLogFile w' = syncLogFile w
  /\ logSyncCalls w' = logSyncCalls w.

(** No two slashes stand side by side in [s]. *)
Fixpoint noDoubleSlash (s : jsstring) : bool :=
  match s with
  | [] => true
  | c :: rest =>
      negb ((c =? 47) && match rest with d :: _ => d =? 47 | [] => false end)
      && noDoubleSlash rest
  end.

(** The characters that [sanitizeHtml] writes as entities, the ampersand
    apart. *)
Definition markupChar (c : codeunit) : bool :=
  (c =? 60) || (c =? 62) || (c =? 34) || (c =? 39) || (c =? 47).

End Terms.

(** ** Inputs of the examples of polling *)

Module Fixture.

(** A Graph API that answers: two recent posts, and the first of them for
    the details of any media. *)
Definition graph : Webhook.Graph :=
  Webhook.mkGraph (fun _ => Resolved Sample.menu) []
    (fun _ => Resolved [Sample.menu; Sample.video]) [].

(** The state of a poller that last ran at 10:00, an hour before the
    posts. *)
Definition pollState : Cli.PollState :=
  Cli.mkPollState (lit "2023-01-01T10:00:00.000Z") None 0 0.

Definition live : Cli.PollOptions := Cli.mkPollOptions None None.

Definition dry : Cli.PollOptions := Cli.mkPollOptions (Some true) (Some 5).

End Fixture.

(** * Properties *)

(** ** Strings *)

Lemma eqb_spec (a b : jsstring) : reflect (a = b) (JS.eqb a b).
Proof.
  revert b; induction a as [|x a IH]; intros [|y b]; simpl;
    try (constructor; congruence).
  destruct (Z.eqb_spec x y) as [->|ne]; simpl.
  - destruct (IH b) as [->|ne]; constructor; congruence.
  - constructor; congruence.
Qed.

Lemma eqb_refl (a : jsstring) : JS.eqb a a = true.
Proof. destruct (eqb_spec a a); congruence. Qed.

Lemma eqb_eq (a b : jsstring) : JS.eqb a b = true <-> a = b.
Proof. destruct (eqb_spec a b); split; congruence. Qed.

Lemma includes_In (l : list jsstring) (x : jsstring) :
  includes l x = true <-> In x l.
Proof.
  unfold includes; rewrite existsb_exists; split.
  - intros (y & Hy & E). apply eqb_eq in E. now subst.
  - intros H. exists x. split; [assumption | apply eqb_refl].
Qed.

Example extractHashtags_menu :
  extractHashtags tagClass (Some (lit "New menu! #MEO #food"))
  = [lit "#MEO"; lit "#food"].
Proof. reflexivity. Qed.

Example stripTags_menu :
  stripTags tagClass (lit "New menu! #MEO #food") = lit "New menu!  ".
Proof. reflexivity. Qed.









Example K256_ends :
  List.length Crypto.K256 = 64%nat
  /\ hd 0 Crypto.K256 = 0x428a2f98 /\ last Crypto.K256 0 = 0xc67178f2.
Proof. repeat split. Qed.

Example initialHash_ends :
  Crypto.h0 Crypto.initialHash = 0x6a09e667
  /\ Crypto.h7 Crypto.initialHash = 0x5be0cd19.
Proof. split; reflexivity. Qed.

Example sha256_abc :
  Crypto.hexEncode (Crypto.sha256 (Crypto.utf8 (lit "abc")))
  = lit "ba7816bf8f01cfea414140de5dae2223b00361a396177a9cb410ff61f20015ad".
Proof. vm_compute. reflexivity. Qed.

Example hmac_fox :
  Crypto.hmacHex (lit "key") (lit "The quick brown fox jumps over the lazy dog")
  = lit "f7bc83f430538424b13298e6aa6fb143ef4d59a14946175997479dbc2d1a3cd8".
Proof. vm_compute. reflexivity. Qed.

Example hmac_test_payload :
  Crypto.hmacHex (lit "test-secret") (lit "test payload")
  = lit "2f94a757d2246073e26781d117ce0183ebd87b4d66c460494376d5c37d71985b".
Proof. vm_compute. reflexivity. Qed.

Example isoParse_epoch_2023 :
  Node.isoParse (lit "2023-01-01T00:00:00Z") = Some 1672531200000.
Proof. reflexivity. Qed.

Example isoString_2023 :
  Node.isoString 1672534800123 = lit "2023-01-01T01:00:00.123Z".
Proof. reflexivity. Qed.

Example isoParse_isoString :
  Node.isoParse (Node.isoString 1709210096789) = Some 1709210096789.
Proof. reflexivity. Qed.

(** ** The filter *)

Section FilterFacts.

Variable rt : Runtime.
Variable configTargetHashtag : jsstring.



(** What [filterPost] computes, and what it does to the world: it reads the
    clock once when the target tag is there, and nothing else. *)
Lemma filterPost_run (self : Filters.PostFilter) (post : InstagramPost)
    (w : World) :
  Filters.filterPost rt configTargetHashtag self post w =
  if includes (map (toLowerCase rt) (Spec.tagTokens rt post))
       (Filters.targetHashtag self)
  then
    (Returned
       (if negb (shouldSync (Filters.filterByMediaType post))
        then Filters.filterByMediaType post
        else if Filters.tooOld rt (clock w (ticks w)) post 24
        then reject (PostTooOld (Filters.ageMs rt (clock w (ticks w)) post) 24)
        else if negb (shouldSync (Filters.filterByContent rt post))
        then Filters.filterByContent rt post
        else mkFilterResult true (Spec.tagTokens rt post) None),
     tick w)
  else (Returned (reject (TargetHashtagMissing configTargetHashtag)), w).
Proof.
  unfold Filters.filterPost, Spec.tagTokens.
  destruct (includes _ _); simpl; [|reflexivity].
  unfold bind, ret, Filters.filterByAge, Date_now, bind.
  destruct (Filters.tooOld rt (clock w (ticks w)) post 24); simpl;
    destruct (shouldSync (Filters.filterByMediaType post)); simpl;
    try reflexivity;
    destruct (shouldSync (Filters.filterByContent rt post)); reflexivity.
Qed.

Lemma filterPost_returns (self : Filters.PostFilter) (post : InstagramPost)
    (w : World) :
  exists v, Spec.verdict rt configTargetHashtag self post w = Returned v.
Proof.
  unfold Spec.verdict. rewrite filterPost_run.
  destruct (includes _ _); simpl; eauto.
Qed.


End FilterFacts.

Section FilterClaims.

Variable rt : Runtime.
Variable configTargetHashtag : jsstring.



(** C4, as amended.  No evaluation time is handed to [filterPost]: it
    reads the clock of the system itself, at most once.  The verdict
    depends on the world through that reading only: in two worlds that
    agree on it, the same candidate gets the same verdict (flag, matched
    tags and reason).  An evaluation returns, and leaves the world as it
    was but for the reading it consumed. *)
Theorem verdict_deterministic (self : Filters.PostFilter)
    (post : InstagramPost) (w1 w2 : World) :
  clock w1 (ticks w1) = clock w2 (ticks w2) ->
  Spec.verdict rt configTargetHashtag self post w1
  = Spec.verdict rt configTargetHashtag self post w2
  /\ (exists v, Spec.verdict rt configTargetHashtag self post w1 = Returned v)
  /\ (snd (Filters.filterPost rt configTargetHashtag self post w1) = w1
      \/ snd (Filters.filterPost rt configTargetHashtag self post w1) = tick w1).
Proof.
  intros Hclock. unfold Spec.verdict. rewrite !filterPost_run, Hclock.
  destruct (includes _ _); simpl; eauto.
Qed.

End FilterClaims.

(** The candidate of the specification's scenario is eligible, and its two
    tags are the evidence. *)
Example menu_eligible :
  Spec.verdict Node.runtime (lit "#MEO") Sample.postFilter Sample.menu
    Sample.world
  = Returned (mkFilterResult true [lit "#MEO"; lit "#food"] None).
Proof. vm_compute. reflexivity. Qed.

Example video_ineligible :
  Spec.verdict Node.runtime (lit "#MEO") Sample.postFilter Sample.video
    Sample.world
  = Returned (reject (MediaTypeUnsupported VIDEO)).
Proof. vm_compute. reflexivity. Qed.



(** C4 as stated fails: the evaluation time is not an input of the
    filter.  Two evaluations of one candidate by one filter, the second in
    the world that the first has left, give two verdicts when the clock of
    the system has moved on by two days in between: eligible, then too
    old. *)
Lemma hidden_clock_counterexample :
  let evaluate :=
    Filters.filterPost Node.runtime (lit "#MEO") Sample.postFilter
      Sample.menu in
  let first := evaluate Sample.worldDays in
  let second := evaluate (snd first) in
  fst first = Returned (mkFilterResult true [lit "#MEO"; lit "#food"] None)
  /\ fst second = Returned (reject (PostTooOld 176400000 24))
  /\ fst first <> fst second
  /\ ticks (snd first) = S (ticks Sample.worldDays).
Proof.
  vm_compute. repeat split. discriminate.
Qed.

Lemma verdict_deterministic_witness :
  clock Sample.world (ticks Sample.world)
  = clock Sample.worldOffline (ticks Sample.worldOffline)
  /\ Spec.verdict Node.runtime (lit "#MEO") Sample.postFilter Sample.menu
       Sample.world
     = Spec.verdict Node.runtime (lit "#MEO") Sample.postFilter Sample.menu
         Sample.worldOffline.
Proof.
  split; [reflexivity|].
  apply (verdict_deterministic Node.runtime (lit "#MEO") Sample.postFilter
           Sample.menu Sample.world Sample.worldOffline).
  reflexivity.
Defined.

(** ** The listing request *)

Section ListingRequest.

Variable rt : Runtime.

Lemma truncate1500_length (s : jsstring) :
  (List.length (Spec.truncate1500 s) <= 1500)%nat.
Proof.
  unfold Spec.truncate1500.
  destruct (Nat.ltb_spec 1500 (List.length s)) as [long|short]; [|assumption].
  rewrite length_app, firstn_length_le by lia. simpl. lia.
Qed.

Lemma fallbackIfShort_length (s : jsstring) :
  (List.length s <= 1500)%nat ->
  (10 <= List.length (Spec.fallbackIfShort s) <= 1500)%nat.
Proof.
  unfold Spec.fallbackIfShort. intros H.
  destruct (Nat.ltb_spec (List.length s) 10) as [short|long].
  - simpl. lia.
  - lia.
Qed.

Lemma convert_summary (post : InstagramPost) :
  summary (Gbp.convertInstagramToGBPPost rt post)
  = Spec.summaryAsAmended rt post.
Proof.
  unfold Gbp.convertInstagramToGBPPost, Spec.summaryAsAmended,
    Spec.fallbackIfShort, Spec.truncate1500, Spec.captionOrDefault,
    substring0, Gbp.ellipsis, orDefault, truthy.
  destruct (media_url post) as [[|u us]|];
    destruct (caption post) as [[|c cs]|];
    try destruct (MediaType_eqb (media_type post) IMAGE);
    reflexivity.
Qed.

Lemma convert_media (post : InstagramPost) :
  media (Gbp.convertInstagramToGBPPost rt post)
  = match media_url post with
    | Some (c :: u) =>
        if MediaType_eqb (media_type post) IMAGE
        then Some [mkMediaItem PHOTO (c :: u)]
        else None
    | _ => None
    end.
Proof.
  unfold Gbp.convertInstagramToGBPPost.
  destruct (media_url post) as [[|u us]|]; try reflexivity.
  destruct (MediaType_eqb (media_type post) IMAGE); reflexivity.
Qed.

(** C2, as amended.  The summary of the request is the caption (or the
    default string when there is none), with its tags stripped and the white
    space around the rest trimmed, truncated with an ellipsis beyond 1500
    characters, and replaced by the fallback sentence when fewer than 10
    characters are left; it has between 10 and 1500 characters.  Media is
    attached exactly when the candidate is a single image with a media URL,
    and is then that URL as one photo. *)
Theorem listing_request_construction (post : InstagramPost) :
  summary (Gbp.convertInstagramToGBPPost rt post)
  = Spec.summaryAsAmended rt post
  /\ (10 <= List.length (summary (Gbp.convertInstagramToGBPPost rt post))
      <= 1500)%nat
  /\ (media (Gbp.convertInstagramToGBPPost rt post) <> None
      <-> Spec.singleImageWithUrl post)
  /\ (forall m, media (Gbp.convertInstagramToGBPPost rt post) = Some m ->
        exists u, media_url post = Some u /\ m = [mkMediaItem PHOTO u]).
Proof.
  split; [apply convert_summary|]. split.
  { rewrite convert_summary. unfold Spec.summaryAsAmended.
    apply fallbackIfShort_length, truncate1500_length. }
  rewrite convert_media. unfold Spec.singleImageWithUrl, truthy.
  destruct (media_url post) as [[|c u]|]; simpl.
  - split; [split|]; [congruence | intros [_ F]; discriminate | discriminate].
  - destruct (media_type post); simpl.
    + split; [split; [auto | discriminate]|].
      intros m [= <-]. eauto.
    + split; [split; [congruence | intros [E _]; discriminate]|discriminate].
    + split; [split; [congruence | intros [E _]; discriminate]|discriminate].
  - split; [split|]; [congruence | intros [_ F]; discriminate | discriminate].
Qed.

End ListingRequest.

(** C2 as stated fails for want of the trimming: of the caption
    ["Open late #MEO"] the stripped text ["Open late "] has 10 characters
    and would be kept, while the code trims it to 9 and sends the fallback
    sentence. *)
Lemma summary_trim_counterexample :
  let post := Sample.post "Open late #MEO" IMAGE in
  Spec.summaryAsSpecified Node.runtime post = lit "Open late "
  /\ summary (Gbp.convertInstagramToGBPPost Node.runtime post)
     = Gbp.fallbackSummary
  /\ summary (Gbp.convertInstagramToGBPPost Node.runtime post)
     <> Spec.summaryAsSpecified Node.runtime post.
Proof.
  vm_compute. repeat split. discriminate.
Qed.

Example menu_summary :
  summary (Gbp.convertInstagramToGBPPost Node.runtime Sample.menu)
  = lit "Our new lunch menu is here!".
Proof. vm_compute. reflexivity. Qed.

(** ** The credential *)


Lemma sameLedger_trans (w1 w2 w3 : World) :
  Spec.sameLedger w1 w2 -> Spec.sameLedger w2 w3 -> Spec.sameLedger w1 w3.
Proof. unfold Spec.sameLedger. intuition congruence. Qed.

Lemma refreshAccessToken_run (w : World) :
  Gbp.refreshAccessToken w =
  match tokenEndpoint w (refreshRequests w) with
  | Resolved response =>
      (Returned (access_token response),
       setTokenExpiresAt (clock w (ticks w) + expires_in response * 1000)
         (tick (setAccessToken (Some (access_token response))
                  (countRefresh w))))
  | Rejected axiosError =>
      (Thrown (mkError (Gbp.tokenRefreshFailed ++ message axiosError) None),
       countRefresh w)
  end.
Proof.
  unfold Gbp.refreshAccessToken, tryCatch, bind, Gbp.axios_post_refreshToken.
  destruct (tokenEndpoint w (refreshRequests w)); reflexivity.
Qed.

Lemma mustRefresh_run (w : World) :
  Gbp.mustRefresh w =
  (Returned (Spec.tokenStale w), if truthy (accessToken w) then tick w else w).
Proof.
  unfold Gbp.mustRefresh, Spec.tokenStale, bind, gets, ret, Date_now.
  destruct (truthy (accessToken w)); simpl; [|reflexivity].
  now rewrite Z.geb_leb.
Qed.

Lemma getValidAccessToken_run (w : World) :
  Gbp.getValidAccessToken w =
  let w1 := if truthy (accessToken w) then tick w else w in
  if Spec.tokenStale w then
    match Gbp.refreshAccessToken w1 with
    | (Returned _, w2) => (Returned (accessToken w2), w2)
    | (Thrown e, w2) => (Thrown e, w2)
    end
  else (Returned (accessToken w), w1).
Proof.
  unfold Gbp.getValidAccessToken, bind. rewrite mustRefresh_run.
  destruct (Spec.tokenStale w); simpl.
  - destruct (Gbp.refreshAccessToken _) as [[t|e] w2]; reflexivity.
  - destruct (truthy (accessToken w)); reflexivity.
Qed.

(** C5.  [getValidAccessToken] sends a refresh request, one, exactly when
    no token is held or the expiry less 60 seconds is at or before the
    current time.  A token with more validity left is returned as it is,
    the credential untouched; otherwise what is returned is the token of
    the response, or the refresh error. *)
Theorem refresh_iff_stale (w : World) :
  let result := fst (Gbp.getValidAccessToken w) in
  let w' := snd (Gbp.getValidAccessToken w) in
  (refreshRequests w' = S (refreshRequests w) <-> Spec.tokenStale w = true)
  /\ (refreshRequests w' = refreshRequests w <-> Spec.tokenStale w = false)
  /\ (Spec.tokenStale w = false ->
      result = Returned (accessToken w)
      /\ accessToken w' = accessToken w
      /\ tokenExpiresAt w' = tokenExpiresAt w)
  /\ (Spec.tokenStale w = true ->
      match tokenEndpoint w (refreshRequests w) with
      | Resolved response =>
          result = Returned (Some (access_token response))
          /\ accessToken w' = Some (access_token response)
      | Rejected axiosError =>
          result = Thrown (mkError (Gbp.tokenRefreshFailed
                                      ++ message axiosError) None)
          /\ accessToken w' = accessToken w
          /\ tokenExpiresAt w' = tokenExpiresAt w
      end).
Proof.
  cbv zeta. rewrite getValidAccessToken_run. cbv zeta.
  destruct (Spec.tokenStale w) eqn:Stale.
  - rewrite refreshAccessToken_run.
    assert (E : tokenEndpoint (if truthy (accessToken w) then tick w else w)
                  (refreshRequests (if truthy (accessToken w) then tick w else w))
                = tokenEndpoint w (refreshRequests w))
      by (destruct (truthy (accessToken w)); reflexivity).
    rewrite E.
    destruct (tokenEndpoint w (refreshRequests w)) as [response|axiosError];
      destruct (truthy (accessToken w)); simpl;
      repeat split; intros; try reflexivity; try discriminate; try lia.
  - destruct (truthy (accessToken w)); simpl;
      repeat split; intros; try reflexivity; try discriminate; try lia.
Qed.

Example fresh_token_is_kept :
  Gbp.getValidAccessToken Sample.worldWithToken
  = (Returned (Some (lit "held-token")), tick Sample.worldWithToken).
Proof. reflexivity. Qed.

Example absent_token_is_refreshed :
  fst (Gbp.getValidAccessToken Sample.world) = Returned (Some (lit "new-token"))
  /\ refreshRequests (snd (Gbp.getValidAccessToken Sample.world)) = 1%nat
  /\ tokenExpiresAt (snd (Gbp.getValidAccessToken Sample.world))
     = Sample.noon + 3600000.
Proof. repeat split. Qed.

(** ** One post through the pipeline *)

Section Pipeline.

Variable rt : Runtime.
Variable configTargetHashtag : jsstring.
Variable postFilter : Filters.PostFilter.

Lemma filterPost_sameLedger (post : InstagramPost) (w : World) :
  Spec.sameLedger w
    (snd (Filters.filterPost rt configTargetHashtag postFilter post w)).
Proof.
  rewrite filterPost_run. destruct (includes _ _); repeat split.
Qed.

Lemma getValidAccessToken_sameLedger (w : World) :
  Spec.sameLedger w (snd (Gbp.getValidAccessToken w)).
Proof.
  rewrite getValidAccessToken_run. cbv zeta.
  destruct (Spec.tokenStale w).
  - rewrite refreshAccessToken_run.
    destruct (tokenEndpoint _ _); destruct (truthy (accessToken w));
      repeat split.
  - destruct (truthy (accessToken w)); repeat split.
Qed.

Lemma createLocalPost_sameLedger (post : InstagramPost) (w : World) :
  Spec.sameLedger w (snd (Gbp.createLocalPost rt post w)).
Proof.
  unfold Gbp.createLocalPost, tryCatch, bind.
  pose proof (getValidAccessToken_sameLedger w) as F.
  destruct (Gbp.getValidAccessToken w) as [[token|e] w1]; simpl in F |- *.
  - unfold Gbp.axios_post_createPost.
    destruct (postEndpoint w1 _); simpl;
      (eapply sameLedger_trans; [exact F | repeat split]).
  - exact F.
Qed.

Lemma logSync_run (r : SyncLog) (w : World) :
  Logger.logSync r w =
  (Returned tt,
   match fsFault w (fsOps w) with
   | None => setSyncLogFile (Spec.appended r (syncLogFile w))
               (countFsOp (recordLogSync r w))
   | Some _ => countFsOp (recordLogSync r w)
   end).
Proof.
  unfold Logger.logSync, tryCatch, bind, modify, fs_appendFile, bind, fsOp,
    gets, modify. simpl.
  destruct (fsFault w (fsOps w)); reflexivity.
Qed.

(** What [logSync] leaves: one more call on record and, unless the write
    failed, one more line in the file. *)
Lemma logSync_effect (r : SyncLog) (w0 w : World) :
  Spec.sameLedger w0 w ->
  let w' := snd (Logger.logSync r w) in
  fst (Logger.logSync r w) = Returned tt
  /\ logSyncCalls w' = logSyncCalls w0 ++ [r]
  /\ syncLogFile w' = match fsFault w0 (fsOps w0) with
                      | None => Spec.appended r (syncLogFile w0)
                      | Some _ => syncLogFile w0
                      end.
Proof.
  intros (C & F & O & S). rewrite logSync_run. simpl.
  rewrite F, O. destruct (fsFault w0 (fsOps w0)); simpl;
    rewrite ?C, ?S; auto.
Qed.

(** C1.  Processing one candidate returns normally and hands exactly one
    Sync Record to the ledger.  Its status is [skipped] when the verdict of
    the filter is ineligible, [success] (with the listing id) when the
    publication returns one, [failed] (with the message) when the
    publication raises.  The record becomes one new line of the file; a
    failed write is swallowed and leaves the file as it was. *)
Theorem one_record_per_candidate (post : InstagramPost) (w : World) :
  let w' := snd (Server.processSinglePost rt configTargetHashtag postFilter
                   post w) in
  let filtered := Filters.filterPost rt configTargetHashtag postFilter post
                    (tick (tick w)) in
  let published := fst (Gbp.createLocalPost rt post (snd filtered)) in
  fst (Server.processSinglePost rt configTargetHashtag postFilter post w)
  = Returned tt
  /\ exists r v,
       logSyncCalls w' = logSyncCalls w ++ [r]
       /\ SyncLog.instagramPostId r = id post
       /\ fst filtered = Returned v
       /\ (shouldSync v = false -> SyncLog.status r = skipped)
       /\ (shouldSync v = true ->
           match published with
           | Returned listing =>
               SyncLog.status r = success /\ SyncLog.gbpPostId r = Some listing
           | Thrown e => SyncLog.status r = failed /\ SyncLog.error r = Some (message e)
           end)
       /\ syncLogFile w' = match fsFault w (fsOps w) with
                           | None => Spec.appended r (syncLogFile w)
                           | Some _ => syncLogFile w
                           end.
Proof.
  cbv zeta.
  assert (F0 : Spec.sameLedger w (tick (tick w))) by repeat split.
  pose proof (filterPost_sameLedger post (tick (tick w))) as F1.
  destruct (filterPost_returns rt configTargetHashtag postFilter post
              (tick (tick w))) as [v Hv].
  unfold Spec.verdict in Hv.
  destruct (Server.processSinglePost rt configTargetHashtag postFilter post w)
    as [out wfin] eqn:Run.
  simpl fst; simpl snd. revert Run.
  unfold Server.processSinglePost, bind at 1 2, Date_now at 1 2, tryCatch.
  unfold bind at 1.
  destruct (Filters.filterPost rt configTargetHashtag postFilter post
              (tick (tick w))) as [o w2].
  simpl in Hv, F1 |- *. subst o.
  pose proof (sameLedger_trans _ _ _ F0 F1) as F2.
  pose proof (createLocalPost_sameLedger post w2) as F3.
  destruct (shouldSync v) eqn:Sync; simpl;
    [unfold bind at 1;
     destruct (Gbp.createLocalPost rt post w2) as [[listing|e] w3];
     simpl in F3 |- *|];
    unfold bind at 1 2, Date_now at 1 2;
    match goal with
    | |- context [Logger.logSync ?r ?wx] =>
        assert (F4 : Spec.sameLedger w wx)
          by (first
                [ solve [eapply sameLedger_trans; [exact F2 | repeat split]]
                | solve [eapply sameLedger_trans; [exact F2|];
                         eapply sameLedger_trans; [exact F3 | repeat split]] ]);
        destruct (logSync_effect r w wx F4) as (R & C & S);
        destruct (Logger.logSync r wx) as [o wz]; simpl in R, C, S |- *;
        subst o; intros [= <- <-]; split; [reflexivity|];
        exists r, v
    end;
    repeat split; auto; intros; try congruence; simpl; auto.
Qed.

End Pipeline.

(** ** The ledger *)

Section Ledger.

Variable rt : Runtime.

(** *** Slices *)

Lemma firstn_min_length {A} (n : nat) (l : list A) :
  firstn (Nat.min n (List.length l)) l = firstn n l.
Proof. now rewrite <- firstn_firstn, firstn_all. Qed.

Lemma slice_page {A} (limit offset : Z) (l : list A) :
  0 <= offset -> 0 <= limit ->
  Logger.slice offset (offset + limit) l
  = firstn (Z.to_nat limit) (skipn (Z.to_nat offset) l).
Proof.
  intros Ho Hl. unfold Logger.slice, Logger.relativeIndex.
  destruct (Z.ltb_spec offset 0) as [|_]; [lia|].
  destruct (Z.ltb_spec (offset + limit) 0) as [|_]; [lia|].
  rewrite Z2Nat.inj_add by assumption.
  destruct (Nat.le_gt_cases (List.length l) (Z.to_nat offset)) as [far|near].
  - rewrite !Nat.min_r by lia.
    rewrite !skipn_all2 by lia. now rewrite !firstn_nil.
  - rewrite (Nat.min_l (Z.to_nat offset)) by lia.
    rewrite <- (firstn_min_length (Z.to_nat limit)), length_skipn.
    f_equal. lia.
Qed.

Lemma firstn_add {A} (a b : nat) (l : list A) :
  firstn (a + b) l = firstn a l ++ firstn b (skipn a l).
Proof.
  revert l. induction a as [|a IH]; intros [|x l]; simpl;
    rewrite ?firstn_nil; try reflexivity.
  now rewrite IH.
Qed.

Lemma pages_concat {A} (L : nat) (l : list A) (n k : nat) :
  concat (map (fun i => firstn L (skipn (i * L) l)) (seq k n))
  = firstn (n * L) (skipn (k * L) l).
Proof.
  revert k. induction n as [|n IH]; intros k; simpl; [reflexivity|].
  rewrite IH, firstn_add, skipn_skipn. reflexivity.
Qed.

(** *** The sort *)

Lemma insertLog_perm (x : SyncLog) (l : list SyncLog) :
  Permutation (x :: l) (Logger.insertLog rt x l).
Proof.
  induction l as [|y l IH]; simpl; [reflexivity|].
  destruct (Logger.compareLogs rt x y <=? 0); [reflexivity|].
  rewrite perm_swap. now apply perm_skip.
Qed.

Lemma sortLogs_perm (l : list SyncLog) :
  Permutation l (Logger.sortLogs rt l).
Proof.
  induction l as [|x l IH]; simpl; [reflexivity|].
  rewrite <- insertLog_perm. now apply perm_skip.
Qed.

Lemma sortLogs_length (l : list SyncLog) :
  List.length (Logger.sortLogs rt l) = List.length l.
Proof. symmetry. apply Permutation_length, sortLogs_perm. Qed.

Lemma notOlder_trans (a b c : SyncLog) :
  Spec.notOlder rt a b -> Spec.notOlder rt b c -> Spec.notOlder rt a c.
Proof.
  intros (ta & tb & Ea & Eb & L1) (tb' & tc & Eb' & Ec & L2).
  exists ta, tc. repeat split; try assumption.
  assert (tb = tb') by congruence. lia.
Qed.

Lemma insertLog_sorted (x : SyncLog) (l : list SyncLog) :
  Spec.timeOf rt x <> None ->
  Forall (fun r => Spec.timeOf rt r <> None) l ->
  StronglySorted (Spec.notOlder rt) l ->
  StronglySorted (Spec.notOlder rt) (Logger.insertLog rt x l).
Proof.
  intros Hx Hl Hs. induction Hs as [|y l Hs IH Hy]; simpl.
  - repeat constructor.
  - inversion Hl as [|? ? Ty Tl]; subst.
    destruct (Spec.timeOf rt x) as [tx|] eqn:Ex; [|congruence].
    destruct (Spec.timeOf rt y) as [ty|] eqn:Ey; [|congruence].
    unfold Logger.compareLogs. unfold Spec.timeOf in Ex, Ey. rewrite Ex, Ey.
    assert (XY : ty - tx <= 0 -> Spec.notOlder rt x y).
    { intros. exists tx, ty. unfold Spec.timeOf. repeat split; auto. lia. }
    assert (YX : 0 < ty - tx -> Spec.notOlder rt y x).
    { intros. exists ty, tx. unfold Spec.timeOf. repeat split; auto. lia. }
    destruct (Z.leb_spec (ty - tx) 0) as [le|gt].
    + constructor; [constructor; assumption|].
      constructor; [auto|].
      eapply Forall_impl; [|exact Hy].
      intros r Hr. eapply notOlder_trans; eauto.
    + constructor; [auto|].
      eapply Permutation_Forall; [apply insertLog_perm|].
      constructor; auto.
Qed.

Lemma sortLogs_sorted (l : list SyncLog) :
  Forall (fun r => Spec.timeOf rt r <> None) l ->
  StronglySorted (Spec.notOlder rt) (Logger.sortLogs rt l).
Proof.
  induction 1 as [|x l Hx Hl IH]; simpl; [constructor|].
  apply insertLog_sorted; auto.
  eapply Permutation_Forall; [apply sortLogs_perm | assumption].
Qed.

(** With instants that are all different the order is strict. *)
Lemma sorted_strict (l : list SyncLog) :
  NoDup (map (Spec.timeOf rt) l) ->
  StronglySorted (Spec.notOlder rt) l ->
  StronglySorted (Spec.newer rt) l.
Proof.
  intros ND Hs. induction Hs as [|x l Hs IH Hx]; [constructor|].
  simpl in ND. inversion ND as [|? ? Nin ND']; subst.
  constructor; [auto|].
  rewrite Forall_forall in Hx |- *. intros r Hr.
  destruct (Hx r Hr) as (tx & tr & Ex & Er & L).
  exists tx, tr. repeat split; auto.
  assert (tx <> tr); [|lia].
  intros ->. apply Nin. rewrite Ex, <- Er. now apply in_map.
Qed.

Lemma sortLogs_strict (l : list SyncLog) :
  Spec.distinctTimes rt l ->
  StronglySorted (Spec.newer rt) (Logger.sortLogs rt l).
Proof.
  intros [Valid ND]. apply sorted_strict.
  - eapply Permutation_NoDup; [|exact ND].
    apply Permutation_map, sortLogs_perm.
  - now apply sortLogs_sorted.
Qed.

Lemma StronglySorted_app_inv {A} (R : A -> A -> Prop) (l1 l2 : list A) :
  StronglySorted R (l1 ++ l2) -> StronglySorted R l1 /\ StronglySorted R l2.
Proof.
  induction l1 as [|x l1 IH]; simpl; intros H.
  - split; [constructor | assumption].
  - inversion H as [|? ? Hs Hx]; subst. destruct (IH Hs) as [S1 S2].
    split; [|assumption]. constructor; [assumption|].
    apply Forall_app in Hx. tauto.
Qed.

Lemma StronglySorted_page {A} (R : A -> A -> Prop) (n k : nat) (l : list A) :
  StronglySorted R l -> StronglySorted R (firstn n (skipn k l)).
Proof.
  intros H. rewrite <- (firstn_skipn k l) in H.
  apply StronglySorted_app_inv in H as [_ H].
  rewrite <- (firstn_skipn n (skipn k l)) in H.
  now apply StronglySorted_app_inv in H as [H _].
Qed.

(** *** Reading *)

Lemma getSyncLogs_run (limit offset : Z) (w : World) :
  Logger.getSyncLogs rt limit offset w =
  match fsFault w (fsOps w) with
  | Some e => (if Spec.isENOENT e then Returned [] else Thrown e, countFsOp w)
  | None =>
      match syncLogFile w with
      | None => (Returned [], countFsOp w)
      | Some lines =>
          match fsFault w (S (fsOps w)) with
          | Some e => (if Spec.isENOENT e then Returned [] else Thrown e,
                       countFsOp (countFsOp w))
          | None =>
              (Returned (Logger.slice offset (offset + limit)
                           (Logger.sortLogs rt (Logger.decoded lines))),
               countFsOp (countFsOp w))
          end
      end
  end.
Proof.
  unfold Logger.getSyncLogs, tryCatch, bind, fs_access, fs_readFile, bind,
    fsOp, gets, ret, throw, Spec.isENOENT.
  destruct (fsFault w (fsOps w)) as [e|] eqn:F1; simpl.
  - destruct (code e) as [c|]; [destruct (JS.eqb c _)|]; reflexivity.
  - destruct (syncLogFile w) as [lines|] eqn:File; simpl; [|reflexivity].
    destruct (fsFault w (S (fsOps w))) as [e|]; simpl;
      rewrite ?File; simpl; [|reflexivity].
    destruct (code e) as [c|]; [destruct (JS.eqb c _)|]; reflexivity.
Qed.

(** The two filters around [JSON.parse] keep the records written on the
    lines, all of them and in their order. *)
Lemma decoded_written (lines : list Line) :
  Logger.decoded lines = Spec.written lines.
Proof.
  unfold Spec.written.
  induction lines as [|[r|] lines IH]; simpl; [reflexivity | now f_equal | assumption].
Qed.

Lemma getSyncLogs_readable (limit offset : Z) (w : World) (lines : list Line) :
  Spec.readable w lines ->
  Logger.getSyncLogs rt limit offset w
  = (Returned (Logger.slice offset (offset + limit)
                 (Logger.sortLogs rt (Logger.decoded lines))),
     countFsOp (countFsOp w)).
Proof.
  intros [File Quiet]. rewrite getSyncLogs_run, File, !Quiet. reflexivity.
Qed.

Lemma readable_countFsOp (w : World) (lines : list Line) :
  Spec.readable w lines -> Spec.readable (countFsOp w) lines.
Proof. intros [File Quiet]. split; assumption. Qed.

Lemma readPagesFrom_run (limit : Z) (lines : list Line) (n k : nat) (w : World) :
  0 < limit -> Spec.readable w lines ->
  fst (Spec.readPagesFrom rt limit k n w)
  = Returned
      (map (fun i => firstn (Z.to_nat limit)
                       (skipn (i * Z.to_nat limit)
                          (Logger.sortLogs rt (Logger.decoded lines))))
         (seq k n)).
Proof.
  intros Pos. revert k w. induction n as [|n IH]; intros k w R; simpl.
  - reflexivity.
  - unfold bind at 1. rewrite (getSyncLogs_readable _ _ _ _ R).
    unfold bind at 1.
    specialize (IH (S k) (countFsOp (countFsOp w))
                  (readable_countFsOp _ _ (readable_countFsOp _ _ R))).
    destruct (Spec.readPagesFrom rt limit (S k) n _) as [out w'].
    simpl in IH. subst out. simpl. unfold ret. simpl.
    rewrite slice_page by lia.
    repeat f_equal. rewrite Z2Nat.inj_mul by lia. now rewrite Nat2Z.id.
Qed.

(** C6.  The records stored are the ones written on the lines of the
    file.  When their timestamps are all different, the ledger read in
    pages is the sorted ledger cut at the page boundaries: the sort orders
    the whole stored record set from the most recent to the oldest,
    strictly, and neither loses nor repeats a record; a page is a run of
    [limit] records of that sequence, itself in strictly descending order;
    and the pages read one after the other, put end to end, give back the
    whole sequence. *)
Theorem pagination_after_sorting (lines : list Line) (limit : Z) :
  0 < limit ->
  Spec.distinctTimes rt (Spec.written lines) ->
  let sorted := Logger.sortLogs rt (Spec.written lines) in
  StronglySorted (Spec.newer rt) sorted
  /\ Permutation (Spec.written lines) sorted
  /\ (forall w offset,
        Spec.readable w lines -> 0 <= offset ->
        exists page,
          fst (Logger.getSyncLogs rt limit offset w) = Returned page
          /\ page = firstn (Z.to_nat limit) (skipn (Z.to_nat offset) sorted)
          /\ StronglySorted (Spec.newer rt) page)
  /\ (forall w n,
        Spec.readable w lines ->
        (List.length (Spec.written lines) <= n * Z.to_nat limit)%nat ->
        exists pages,
          fst (Spec.readPagesFrom rt limit 0 n w) = Returned pages
          /\ List.length pages = n
          /\ concat pages = sorted).
Proof.
  intros Pos Distinct sorted.
  pose proof (sortLogs_strict _ Distinct) as Strict.
  repeat split.
  - exact Strict.
  - apply sortLogs_perm.
  - intros w offset R Off. eexists. split; [|split].
    + rewrite (getSyncLogs_readable _ _ _ _ R), decoded_written. reflexivity.
    + apply slice_page; lia.
    + rewrite slice_page by lia. now apply StronglySorted_page.
  - intros w n R Enough. eexists. split; [|split].
    + rewrite (readPagesFrom_run limit lines n 0 w Pos R), decoded_written.
      reflexivity.
    + now rewrite length_map, length_seq.
    + rewrite pages_concat. simpl.
      apply firstn_all2. unfold sorted. now rewrite sortLogs_length.
Qed.

(** *** Statistics *)

Lemma countStatus_perm (st : SyncStatus) (l l' : list SyncLog) :
  Permutation l l' -> Logger.countStatus st l = Logger.countStatus st l'.
Proof.
  unfold Logger.countStatus.
  induction 1 as [|x l l' _ IH|x y l|l1 l2 l3 _ IH1 _ IH2]; simpl.
  - reflexivity.
  - destruct (SyncStatus_eqb (SyncLog.status x) st); simpl; now rewrite IH.
  - destruct (SyncStatus_eqb (SyncLog.status x) st), (SyncStatus_eqb (SyncLog.status y) st);
      reflexivity.
  - now rewrite IH1.
Qed.

(** The statistics that a scan of [logs] gives. *)
Lemma getSyncLogStats_run (w : World) :
  Logger.getSyncLogStats rt w =
  match Logger.getSyncLogs rt 1000 0 w with
  | (Returned logs, w') =>
      (Returned (Logger.Stats.mk (List.length logs)
                   (Logger.countStatus success logs)
                   (Logger.countStatus failed logs)
                   (Logger.countStatus skipped logs)
                   (match logs with
                    | first :: _ => Some (SyncLog.timestamp first)
                    | [] => None
                    end)), w')
  | (Thrown _, w') => (Returned (Logger.Stats.mk 0 0 0 0 None), w')
  end.
Proof.
  unfold Logger.getSyncLogStats, tryCatch, bind.
  destruct (Logger.getSyncLogs rt 1000 0 w) as [[logs|e] w']; reflexivity.
Qed.


Lemma stats_total (w : World) (lines : list Line) :
  Spec.readable w lines ->
  exists st,
    fst (Logger.getSyncLogStats rt w) = Returned st
    /\ Logger.Stats.total st = Nat.min 1000 (List.length (Logger.decoded lines)).
Proof.
  intros R.
  rewrite getSyncLogStats_run, (getSyncLogs_readable _ _ _ _ R).
  rewrite slice_page by lia.
  eexists. split; [reflexivity|]. cbn [Logger.Stats.total].
  rewrite length_firstn, length_skipn, sortLogs_length.
  change (Z.to_nat 1000) with 1000%nat. change (Z.to_nat 0) with 0%nat.
  now rewrite Nat.sub_0_r.
Qed.

Lemma head_most_recent (x : SyncLog) (l records : list SyncLog) :
  StronglySorted (Spec.notOlder rt) (x :: l) ->
  Permutation records (x :: l) ->
  Spec.timeOf rt x <> None ->
  In x records /\ forall r, In r records -> Spec.notOlder rt x r.
Proof.
  intros Hs Hp Hx. split.
  - eapply Permutation_in; [symmetry; exact Hp | now left].
  - intros r Hr. apply (Permutation_in _ Hp) in Hr as [<-|Hr].
    + destruct (Spec.timeOf rt x) as [t|] eqn:E; [|congruence].
      exists t, t. repeat split; auto. lia.
    + inversion Hs as [|? ? _ Hall]; subst.
      rewrite Forall_forall in Hall. auto.
Qed.

Lemma countStatus_withStatus (st : SyncStatus) (l : list SyncLog) :
  Logger.countStatus st l = Spec.withStatus st l.
Proof.
  unfold Logger.countStatus, Spec.withStatus.
  induction l as [|x l IH]; simpl; [reflexivity|].
  destruct (Spec.status_eq_dec (SyncLog.status x) st) as [<-|ne].
  - replace (SyncStatus_eqb (SyncLog.status x) (SyncLog.status x)) with true
      by (now destruct (SyncLog.status x)).
    simpl. now rewrite IH.
  - replace (SyncStatus_eqb (SyncLog.status x) st) with false; [assumption|].
    destruct (SyncLog.status x), st; try reflexivity; congruence.
Qed.

Lemma withStatus_perm (st : SyncStatus) (l l' : list SyncLog) :
  Permutation l l' -> Spec.withStatus st l = Spec.withStatus st l'.
Proof.
  intros P. rewrite <- !countStatus_withStatus. now apply countStatus_perm.
Qed.

(** C7, as amended.  The records stored are the ones written on the lines
    of the file, and no counter is kept anywhere: the statistics are the
    figures of a scan of at most 1000 of them, the 1000 most recent ones
    when every timestamp parses.  For a ledger of at most 1000 records the
    total and the numbers of records of each status are those of the entire
    record set; and when every timestamp parses the timestamp reported is
    that of a most recent record. *)
Theorem stats_scan_recent_records (w : World) (lines : list Line) :
  Spec.readable w lines ->
  let records := Spec.written lines in
  exists st scanned rest,
    fst (Logger.getSyncLogStats rt w) = Returned st
    /\ Permutation records (scanned ++ rest)
    /\ List.length scanned = Nat.min 1000 (List.length records)
    /\ Logger.Stats.total st = List.length scanned
    /\ Logger.Stats.successful st = Spec.withStatus success scanned
    /\ Logger.Stats.failed st = Spec.withStatus failed scanned
    /\ Logger.Stats.skipped st = Spec.withStatus skipped scanned
    /\ Logger.Stats.lastSync st
       = option_map SyncLog.timestamp (hd_error scanned)
    /\ ((List.length records <= 1000)%nat ->
        Logger.Stats.total st = List.length records
        /\ Logger.Stats.successful st = Spec.withStatus success records
        /\ Logger.Stats.failed st = Spec.withStatus failed records
        /\ Logger.Stats.skipped st = Spec.withStatus skipped records
        /\ (Logger.Stats.lastSync st = None <-> records = []))
    /\ (Spec.parsed rt records ->
        StronglySorted (Spec.notOlder rt) (scanned ++ rest)
        /\ forall stamp, Logger.Stats.lastSync st = Some stamp ->
           exists r, In r records /\ SyncLog.timestamp r = stamp
                     /\ forall r', In r' records -> Spec.notOlder rt r r').
Proof.
  intros R records.
  rewrite getSyncLogStats_run, (getSyncLogs_readable _ _ _ _ R).
  rewrite decoded_written. fold records.
  rewrite slice_page by lia. cbn [skipn Z.to_nat].
  change (Pos.to_nat 1000) with 1000%nat.
  set (sorted := Logger.sortLogs rt records).
  pose proof (sortLogs_perm records) as Hp. fold sorted in Hp.
  pose proof (sortLogs_length records) as Hl. fold sorted in Hl.
  exists (Logger.Stats.mk
            (List.length (firstn 1000 sorted))
            (Logger.countStatus success (firstn 1000 sorted))
            (Logger.countStatus failed (firstn 1000 sorted))
            (Logger.countStatus skipped (firstn 1000 sorted))
            (match firstn 1000 sorted with
             | first :: _ => Some (SyncLog.timestamp first)
             | [] => None
             end)),
    (firstn 1000 sorted), (skipn 1000 sorted).
  rewrite firstn_skipn.
  cbn [Logger.Stats.total Logger.Stats.successful Logger.Stats.failed
         Logger.Stats.skipped Logger.Stats.lastSync fst].
  rewrite !countStatus_withStatus.
  split; [reflexivity|]. split; [exact Hp|].
  split; [rewrite length_firstn, Hl; reflexivity|].
  split; [reflexivity|]. split; [reflexivity|]. split; [reflexivity|].
  split; [reflexivity|].
  split; [destruct (firstn 1000 sorted); reflexivity|].
  split.
  - intros Small.
    rewrite firstn_all2 by (rewrite Hl; exact Small).
    split; [exact Hl|].
    split; [symmetry; now apply withStatus_perm|].
    split; [symmetry; now apply withStatus_perm|].
    split; [symmetry; now apply withStatus_perm|].
    destruct sorted as [|x l]; simpl in Hl |- *.
    + split; [intros _; now apply length_zero_iff_nil | reflexivity].
    + split; [discriminate|]. intros E. rewrite E in Hl. discriminate.
  - intros Valid.
    pose proof (sortLogs_sorted records Valid) as Hs. fold sorted in Hs.
    split; [exact Hs|].
    intros stamp Last.
    destruct sorted as [|x l]; [discriminate Last|].
    change (firstn 1000 (x :: l)) with (x :: firstn 999 l) in Last.
    injection Last as <-.
    assert (Hx : Spec.timeOf rt x <> None).
    { unfold Spec.parsed in Valid. rewrite Forall_forall in Valid.
      apply Valid.
      eapply Permutation_in; [symmetry; exact Hp | now left]. }
    destruct (head_most_recent x l records Hs Hp Hx) as [I M].
    exists x. auto.
Qed.


End Ledger.

Lemma ledger_readable (n : nat) :
  Spec.readable (Sample.worldWithLedger n) (Sample.ledger n).
Proof. split; reflexivity. Qed.

(** C7 as stated fails beyond 1000 records: of a ledger of 1001 records the
    statistics count 1000. *)
Lemma stats_capped_counterexample :
  List.length (Logger.decoded (Sample.ledger 1001)) = 1001%nat
  /\ exists st,
       fst (Logger.getSyncLogStats Node.runtime (Sample.worldWithLedger 1001))
       = Returned st
       /\ Logger.Stats.total st = 1000%nat
       /\ Logger.Stats.total st <> List.length (Logger.decoded (Sample.ledger 1001)).
Proof.
  assert (L : List.length (Logger.decoded (Sample.ledger 1001)) = 1001%nat)
    by (vm_compute; reflexivity).
  split; [exact L|].
  destruct (stats_total Node.runtime _ _ (ledger_readable 1001))
    as (st & R & T).
  rewrite L in T. change (Nat.min 1000 1001) with 1000%nat in T.
  exists st. repeat split; [exact R | exact T |].
  rewrite T, L. discriminate.
Qed.

Example stats_of_three :
  fst (Logger.getSyncLogStats Node.runtime (Sample.worldWithLedger 3))
  = Returned (Logger.Stats.mk 3 1 1 1 (Some (lit "2023-01-01T12:00:02.000Z"))).
Proof. vm_compute. reflexivity. Qed.

Example second_page_of_five :
  fst (Logger.getSyncLogs Node.runtime 2 2 (Sample.worldWithLedger 5))
  = Returned [Sample.record 2; Sample.record 1].
Proof. vm_compute. reflexivity. Qed.

Lemma ledger5_distinctTimes :
  Spec.distinctTimes Node.runtime (Spec.written (Sample.ledger 5)).
Proof.
  split.
  - repeat constructor; vm_compute; discriminate.
  - vm_compute. repeat constructor; simpl; intuition discriminate.
Qed.

Lemma pagination_after_sorting_witness :
  exists pages,
    fst (Spec.readPagesFrom Node.runtime 2 0 3 (Sample.worldWithLedger 5))
    = Returned pages
    /\ concat pages
       = [Sample.record 4; Sample.record 3; Sample.record 2; Sample.record 1;
          Sample.record 0].
Proof.
  destruct (pagination_after_sorting Node.runtime (Sample.ledger 5) 2)
    as (_ & _ & _ & Pages).
  - lia.
  - exact ledger5_distinctTimes.
  - destruct (Pages (Sample.worldWithLedger 5) 3%nat) as (pages & R & _ & C).
    + exact (ledger_readable 5).
    + vm_compute. lia.
    + exists pages. split; [assumption|]. rewrite C. vm_compute. reflexivity.
Defined.

Lemma stats_scan_recent_records_witness :
  exists st,
    fst (Logger.getSyncLogStats Node.runtime (Sample.worldWithLedger 3))
    = Returned st
    /\ Logger.Stats.total st = 3%nat
    /\ Logger.Stats.successful st = 1%nat.
Proof.
  destruct (stats_scan_recent_records Node.runtime (Sample.worldWithLedger 3)
              (Sample.ledger 3) (ledger_readable 3))
    as (st & scanned & rest & R & _ & _ & _ & _ & _ & _ & _ & Small & _).
  exists st. split; [exact R|].
  destruct Small as (T & S & _).
  - vm_compute. lia.
  - rewrite T, S. split; reflexivity.
Defined.


Example other_failures_propagate :
  fst (Logger.getSyncLogs Node.runtime 50 0 Sample.worldNoAccess)
  = Thrown Sample.eacces
  /\ fst (Logger.getSyncLogStats Node.runtime Sample.worldNoAccess)
     = Returned (Logger.Stats.mk 0 0 0 0 None).
Proof. split; reflexivity. Qed.

(** ** The signature of a webhook *)

Section Signature.

Variable rt : Runtime.
Variable appSecret : jsstring.

Lemma bytes_eqb_eq (a b : Crypto.bytes) : Crypto.bytes_eqb a b = true <-> a = b.
Proof.
  revert b. induction a as [|x a IH]; intros [|y b]; simpl;
    try (split; congruence).
  rewrite andb_true_iff, Z.eqb_eq, IH. split; [intros []|intros [=]]; subst; auto.
Qed.

Lemma sha256_length (msg : Crypto.bytes) :
  List.length (Crypto.sha256 msg) = 32%nat.
Proof. reflexivity. Qed.

Lemma digest_length (payload : jsstring) :
  List.length (Spec.digest appSecret payload) = 32%nat.
Proof. apply sha256_length. Qed.

Lemma wordBytes_bytes (n : nat) (x : Z) :
  Forall (fun b => 0 <= b < 256) (Crypto.wordBytes n x).
Proof.
  unfold Crypto.wordBytes. apply Forall_forall. intros b Hb.
  apply in_map_iff in Hb as (i & <- & _). apply Z.mod_pos_bound. lia.
Qed.

Lemma sha256_bytes (msg : Crypto.bytes) :
  Forall (fun b => 0 <= b < 256) (Crypto.sha256 msg).
Proof.
  unfold Crypto.sha256, Crypto.hashBytes.
  repeat (apply Forall_app; split); apply wordBytes_bytes.
Qed.

Lemma unhex_hexDigit (d : Z) :
  0 <= d < 16 -> Crypto.unhex rt (Crypto.hexDigit d) = Some d.
Proof.
  intros H. unfold Crypto.unhex, Crypto.hexDigit.
  destruct (Z.ltb_spec d 10).
  - replace ((48 <=? 48 + d) && (48 + d <=? 57)) with true
      by (symmetry; apply andb_true_iff; split; apply Z.leb_le; lia).
    f_equal. lia.
  - replace ((48 <=? 87 + d) && (87 + d <=? 57)) with false
      by (symmetry; apply andb_false_iff; right; apply Z.leb_gt; lia).
    replace ((97 <=? 87 + d) && (87 + d <=? 102)) with true
      by (symmetry; apply andb_true_iff; split; apply Z.leb_le; lia).
    f_equal. lia.
Qed.

(** What [digest('hex')] writes, [Buffer.from(_, 'hex')] reads back. *)
Lemma hexDecode_hexEncode (b : Crypto.bytes) :
  Forall (fun x => 0 <= x < 256) b ->
  Crypto.hexDecode rt (Crypto.hexEncode b) = b.
Proof.
  induction 1 as [|x b Hx _ IH]; [reflexivity|].
  cbn [Crypto.hexEncode Crypto.hexDecode].
  rewrite !unhex_hexDigit, IH.
  - f_equal. pose proof (Z.div_mod x 16 ltac:(lia)). lia.
  - apply Z.mod_pos_bound. lia.
  - split; [apply Z.div_pos; lia | apply Z.div_lt_upper_bound; lia].
Qed.

Lemma verifyWebhookSignature_run (payload signature : jsstring) (w : World) :
  Instagram.verifyWebhookSignature rt appSecret payload signature w =
  (Returned
     ((List.length (Spec.digest appSecret payload)
       =? List.length (Spec.decodedSignature rt signature))%nat
      && Crypto.bytes_eqb (Spec.digest appSecret payload)
           (Spec.decodedSignature rt signature)),
   w).
Proof.
  unfold Instagram.verifyWebhookSignature, tryCatch, bind,
    Crypto.timingSafeEqual, Crypto.hmacHex.
  rewrite hexDecode_hexEncode by apply sha256_bytes.
  fold (Spec.digest appSecret payload).
  fold (Spec.decodedSignature rt signature).
  destruct (_ =? _)%nat; reflexivity.
Qed.

(** C9, as amended.  Verification is total: on every payload and every
    signature it returns a boolean, raises nothing and changes nothing.  It
    answers true exactly when the bytes that the signature decodes to are
    the digest, hence false whenever their number differs from the 32 of
    the digest; what follows the decodable part of the signature is not
    looked at. *)
Theorem signature_verification_total (payload signature : jsstring)
    (w : World) :
  exists b,
    Instagram.verifyWebhookSignature rt appSecret payload signature w
    = (Returned b, w)
    /\ (b = true
        <-> Spec.decodedSignature rt signature = Spec.digest appSecret payload)
    /\ (List.length (Spec.decodedSignature rt signature) <> 32%nat ->
        b = false).
Proof.
  rewrite verifyWebhookSignature_run. eexists. split; [reflexivity|].
  rewrite digest_length. split.
  - rewrite andb_true_iff, bytes_eqb_eq, Nat.eqb_eq. split.
    + intros [_ E]. now symmetry.
    + intros E. rewrite E, digest_length. auto.
  - intros NE. apply andb_false_iff. left. apply Nat.eqb_neq. auto.
Qed.

End Signature.

Example signature_accepted :
  fst (Instagram.verifyWebhookSignature Node.runtime Sample.appSecret
         Sample.payload Sample.signature Sample.world)
  = Returned true.
Proof. vm_compute. reflexivity. Qed.

Example signature_rejected :
  fst (Instagram.verifyWebhookSignature Node.runtime Sample.appSecret
         Sample.payload (lit "sha256=invalid-signature") Sample.world)
  = Returned false.
Proof. vm_compute. reflexivity. Qed.

Example tampered_payload_rejected :
  fst (Instagram.verifyWebhookSignature Node.runtime Sample.appSecret
         (lit "test payloae") Sample.signature Sample.world)
  = Returned false.
Proof. vm_compute. reflexivity. Qed.

(** C9 as stated fails on one kind of malformed signature: the digest in
    hexadecimal followed by characters that are no digits is not well-formed
    hexadecimal, and is accepted. *)
Lemma trailing_garbage_counterexample :
  let signature := Sample.signature ++ lit "zz" in
  Spec.wellFormedHex (Instagram.removeFirst (lit "sha256=") signature) = false
  /\ fst (Instagram.verifyWebhookSignature Node.runtime Sample.appSecret
            Sample.payload signature Sample.world)
     = Returned true.
Proof. vm_compute. split; reflexivity. Qed.

(** ** Overlapping callers of getValidAccessToken *)

Section OverlappingCallers.

Lemma staleThroughout_stale (w : World) :
  Spec.staleThroughout w -> Spec.tokenStale w = true.
Proof.
  unfold Spec.staleThroughout, Spec.tokenStale. intros [None_|Late].
  - now rewrite None_.
  - apply orb_true_iff. right. apply Z.leb_le, Late.
Qed.

Lemma call_stale (w : World) :
  Spec.staleThroughout w ->
  Overlap.call w
  = (Overlap.Awaiting (refreshRequests w),
     countRefresh (if truthy (accessToken w) then tick w else w)).
Proof.
  intros St. unfold Overlap.call.
  rewrite mustRefresh_run, (staleThroughout_stale w St).
  destruct (truthy (accessToken w)); reflexivity.
Qed.

Lemma call_keeps_stale (w : World) :
  Spec.staleThroughout w -> Spec.staleThroughout (snd (Overlap.call w)).
Proof.
  intros St. rewrite (call_stale w St). unfold Spec.staleThroughout in *.
  destruct (truthy (accessToken w)) eqn:T; simpl; rewrite ?T; exact St.
Qed.

(** One caller alone: its parts, one after the other, are the
    [getValidAccessToken] of gbp.ts. *)
Lemma alone_sequential (w : World) :
  Overlap.alone w
  = (Overlap.Done (fst (Gbp.getValidAccessToken w)),
     snd (Gbp.getValidAccessToken w)).
Proof.
  unfold Overlap.alone, Overlap.call. rewrite mustRefresh_run, getValidAccessToken_run.
  cbv zeta. destruct (Spec.tokenStale w);
    [|destruct (truthy (accessToken w)); reflexivity].
  rewrite refreshAccessToken_run. unfold Overlap.resume.
  destruct (truthy (accessToken w)); simpl;
    destruct (tokenEndpoint w (refreshRequests w)); reflexivity.
Qed.

Lemma nth_error_middle {A} (pre rest : list A) (x : A) :
  nth_error (pre ++ x :: rest) (List.length pre) = Some x.
Proof. induction pre; simpl; auto. Qed.

Lemma setCaller_middle (pre rest : list Overlap.Caller) (x c : Overlap.Caller) :
  Overlap.setCaller (List.length pre) c (pre ++ x :: rest)
  = (pre ++ [c]) ++ rest.
Proof. induction pre as [|y pre IH]; simpl; [reflexivity | now rewrite IH]. Qed.

Lemma calls_do_not_coalesce (m : nat) (pre : list Overlap.Caller) (w : World) :
  Spec.staleThroughout w ->
  exists w',
    Overlap.run (map Overlap.Call (seq (List.length pre) m))
      (Overlap.mkSystem w (pre ++ repeat Overlap.Idle m))
    = Some (Overlap.mkSystem w'
              (pre ++ map (fun i => Overlap.Awaiting (refreshRequests w + i))
                        (seq 0 m)))
    /\ refreshRequests w' = (refreshRequests w + m)%nat.
Proof.
  revert pre w. induction m as [|m IH]; intros pre w St.
  - exists w. simpl. split; [reflexivity | lia].
  - cbn [seq map repeat Overlap.run Overlap.exec Overlap.callers Overlap.world].
    rewrite nth_error_middle.
    pose proof (call_keeps_stale w St) as St'.
    rewrite (call_stale w St) in St' |- *. cbn [snd] in St'.
    rewrite setCaller_middle.
    destruct (IH (pre ++ [Overlap.Awaiting (refreshRequests w)]) _ St')
      as (w' & Run & Count).
    rewrite length_app, Nat.add_1_r in Run.
    exists w'. split.
    + rewrite Run. f_equal. f_equal. rewrite <- app_assoc. f_equal.
      cbn [app]. rewrite Nat.add_0_r. f_equal.
      rewrite <- seq_shift, map_map.
      apply map_ext. intros i.
      destruct (truthy (accessToken w)); simpl; f_equal; lia.
    + rewrite Count. destruct (truthy (accessToken w)); simpl; lia.
Qed.

(** C8, as amended.  Nothing coalesces the callers: while the token is
    absent or within the margin, every caller that starts before a refresh
    has completed sends a refresh request of its own.  So [n] callers that
    overlap send exactly [n] requests, each awaiting its own response, and
    one caller alone exactly one. *)
Theorem overlapping_callers_each_refresh (n : nat) (w : World) :
  Spec.staleThroughout w ->
  exists s,
    Overlap.run (map Overlap.Call (seq 0 n)) (Overlap.start n w) = Some s
    /\ refreshRequests (Overlap.world s) = (refreshRequests w + n)%nat
    /\ Overlap.callers s
       = map (fun i => Overlap.Awaiting (refreshRequests w + i)) (seq 0 n).
Proof.
  intros St.
  destruct (calls_do_not_coalesce n [] w St) as (w' & Run & Count).
  eexists. split; [exact Run|]. split; [exact Count | reflexivity].
Qed.

End OverlappingCallers.

Lemma overlapping_callers_each_refresh_witness :
  exists s,
    Overlap.run [Overlap.Call 0; Overlap.Call 1; Overlap.Call 2]
      (Overlap.start 3 Sample.world) = Some s
    /\ refreshRequests (Overlap.world s) = 3%nat.
Proof.
  destruct (overlapping_callers_each_refresh 3 Sample.world)
    as (s & Run & Count & _).
  - left. reflexivity.
  - exists s. split; [exact Run | exact Count].
Defined.

(** C8 as stated fails: two callers that find no token and overlap send two
    refresh requests, and each ends with the token of its own response. *)
Lemma duplicate_refresh_counterexample :
  Spec.tokenStale Sample.world = true
  /\ exists s,
       Overlap.run [Overlap.Call 0; Overlap.Call 1;
                    Overlap.Resume 0; Overlap.Finish 0;
                    Overlap.Resume 1; Overlap.Finish 1]
         (Overlap.start 2 Sample.world) = Some s
       /\ refreshRequests (Overlap.world s) = 2%nat
       /\ Overlap.callers s
          = [Overlap.Done (Returned (Some (lit "new-token")));
             Overlap.Done (Returned (Some (lit "new-token")))].
Proof.
  split; [reflexivity|]. eexists. split; [reflexivity|].
  split; reflexivity.
Qed.

(** A caller that starts after the refresh of another has completed finds
    the new token and sends nothing. *)
Example later_caller_reuses_token :
  exists s,
    Overlap.run [Overlap.Call 0; Overlap.Resume 0; Overlap.Call 1;
                 Overlap.Finish 0]
      (Overlap.start 2 Sample.world) = Some s
    /\ refreshRequests (Overlap.world s) = 1%nat
    /\ Overlap.callers s
       = [Overlap.Done (Returned (Some (lit "new-token")));
          Overlap.Done (Returned (Some (lit "new-token")))].
Proof.
  eexists. split; [reflexivity|]. split; reflexivity.
Qed.

(** ** Runs of the pipeline *)

Example menu_is_published :
  let w' := snd (Server.processSinglePost Node.runtime (lit "#MEO")
                   Sample.postFilter Sample.menu Sample.world) in
  map SyncLog.status (logSyncCalls w') = [success]
  /\ map SyncLog.gbpPostId (logSyncCalls w') = [Some Sample.listing]
  /\ map SyncLog.hashtags (logSyncCalls w') = [[lit "#MEO"; lit "#food"]]
  /\ option_map (@List.length Line) (syncLogFile w') = Some 1%nat
  /\ refreshRequests w' = 1%nat
  /\ map (fun rq => summary (localPost rq)) (createRequests w')
     = [lit "Our new lunch menu is here!"].
Proof. vm_compute. repeat split. Qed.

Example video_is_skipped :
  let w' := snd (Server.processSinglePost Node.runtime (lit "#MEO")
                   Sample.postFilter Sample.video Sample.world) in
  map SyncLog.status (logSyncCalls w') = [skipped]
  /\ createRequests w' = []
  /\ refreshRequests w' = 0%nat.
Proof. vm_compute. repeat split. Qed.

Example offline_is_failed :
  let w' := snd (Server.processSinglePost Node.runtime (lit "#MEO")
                   Sample.postFilter Sample.menu Sample.worldOffline) in
  map SyncLog.status (logSyncCalls w') = [failed]
  /\ map SyncLog.error (logSyncCalls w')
     = [Some (Gbp.postCreationFailed ++ Gbp.tokenRefreshFailed
              ++ lit "Network Error")].
Proof. vm_compute. repeat split. Qed.

Lemma one_record_per_candidate_witness :
  exists r,
    logSyncCalls (snd (Server.processSinglePost Node.runtime (lit "#MEO")
                         Sample.postFilter Sample.video Sample.world)) = [r]
    /\ SyncLog.status r = skipped.
Proof.
  destruct (one_record_per_candidate Node.runtime (lit "#MEO")
              Sample.postFilter Sample.video Sample.world)
    as (_ & r & v & Calls & _ & Hv & Skipped & _).
  exists r. split; [exact Calls|].
  apply Skipped.
  vm_compute in Hv. injection Hv as <-. reflexivity.
Defined.

Lemma refresh_iff_stale_witness :
  fst (Gbp.getValidAccessToken Sample.worldWithToken)
  = Returned (Some (lit "held-token"))
  /\ refreshRequests (snd (Gbp.getValidAccessToken Sample.worldWithToken))
     = 0%nat.
Proof.
  destruct (refresh_iff_stale Sample.worldWithToken)
    as (_ & Same & Fresh & _).
  split.
  - apply Fresh. reflexivity.
  - apply Same. reflexivity.
Defined.

Lemma listing_request_construction_witness :
  exists u,
    media (Gbp.convertInstagramToGBPPost Node.runtime Sample.menu)
    = Some [mkMediaItem PHOTO u].
Proof.
  destruct (listing_request_construction Node.runtime Sample.menu)
    as (_ & _ & _ & Photo).
  destruct (Photo [mkMediaItem PHOTO (lit "https://cdn.example/p.jpg")])
    as (u & _ & E).
  - reflexivity.
  - exists u. rewrite <- E. reflexivity.
Defined.

Lemma signature_verification_total_witness :
  fst (Instagram.verifyWebhookSignature Node.runtime Sample.appSecret
         Sample.payload (lit "sha256=abcd") Sample.world)
  = Returned false.
Proof.
  destruct (signature_verification_total Node.runtime Sample.appSecret
              Sample.payload (lit "sha256=abcd") Sample.world)
    as (b & Run & _ & Short).
  rewrite Run. simpl. f_equal. apply Short.
  vm_compute. discriminate.
Defined.

(** * Further properties of the code

    ** The tag pattern *)

Section TagFacts.

Variable cls : codeunit -> bool.

Lemma replaceAllFrom_skipn (k : nat) (s : jsstring) :
  replaceAllFrom cls k s = replaceAllFrom cls 0 (skipn k s).
Proof.
  revert k. induction s as [|c s IH]; intros [|k]; try reflexivity.
  simpl. apply IH.
Qed.

Lemma matchAllFrom_skipn (k : nat) (s : jsstring) :
  matchAllFrom cls k s = matchAllFrom cls 0 (skipn k s).
Proof.
  revert k. induction s as [|c s IH]; intros [|k]; try reflexivity.
  simpl. apply IH.
Qed.

Lemma takeWhile_skipn (s : jsstring) :
  takeWhile cls (skipn (List.length (takeWhile cls s)) s) = [].
Proof.
  induction s as [|c s IH]; simpl; [reflexivity|].
  destruct (cls c) eqn:E; simpl; [assumption | now rewrite E].
Qed.

Lemma takeWhile_Forall (s : jsstring) :
  Forall (fun c => cls c = true) (takeWhile cls s).
Proof.
  induction s as [|c s IH]; simpl; [constructor|].
  destruct (cls c) eqn:E; constructor; assumption.
Qed.

Lemma takeWhile_prefix (s : jsstring) :
  firstn (List.length (takeWhile cls s)) s = takeWhile cls s.
Proof.
  induction s as [|c s IH]; simpl; [reflexivity|].
  destruct (cls c); simpl; [now rewrite IH | reflexivity].
Qed.

(** The match at the head of a string, spelt out. *)
Lemma matchTagAt_Some (s : jsstring) (n : nat) :
  matchTagAt cls s = Some n ->
  exists rest, s = hash :: rest
               /\ n = S (List.length (takeWhile cls rest))
               /\ takeWhile cls rest <> [].
Proof.
  destruct s as [|c rest]; simpl; [discriminate|].
  destruct (Z.eqb_spec c hash) as [->|]; [|discriminate].
  destruct (takeWhile cls rest) as [|d r] eqn:E; simpl; [discriminate|].
  intros [= <-]. exists rest. rewrite E. repeat split. discriminate.
Qed.

Lemma tagFree_cons (c : codeunit) (s : jsstring) :
  Terms.tagFree cls (c :: s) = true <->
  matchTagAt cls (c :: s) = None /\ Terms.tagFree cls s = true.
Proof.
  simpl. destruct (Z.eqb_spec c hash) as [->|ne]; simpl.
  - destruct s as [|d r]; simpl.
    + intuition.
    + destruct (cls d); simpl; intuition discriminate.
  - intuition.
Qed.

Lemma tagFree_matchAll (s : jsstring) :
  Terms.tagFree cls s = true -> matchAllFrom cls 0 s = [].
Proof.
  induction s as [|c s IH]; [reflexivity|].
  intros H. apply tagFree_cons in H as [N F].
  cbn [matchAllFrom]. rewrite N. auto.
Qed.

(** What follows a character outside the class, once stripped, still
    begins outside the class. *)
Lemma stripTags_head (n : nat) (s : jsstring) :
  (List.length s <= n)%nat ->
  takeWhile cls s = [] -> takeWhile cls (stripTags cls s) = [].
Proof.
  unfold stripTags. revert s. induction n as [|n IH]; intros [|c s] L H;
    try reflexivity; simpl in L; [lia|].
  cbn [replaceAllFrom].
  destruct (matchTagAt cls (c :: s)) as [m|] eqn:E.
  - apply matchTagAt_Some in E as (rest & [= -> ->] & -> & _).
    cbn [Nat.pred]. rewrite replaceAllFrom_skipn.
    apply IH; [|apply takeWhile_skipn].
    rewrite length_skipn. lia.
  - simpl in H |- *. destruct (cls c); [discriminate | reflexivity].
Qed.

Lemma stripTags_tagFree_aux (n : nat) (s : jsstring) :
  (List.length s <= n)%nat -> Terms.tagFree cls (stripTags cls s) = true.
Proof.
  unfold stripTags. revert s. induction n as [|n IH]; intros [|c s] L;
    try reflexivity; simpl in L; [lia|].
  cbn [replaceAllFrom].
  destruct (matchTagAt cls (c :: s)) as [m|] eqn:E.
  - apply matchTagAt_Some in E as (rest & [= -> ->] & -> & _).
    cbn [Nat.pred]. rewrite replaceAllFrom_skipn.
    apply IH. rewrite length_skipn. lia.
  - apply tagFree_cons. split; [|apply IH; lia].
    revert E. simpl.
    destruct (Z.eqb_spec c hash) as [->|]; [|reflexivity].
    destruct (takeWhile cls s) as [|d r] eqn:T; [|discriminate].
    intros _.
    pose proof (stripTags_head (List.length s) s (Nat.le_refl _) T) as T'.
    unfold stripTags in T'. now rewrite T'.
Qed.

Lemma stripTags_tagFree (s : jsstring) :
  Terms.tagFree cls (stripTags cls s) = true.
Proof. exact (stripTags_tagFree_aux (List.length s) s (Nat.le_refl _)). Qed.

(** X1.  Once its tags are stripped a text holds no tag: the pattern that
    [filterByContent] and [convertInstagramToGBPPost] replace by the empty
    string has no match in the result, whatever the class of the characters
    of a tag.  Nothing of a tag is put together from what stood around a
    removed one. *)
Theorem stripped_text_has_no_tag (s : jsstring) :
  extractHashtags cls (Some (stripTags cls s)) = [].
Proof.
  unfold extractHashtags.
  destruct (stripTags cls s) as [|c r] eqn:E; [reflexivity|].
  rewrite <- E. apply tagFree_matchAll, stripTags_tagFree.
Qed.

End TagFacts.

Section TagFree.

Variable cls : codeunit -> bool.

Lemma tagFree_app_l (a b : jsstring) :
  Terms.tagFree cls (a ++ b) = true -> Terms.tagFree cls a = true.
Proof.
  induction a as [|c a IH]; [reflexivity|].
  cbn [app Terms.tagFree]. intros H.
  apply andb_true_iff in H as [H1 H2]. rewrite (IH H2), andb_true_r.
  destruct (c =? hash); [|reflexivity]. simpl in H1 |- *.
  destruct a as [|d a]; [reflexivity | exact H1].
Qed.

Lemma tagFree_app_r (a b : jsstring) :
  Terms.tagFree cls (a ++ b) = true -> Terms.tagFree cls b = true.
Proof.
  induction a as [|c a IH]; [auto|].
  cbn [app Terms.tagFree]. intros H.
  apply andb_true_iff in H as [_ H2]. auto.
Qed.

Lemma tagFree_app (a b : jsstring) :
  Terms.tagFree cls a = true -> Terms.tagFree cls b = true ->
  takeWhile cls b = [] -> Terms.tagFree cls (a ++ b) = true.
Proof.
  intros Ha Hb Hd. induction a as [|c a IH]; [assumption|].
  cbn [app Terms.tagFree] in Ha |- *.
  apply andb_true_iff in Ha as [H1 H2]. rewrite (IH H2), andb_true_r.
  destruct (c =? hash); [|reflexivity]. simpl in H1 |- *.
  destruct a as [|d a]; [|exact H1]. simpl.
  destruct b as [|d b]; [reflexivity|]. simpl in Hd.
  destruct (cls d); [discriminate | reflexivity].
Qed.

Lemma tagFree_no_hash (s : jsstring) :
  forallb (fun c => negb (c =? hash)) s = true -> Terms.tagFree cls s = true.
Proof.
  induction s as [|c s IH]; [reflexivity|].
  cbn [forallb Terms.tagFree]. intros H.
  apply andb_true_iff in H as [H1 H2]. rewrite (IH H2).
  apply negb_true_iff in H1. now rewrite H1.
Qed.

Lemma dropWhile_suffix (p : codeunit -> bool) (s : jsstring) :
  exists u, s = u ++ dropWhile p s.
Proof.
  induction s as [|c s [u IH]]; [now exists []|].
  simpl. destruct (p c).
  - exists (c :: u). simpl. now f_equal.
  - now exists [].
Qed.

Lemma trim_infix (s : jsstring) :
  exists u v, s = u ++ trim s ++ v.
Proof.
  unfold trim, trimEnd, trimStart.
  destruct (dropWhile_suffix isWhiteSpace s) as [u Hu].
  destruct (dropWhile_suffix isWhiteSpace (rev (dropWhile isWhiteSpace s)))
    as [v Hv].
  exists u, (rev v).
  rewrite <- rev_app_distr, <- Hv, rev_involutive. exact Hu.
Qed.

Lemma tagFree_trim (s : jsstring) :
  Terms.tagFree cls s = true -> Terms.tagFree cls (trim s) = true.
Proof.
  destruct (trim_infix s) as (u & v & E). intros H. rewrite E in H.
  apply tagFree_app_r in H. now apply tagFree_app_l in H.
Qed.

End TagFree.

Section SummaryFacts.

Variable rt : Runtime.

(** X2.  The summary of a listing request holds no tag, whatever the
    caption: neither the stripping, nor the trimming, nor the cut at 1497
    characters with its ellipsis, nor the fallback sentence leaves or makes
    one.  The full stop is taken not to be a character of a tag. *)
Theorem listing_summary_has_no_tag (post : InstagramPost) :
  wordChar rt 46 = false ->
  extractHashtags (wordChar rt)
    (Some (summary (Gbp.convertInstagramToGBPPost rt post))) = [].
Proof.
  intros dot.
  assert (F : Terms.tagFree (wordChar rt)
                (summary (Gbp.convertInstagramToGBPPost rt post)) = true).
  { rewrite convert_summary.
    unfold Spec.summaryAsAmended, Spec.fallbackIfShort, Spec.truncate1500.
    set (t := trim (stripTags (wordChar rt) (Spec.captionOrDefault post))).
    assert (Ft : Terms.tagFree (wordChar rt) t = true)
      by apply tagFree_trim, stripTags_tagFree.
    match goal with
    | |- context [if ?b then Gbp.fallbackSummary else _] => destruct b
    end; [apply tagFree_no_hash; reflexivity|].
    destruct (1500 <? List.length t)%nat; [|assumption].
    apply tagFree_app.
    - apply (tagFree_app_l _ (firstn 1497 t) (skipn 1497 t)).
      now rewrite firstn_skipn.
    - apply tagFree_no_hash. reflexivity.
    - simpl. now rewrite dot. }
  unfold extractHashtags.
  destruct (summary _) as [|c r] eqn:E; [reflexivity|].
  now apply tagFree_matchAll.
Qed.

End SummaryFacts.

Lemma listing_summary_has_no_tag_witness :
  wordChar Node.runtime 46 = false
  /\ extractHashtags (wordChar Node.runtime)
       (Some (summary (Gbp.convertInstagramToGBPPost Node.runtime Sample.menu)))
     = [].
Proof.
  split; [reflexivity|].
  apply (listing_summary_has_no_tag Node.runtime Sample.menu). reflexivity.
Defined.

Section TagShape.

Variable cls : codeunit -> bool.

Lemma matchAllFrom_shape (n : nat) (s : jsstring) :
  (List.length s <= n)%nat ->
  Forall (fun tag => exists name, tag = hash :: name /\ name <> []
                                  /\ Forall (fun c => cls c = true) name)
    (matchAllFrom cls 0 s).
Proof.
  revert s. induction n as [|n IH]; intros [|c s] L;
    try constructor; simpl in L; [lia|].
  cbn [matchAllFrom].
  destruct (matchTagAt cls (c :: s)) as [m|] eqn:E.
  - apply matchTagAt_Some in E as (rest & [= -> ->] & -> & NE).
    constructor.
    + exists (takeWhile cls rest). cbn [firstn].
      rewrite takeWhile_prefix. auto using takeWhile_Forall.
    + cbn [Nat.pred]. rewrite matchAllFrom_skipn. apply IH.
      rewrite length_skipn. lia.
  - apply IH. lia.
Qed.

Lemma tags_and_rest_aux (n : nat) (s : jsstring) :
  (List.length s <= n)%nat ->
  List.length s
  = (List.length (stripTags cls s)
     + list_sum (map (@List.length codeunit) (matchAllFrom cls 0 s)))%nat.
Proof.
  unfold stripTags. revert s. induction n as [|n IH]; intros [|c s] L;
    try reflexivity; simpl in L; [lia|].
  cbn [matchAllFrom replaceAllFrom].
  destruct (matchTagAt cls (c :: s)) as [m|] eqn:E.
  - apply matchTagAt_Some in E as (rest & [= -> ->] & -> & NE).
    cbn [Nat.pred map list_sum firstn].
    rewrite matchAllFrom_skipn, replaceAllFrom_skipn, takeWhile_prefix.
    set (k := List.length (takeWhile cls rest)).
    assert (K : (k <= List.length rest)%nat).
    { unfold k. rewrite <- (takeWhile_prefix cls rest) at 1.
      rewrite length_firstn. lia. }
    pose proof (IH (skipn k rest)) as H.
    rewrite length_skipn in H. specialize (H ltac:(lia)).
    simpl. fold k. lia.
  - simpl. rewrite (IH s) at 1 by lia. reflexivity.
Qed.

(** X3.  Every tag that [extractHashtags] returns is a [#] followed by at
    least one character of the class and by such characters only; and the
    tags are exactly what the stripping removes: the lengths of the tags
    and of the stripped text add up to the length of the text. *)
Theorem tags_are_marked_words (text : jsstring) :
  Forall (fun tag => exists name, tag = hash :: name /\ name <> []
                                  /\ Forall (fun c => cls c = true) name)
    (extractHashtags cls (Some text))
  /\ List.length text
     = (List.length (stripTags cls text)
        + list_sum (map (@List.length codeunit)
                      (extractHashtags cls (Some text))))%nat.
Proof.
  unfold extractHashtags. destruct text as [|c s].
  - split; [constructor | reflexivity].
  - split.
    + exact (matchAllFrom_shape _ _ (Nat.le_refl _)).
    + exact (tags_and_rest_aux _ _ (Nat.le_refl _)).
Qed.

End TagShape.

(** ** The verdicts of the filter *)

Section VerdictFacts.

Variable rt : Runtime.
Variable configTargetHashtag : jsstring.

Lemma filterByMediaType_refusal (post : InstagramPost) :
  shouldSync (Filters.filterByMediaType post) = false ->
  matchedHashtags (Filters.filterByMediaType post) = []
  /\ reason (Filters.filterByMediaType post) <> None.
Proof.
  unfold Filters.filterByMediaType.
  destruct (negb _); simpl; [split; [reflexivity | discriminate]|discriminate].
Qed.

Lemma filterByContent_refusal (post : InstagramPost) :
  shouldSync (Filters.filterByContent rt post) = false ->
  matchedHashtags (Filters.filterByContent rt post) = []
  /\ reason (Filters.filterByContent rt post) <> None.
Proof.
  unfold Filters.filterByContent.
  destruct (caption post) as [[|c s]|]; cbv zeta;
    repeat match goal with
           | |- context [if ?b then _ else _] => destruct b
           end; simpl;
    try (split; [reflexivity | discriminate]); discriminate.
Qed.

(** X4.  The verdict of [filterPost] is of one of two kinds.  A refusal
    carries a reason and no tag; an acceptance carries no reason and all
    the tags of the caption, the target tag among them once in lower
    case. *)
Theorem verdict_reason_or_tags (self : Filters.PostFilter)
    (post : InstagramPost) (w : World) :
  exists v,
    fst (Filters.filterPost rt configTargetHashtag self post w) = Returned v
    /\ (shouldSync v = false ->
        matchedHashtags v = [] /\ reason v <> None)
    /\ (shouldSync v = true ->
        reason v = None
        /\ matchedHashtags v = extractHashtags (wordChar rt) (caption post)
        /\ In (Filters.targetHashtag self)
             (map (toLowerCase rt) (matchedHashtags v))).
Proof.
  rewrite filterPost_run.
  destruct (includes _ _) eqn:Inc; simpl.
  - pose proof (filterByMediaType_refusal post) as HM.
    pose proof (filterByContent_refusal post) as HC.
    apply includes_In in Inc.
    destruct (shouldSync (Filters.filterByMediaType post)) eqn:EM; simpl.
    + destruct (Filters.tooOld rt (clock w (ticks w)) post 24); simpl.
      * eexists; split; [reflexivity|]. simpl.
        split; [split; [reflexivity | discriminate] | discriminate].
      * destruct (shouldSync (Filters.filterByContent rt post)) eqn:EC; simpl.
        -- eexists; split; [reflexivity|]. simpl.
           split; [discriminate|]. intros _. auto.
        -- eexists; split; [reflexivity|].
           split; [auto | congruence].
    + eexists; split; [reflexivity|]. split; [auto | congruence].
  - eexists; split; [reflexivity|]. simpl.
    split; [split; [reflexivity | discriminate] | discriminate].
Qed.




End VerdictFacts.

(** ** Requests to the local-post endpoint *)

Section GbpFacts.

Variable rt : Runtime.

(** Getting a token sends nothing to the local-post endpoint. *)
Lemma getValidAccessToken_posts (w : World) :
  let w' := snd (Gbp.getValidAccessToken w) in
  createRequests w' = createRequests w /\ postEndpoint w' = postEndpoint w.
Proof.
  rewrite getValidAccessToken_run. cbv zeta.
  destruct (Spec.tokenStale w).
  - rewrite refreshAccessToken_run.
    destruct (tokenEndpoint _ _); destruct (truthy (accessToken w)); split;
      reflexivity.
  - destruct (truthy (accessToken w)); split; reflexivity.
Qed.

Lemma getValidAccessToken_token (w w' : World) (token : option jsstring) :
  Gbp.getValidAccessToken w = (Returned token, w') -> token = accessToken w'.
Proof.
  rewrite getValidAccessToken_run. cbv zeta.
  destruct (Spec.tokenStale w).
  - destruct (Gbp.refreshAccessToken _) as [[t|e] w2]; [|discriminate].
    now intros [= <- <-].
  - intros [= <- <-]. destruct (truthy (accessToken w)); reflexivity.
Qed.

(** What a request to the local-post endpoint does, with a token at hand. *)
Lemma sendPost_run (rq : GBPCreatePostRequest) (w : World) :
  Gbp.axios_post_createPost rq w
  = (match postEndpoint w (List.length (createRequests w)) with
     | Resolved response => Returned response
     | Rejected e => Thrown e
     end, recordCreate rq w).
Proof.
  unfold Gbp.axios_post_createPost.
  destruct (postEndpoint w _); reflexivity.
Qed.

(** X6.  [createLocalPost] sends at most one request to the local-post
    endpoint, none when no token can be had, and never one that only
    validates.  The id it returns is the name in the response to that
    request; every error it raises has the prefix of a failed creation
    before the message of its cause, the failed refresh included. *)
Theorem publication_sends_one_request (post : InstagramPost) (w : World) :
  let request :=
    mkCreateRequest (Gbp.convertInstagramToGBPPost rt post) false in
  match Gbp.createLocalPost rt post w with
  | (Returned listing, w') =>
      createRequests w' = createRequests w ++ [request (accessToken w')]
      /\ exists response,
           postEndpoint w (List.length (createRequests w)) = Resolved response
           /\ listing = name response
  | (Thrown e, w') =>
      exists cause,
        e = mkError (Gbp.postCreationFailed ++ message cause) None
        /\ ((fst (Gbp.getValidAccessToken w) = Thrown cause
             /\ createRequests w' = createRequests w)
            \/ (postEndpoint w (List.length (createRequests w)) = Rejected cause
                /\ createRequests w'
                   = createRequests w ++ [request (accessToken w')]))
  end.
Proof.
  cbv zeta. unfold Gbp.createLocalPost, tryCatch, bind at 1.
  destruct (getValidAccessToken_posts w) as [C P].
  pose proof (getValidAccessToken_token w) as T.
  destruct (Gbp.getValidAccessToken w) as [[token|e] w1]; simpl in C, P.
  - specialize (T w1 token eq_refl). subst token.
    unfold bind. rewrite sendPost_run, P, C.
    destruct (postEndpoint w (List.length (createRequests w)))
      as [response|cause]; simpl.
    + rewrite C. split; [reflexivity|]. eauto.
    + exists cause. split; [reflexivity|]. right. rewrite C. auto.
  - simpl. exists e. split; [reflexivity|]. left. auto.
Qed.

Variable configAccountId configLocationId : jsstring.

Lemma validateLocalPost_run (post : InstagramPost) (w : World) :
  GbpChecks.validateLocalPost rt post w =
  match Gbp.getValidAccessToken w with
  | (Returned token, w1) =>
      (match postEndpoint w (List.length (createRequests w)) with
       | Resolved _ => Returned (GbpChecks.mkValidation true None)
       | Rejected e =>
           Returned (GbpChecks.mkValidation false (Some [message e]))
       end,
       recordCreate
         (mkCreateRequest (Gbp.convertInstagramToGBPPost rt post) true token)
         w1)
  | (Thrown e, w1) =>
      (Returned (GbpChecks.mkValidation false (Some [message e])), w1)
  end.
Proof.
  unfold GbpChecks.validateLocalPost, tryCatch, bind at 1.
  destruct (getValidAccessToken_posts w) as [C P].
  destruct (Gbp.getValidAccessToken w) as [[token|e] w1]; simpl in C, P;
    [|reflexivity].
  unfold bind. rewrite sendPost_run, P, C.
  destruct (postEndpoint w _); reflexivity.
Qed.

(** X7.  [validateLocalPost] never raises and never publishes: what it
    sends to the local-post endpoint, one request at most, only validates.
    The post is reported valid exactly when a token was had and the
    endpoint accepted the request; otherwise the report carries one
    message, the one of the failure. *)
Theorem validation_never_publishes (post : InstagramPost) (w : World) :
  exists v w',
    GbpChecks.validateLocalPost rt post w = (Returned v, w')
    /\ Spec.sameLedger w w'
    /\ (exists sent, createRequests w' = createRequests w ++ sent
                     /\ Forall Terms.validationOnly sent
                     /\ (List.length sent <= 1)%nat)
    /\ (GbpChecks.isValid v = true <->
        (exists token, fst (Gbp.getValidAccessToken w) = Returned token)
        /\ exists response,
             postEndpoint w (List.length (createRequests w))
             = Resolved response)
    /\ (GbpChecks.isValid v = false ->
        exists m, GbpChecks.errors v = Some [m]).
Proof.
  rewrite validateLocalPost_run.
  destruct (getValidAccessToken_posts w) as [C P].
  pose proof (getValidAccessToken_sameLedger w) as L.
  destruct (Gbp.getValidAccessToken w) as [[token|e] w1]; simpl in C, P, L.
  - destruct (postEndpoint w (List.length (createRequests w)))
      as [response|cause];
      eexists; eexists; (split; [reflexivity|]);
      (split; [eapply sameLedger_trans; [exact L | repeat split]|]);
      (split; [eexists; split; [simpl; rewrite C; reflexivity|];
               split; [repeat constructor | simpl; lia]|]); simpl.
    + split; [|discriminate]. split; [|reflexivity]. intros _. eauto.
    + split; [|eauto]. split; [discriminate|].
      intros (_ & response & R). discriminate.
  - eexists; eexists. split; [reflexivity|]. split; [exact L|].
    split; [exists []; rewrite app_nil_r; repeat split; auto|]. simpl.
    split; [|eauto]. split; [discriminate|].
    intros ((token & R) & _). discriminate.
Qed.

(** X8.  [testConnection] never raises, sends nothing that publishes, and
    reports a connection exactly when a token could be had: the outcome of
    the validation it then runs is reported as [validationWorking] and does
    not change the verdict.  Without a token the message is the one of the
    refresh error behind its prefix, and nothing is sent to the local-post
    endpoint. *)
Theorem connection_test_reports_token (w : World) :
  exists r w',
    GbpChecks.testConnection rt configAccountId configLocationId w
    = (Returned r, w')
    /\ (GbpChecks.connected r = true <->
        exists token, fst (Gbp.getValidAccessToken w) = Returned token)
    /\ (forall token w1,
          Gbp.getValidAccessToken w = (Returned token, w1) ->
          exists working,
            GbpChecks.data r
            = Some (GbpChecks.mkConnectionData configAccountId
                      configLocationId (truthy token) working)
            /\ (working = true ->
                exists response,
                  postEndpoint w (List.length (createRequests w))
                  = Resolved response))
    /\ (forall e, fst (Gbp.getValidAccessToken w) = Thrown e ->
          GbpChecks.connectionMessage r
          = GbpChecks.connectionFailed ++ message e
          /\ GbpChecks.data r = None
          /\ createRequests w' = createRequests w)
    /\ exists sent, createRequests w' = createRequests w ++ sent
                    /\ Forall Terms.validationOnly sent.
Proof.
  unfold GbpChecks.testConnection, tryCatch, bind at 1.
  destruct (getValidAccessToken_posts w) as [C P].
  destruct (Gbp.getValidAccessToken w) as [[token|e] w1] eqn:G;
    simpl in C, P.
  - unfold bind at 1, Date_now at 1. unfold bind at 1.
    rewrite validateLocalPost_run.
    destruct (getValidAccessToken_posts (tick w1)) as [C2 P2].
    destruct (Gbp.getValidAccessToken (tick w1)) as [[token2|e2] w2];
      simpl in C2, P2.
    + replace (postEndpoint (tick w1)
                 (List.length (createRequests (tick w1))))
        with (postEndpoint w (List.length (createRequests w)))
        by (simpl; now rewrite P, C).
      destruct (postEndpoint w (List.length (createRequests w)))
        as [response|cause];
        eexists; eexists; (split; [reflexivity|]); simpl;
        (split; [split; eauto|]);
        (split; [intros token' w1' [= <- <-]; eexists;
                 split; [reflexivity|]; first [solve [eauto] | discriminate]|]);
        (split; [discriminate|]);
        eexists; (split; [rewrite C2, C; reflexivity|]);
        repeat constructor.
    + eexists; eexists. split; [reflexivity|]. simpl.
      split; [split; eauto|].
      split; [intros token' w1' [= <- <-]; eexists;
              split; [reflexivity | discriminate]|].
      split; [discriminate|].
      exists []. rewrite app_nil_r. split; [congruence | constructor].
  - eexists; eexists. split; [reflexivity|]. simpl.
    split; [split; [discriminate | intros [token R]; discriminate]|].
    split; [discriminate|].
    split; [intros e' [= <-]; auto|].
    exists []. rewrite app_nil_r. auto.
Qed.

(** X9.  The token status and the credential agree in one direction: from
    a state in which [getTokenStatus] reports no token, or an expired one,
    [getValidAccessToken] sends a refresh request. *)
Theorem reported_expiry_is_refreshed (w : World) (st : GbpChecks.TokenStatus) :
  fst (GbpChecks.getTokenStatus w) = Returned st ->
  GbpChecks.hasToken st = false \/ GbpChecks.isExpired st = true ->
  refreshRequests (snd (Gbp.getValidAccessToken w))
  = S (refreshRequests w).
Proof.
  unfold GbpChecks.getTokenStatus, bind, gets, Date_now, ret. simpl.
  intros [= <-]. simpl. intros H.
  rewrite getValidAccessToken_run. cbv zeta.
  assert (Stale : Spec.tokenStale w = true).
  { unfold Spec.tokenStale. destruct H as [H|H].
    - now rewrite H.
    - apply orb_true_iff. right. rewrite Z.geb_leb in H.
      apply Z.leb_le in H. apply Z.leb_le. lia. }
  rewrite Stale, refreshAccessToken_run.
  destruct (truthy (accessToken w)); simpl;
    destruct (tokenEndpoint w (refreshRequests w)); reflexivity.
Qed.

End GbpFacts.

Lemma reported_expiry_is_refreshed_witness :
  refreshRequests (snd (Gbp.getValidAccessToken Sample.world))
  = S (refreshRequests Sample.world).
Proof.
  apply (reported_expiry_is_refreshed Sample.world
           (GbpChecks.mkTokenStatus false None true)).
  - reflexivity.
  - left. reflexivity.
Defined.

(** ** Writing the ledger, and cleaning it *)

Section LedgerFacts.

Variable rt : Runtime.

Lemma decoded_app (a b : list Line) :
  Logger.decoded (a ++ b) = Logger.decoded a ++ Logger.decoded b.
Proof.
  induction a as [|[r|] a IH]; simpl; [reflexivity | now f_equal | assumption].
Qed.

Lemma decoded_entries (l : list SyncLog) : Logger.decoded (map Entry l) = l.
Proof. induction l as [|r l IH]; simpl; [reflexivity | now f_equal]. Qed.

Lemma slice_all {A} (limit : Z) (l : list A) :
  Z.of_nat (List.length l) <= limit -> Logger.slice 0 (0 + limit) l = l.
Proof.
  intros H. rewrite (slice_page limit 0 l) by lia. simpl.
  apply firstn_all2. lia.
Qed.

(** X10.  A record handed to [logSync] is read back: when no file
    operation fails, the ledger read afterwards with a limit that covers it
    holds the new record together with the records that were there, no
    other, whether or not the file existed before. *)
Theorem logged_record_is_read_back (r : SyncLog) (w : World) (limit : Z) :
  (forall k, fsFault w k = None) ->
  let old := match syncLogFile w with
             | Some lines => Logger.decoded lines
             | None => []
             end in
  Z.of_nat (List.length old) < limit ->
  exists logs,
    fst (Logger.getSyncLogs rt limit 0 (snd (Logger.logSync r w)))
    = Returned logs
    /\ Permutation logs (r :: old)
    /\ In r logs.
Proof.
  intros Quiet old Limit.
  rewrite logSync_run, Quiet.
  set (w1 := setSyncLogFile _ _).
  assert (R : Spec.readable w1
                (match syncLogFile w with
                 | Some lines => lines ++ [Entry r]
                 | None => [Entry r]
                 end)).
  { split; [reflexivity | exact Quiet]. }
  rewrite (getSyncLogs_readable rt _ _ _ _ R). cbn [fst].
  assert (D : Logger.decoded
                (match syncLogFile w with
                 | Some lines => lines ++ [Entry r]
                 | None => [Entry r]
                 end) = old ++ [r]).
  { unfold old. destruct (syncLogFile w); [apply decoded_app | reflexivity]. }
  rewrite D.
  assert (P : Permutation (Logger.sortLogs rt (old ++ [r])) (r :: old)).
  { eapply Permutation_trans; [symmetry; apply sortLogs_perm|].
    symmetry. apply Permutation_cons_append. }
  rewrite slice_all.
  - eexists. split; [reflexivity|]. split; [exact P|].
    eapply Permutation_in; [symmetry; exact P | now left].
  - rewrite sortLogs_length, length_app. simpl. lia.
Qed.

Variable daysBefore : Z -> Z -> Z.

Lemma getSyncLogs_records (limit offset : Z) (w w' : World)
    (logs : list SyncLog) :
  Logger.getSyncLogs rt limit offset w = (Returned logs, w') ->
  logSyncCalls w' = logSyncCalls w /\ syncLogFile w' = syncLogFile w /\
  (logs = [] \/
   exists lines, syncLogFile w = Some lines
                 /\ logs = Logger.slice offset (offset + limit)
                             (Logger.sortLogs rt (Logger.decoded lines))).
Proof.
  rewrite getSyncLogs_run.
  destruct (fsFault w (fsOps w)) as [e|].
  { destruct (Spec.isENOENT e); [|discriminate].
    intros [= <- <-]. repeat split; auto. }
  destruct (syncLogFile w) as [lines|] eqn:File.
  - destruct (fsFault w (S (fsOps w))) as [e|].
    + destruct (Spec.isENOENT e); [|discriminate].
      intros [= <- <-]. repeat split; auto.
    + intros [= <- <-]. repeat split; auto. right. eauto.
  - intros [= <- <-]. repeat split; auto.
Qed.

Lemma getSyncLogs_frame (limit offset : Z) (w : World) :
  let w' := snd (Logger.getSyncLogs rt limit offset w) in
  logSyncCalls w' = logSyncCalls w /\ syncLogFile w' = syncLogFile w.
Proof.
  rewrite getSyncLogs_run.
  destruct (fsFault w (fsOps w)) as [e0|]; [split; reflexivity|].
  destruct (syncLogFile w) eqn:File; [|simpl; rewrite File; split; reflexivity].
  destruct (fsFault w (S (fsOps w))); simpl; rewrite File; split; reflexivity.
Qed.

Lemma slice_incl {A} (a b : Z) (l : list A) (x : A) :
  In x (Logger.slice a b l) -> In x l.
Proof.
  unfold Logger.slice. intros H.
  rewrite <- (firstn_skipn (Logger.relativeIndex (List.length l) a) l).
  apply in_or_app. right.
  match type of H with
  | In _ (firstn ?n ?t) => rewrite <- (firstn_skipn n t)
  end.
  apply in_or_app. now left.
Qed.

(** X11.  [clearOldLogs] never raises, whatever fails underneath.  The
    file it leaves is either the file as it was, or a file of well-formed
    lines only, each a record of the old file more recent than the cutoff:
    the clean-up invents no record and keeps no record at or before the
    cutoff, nor one whose timestamp does not parse. *)
Theorem retention_keeps_only_recent (daysToKeep : Z) (w : World) :
  let cutoff := daysBefore (clock w (ticks w)) daysToKeep in
  exists w',
    Retention.clearOldLogs rt daysBefore daysToKeep w = (Returned tt, w')
    /\ logSyncCalls w' = logSyncCalls w
    /\ (syncLogFile w' = syncLogFile w
        \/ exists lines kept,
             syncLogFile w = Some lines
             /\ syncLogFile w' = Some (map Entry kept)
             /\ (List.length kept < List.length (Logger.decoded lines))%nat
             /\ Forall (fun r => In r (Logger.decoded lines)
                                 /\ exists t, Spec.timeOf rt r = Some t
                                              /\ cutoff < t) kept).
Proof.
  cbv zeta.
  unfold Retention.clearOldLogs, tryCatch, bind at 1, Date_now at 1.
  unfold bind at 1.
  destruct (getSyncLogs_frame 10000 0 (tick w)) as [C0 F0].
  destruct (Logger.getSyncLogs rt 10000 0 (tick w)) as [[logs|e] w1] eqn:Run;
    simpl in C0, F0.
  - apply getSyncLogs_records in Run as (C & F & Logs).
    simpl in C, F.
    set (cutoff := daysBefore (clock w (ticks w)) daysToKeep).
    set (kept := filter (Retention.newerThan rt cutoff) logs).
    destruct (Nat.ltb_spec (List.length kept) (List.length logs))
      as [shorter|same].
    + destruct Logs as [->|(lines & File & Logs)]; [simpl in shorter; lia|].
      unfold Retention.fs_writeFile, bind, fsOp, modify.
      destruct (fsFault w1 (fsOps w1)); simpl.
      * eexists. split; [reflexivity|]. simpl. auto.
      * eexists. split; [reflexivity|]. simpl. split; [assumption|].
        right. exists lines, kept. repeat split; auto.
        -- eapply Nat.lt_le_trans; [exact shorter|].
           rewrite Logs. unfold Logger.slice.
           rewrite length_firstn, length_skipn, sortLogs_length. lia.
        -- apply Forall_forall. intros r Hr.
           apply filter_In in Hr as [Hr New]. split.
           ++ rewrite Logs in Hr. apply slice_incl in Hr.
              eapply Permutation_in; [symmetry; apply sortLogs_perm | exact Hr].
           ++ unfold Retention.newerThan in New. unfold Spec.timeOf.
              destruct (dateParse rt (SyncLog.timestamp r)) as [t|];
                [|discriminate].
              exists t. split; [reflexivity|]. lia.
    + eexists. split; [reflexivity|]. auto.
  - eexists. split; [reflexivity|]. auto.
Qed.

Lemma filter_length_all {A} (f : A -> bool) (l : list A) :
  List.length (filter f l) = List.length l -> filter f l = l.
Proof.
  induction l as [|x l IH]; simpl; [reflexivity|].
  destruct (f x); simpl; intros H.
  - f_equal. apply IH. lia.
  - pose proof (filter_length_le f l). lia.
Qed.

Lemma filter_perm {A} (f : A -> bool) (l l' : list A) :
  Permutation l l' -> Permutation (filter f l) (filter f l').
Proof.
  induction 1 as [|x l l' _ IH|x y l|l1 l2 l3 _ IH1 _ IH2]; simpl.
  - constructor.
  - destruct (f x); [now constructor | assumption].
  - destruct (f x), (f y); try reflexivity. constructor.
  - now transitivity (filter f l2).
Qed.

Lemma filter_sorted {A} (R : A -> A -> Prop) (f : A -> bool) (l : list A) :
  StronglySorted R l -> StronglySorted R (filter f l).
Proof.
  induction 1 as [|x l _ IH Hx]; simpl; [constructor|].
  destruct (f x); [|assumption].
  constructor; [assumption|].
  apply Forall_forall. intros y Hy. apply filter_In in Hy as [Hy _].
  rewrite Forall_forall in Hx. auto.
Qed.

Lemma newerThan_after (cutoff : Z) (r : SyncLog) :
  Retention.newerThan rt cutoff r = Spec.after rt cutoff r.
Proof.
  unfold Retention.newerThan, Spec.after, Spec.timeOf.
  destruct (dateParse rt (SyncLog.timestamp r)); [apply Z.gtb_ltb | reflexivity].
Qed.

(** X12.  On a ledger that can be read and written, of at most 10000
    records whose timestamps all parse, [clearOldLogs] loses no record
    more recent than the cutoff: when some record is not, the file is
    written again with exactly the records that are, the most recent
    first, the lines that do not decode left out; when every record is,
    the file is left as it was. *)
Theorem retention_on_readable_ledger (daysToKeep : Z) (w : World)
    (lines : list Line) :
  Spec.readable w lines ->
  let records := Spec.written lines in
  Z.of_nat (List.length records) <= 10000 ->
  Spec.parsed rt records ->
  let cutoff := daysBefore (clock w (ticks w)) daysToKeep in
  let kept := filter (Spec.after rt cutoff) (Logger.sortLogs rt records) in
  exists w',
    Retention.clearOldLogs rt daysBefore daysToKeep w = (Returned tt, w')
    /\ Permutation kept (filter (Spec.after rt cutoff) records)
    /\ StronglySorted (Spec.notOlder rt) kept
    /\ (Forall (fun r => Spec.after rt cutoff r = true) records ->
        syncLogFile w' = Some lines)
    /\ (Exists (fun r => Spec.after rt cutoff r = false) records ->
        syncLogFile w' = Some (map Entry kept))
    /\ forall r, In r records -> Spec.after rt cutoff r = true ->
                 exists lines', syncLogFile w' = Some lines'
                                /\ In r (Spec.written lines').
Proof.
  intros R records Small Valid cutoff kept.
  unfold Retention.clearOldLogs, tryCatch, bind at 1, Date_now at 1.
  unfold bind at 1.
  assert (R1 : Spec.readable (tick w) lines) by (destruct R; split; auto).
  rewrite (getSyncLogs_readable rt _ _ _ _ R1), decoded_written.
  fold records.
  rewrite slice_all by (rewrite sortLogs_length; lia).
  fold cutoff.
  rewrite (filter_ext _ _ (newerThan_after cutoff)). fold kept.
  set (sorted := Logger.sortLogs rt records) in *.
  pose proof (sortLogs_perm rt records) as Hp. fold sorted in Hp.
  assert (P : Permutation kept (filter (Spec.after rt cutoff) records))
    by (apply filter_perm; symmetry; exact Hp).
  assert (S : StronglySorted (Spec.notOlder rt) kept)
    by (apply filter_sorted, sortLogs_sorted; exact Valid).
  assert (Kept : forall r, In r records -> Spec.after rt cutoff r = true ->
                           In r kept).
  { intros r Hr New. apply filter_In. split; [|assumption].
    eapply Permutation_in; [exact Hp | exact Hr]. }
  destruct R as [File Quiet].
  destruct (Nat.ltb_spec (List.length kept) (List.length sorted))
    as [shorter|same].
  - unfold Retention.fs_writeFile, bind, fsOp, modify. simpl.
    rewrite Quiet. simpl.
    eexists. split; [reflexivity|]. simpl.
    split; [exact P|]. split; [exact S|].
    split.
    { intros All. exfalso.
      assert (E : filter (Spec.after rt cutoff) sorted = sorted).
      { apply forallb_filter_id, forallb_forall. intros r Hr.
        rewrite Forall_forall in All. apply All.
        eapply Permutation_in; [symmetry; exact Hp | exact Hr]. }
      fold kept in E. rewrite E in shorter. lia. }
    split; [reflexivity|].
    intros r Hr New. eexists. split; [reflexivity|].
    rewrite <- decoded_written, decoded_entries. auto.
  - assert (E : kept = sorted).
    { apply filter_length_all.
      pose proof (filter_length_le (Spec.after rt cutoff) sorted).
      unfold kept in same |- *. lia. }
    eexists. split; [reflexivity|]. simpl.
    split; [exact P|]. split; [exact S|].
    split; [auto|].
    split.
    { intros Old. exfalso. apply Exists_exists in Old as (r & Hr & Old).
      assert (In r kept)
        by (rewrite E; eapply Permutation_in; [exact Hp | exact Hr]).
      unfold kept in H. apply filter_In in H as [_ New]. congruence. }
    intros r Hr _. exists lines. auto.
Qed.

End LedgerFacts.

Lemma logged_record_is_read_back_witness :
  exists logs,
    fst (Logger.getSyncLogs Node.runtime 50 0
           (snd (Logger.logSync (Sample.record 1) Sample.world)))
    = Returned logs
    /\ Permutation logs [Sample.record 1]
    /\ In (Sample.record 1) logs.
Proof.
  apply (logged_record_is_read_back Node.runtime (Sample.record 1)
           Sample.world 50).
  - reflexivity.
  - simpl. lia.
Defined.

Lemma retention_on_readable_ledger_witness :
  exists w',
    Retention.clearOldLogs Node.runtime (fun now days => now - days * 86400000)
      30 (Sample.worldWithLedger 3)
    = (Returned tt, w')
    /\ syncLogFile w' = Some (Sample.ledger 3).
Proof.
  destruct (retention_on_readable_ledger Node.runtime
              (fun now days => now - days * 86400000) 30
              (Sample.worldWithLedger 3) (Sample.ledger 3))
    as (w' & Run & _ & _ & Same & _).
  - split; [reflexivity | intros k; reflexivity].
  - simpl. lia.
  - repeat constructor; vm_compute; discriminate.
  - exists w'. split; [exact Run|]. apply Same.
    repeat constructor; vm_compute; reflexivity.
Defined.

(** With a cutoff between the first and the second record of the sample
    ledger, the first is pruned and the file is written again, the most
    recent record first. *)
Example old_record_is_pruned :
  syncLogFile
    (snd (Retention.clearOldLogs Node.runtime (fun now _ => now + 500) 30
            (Sample.worldWithLedger 3)))
  = Some [Entry (Sample.record 2); Entry (Sample.record 1)].
Proof. vm_compute. reflexivity. Qed.

(** ** The webhook *)

Section SignatureFacts.

Variable rt : Runtime.
Variable appSecret : jsstring.

Lemma startsWith_app (pat s : jsstring) :
  Instagram.startsWith pat (pat ++ s) = true.
Proof.
  induction pat as [|p pat IH]; simpl; [reflexivity|].
  now rewrite Z.eqb_refl.
Qed.

Lemma removeFirst_prefix (pat s : jsstring) :
  Instagram.removeFirst pat (pat ++ s) = s.
Proof.
  assert (S : skipn (List.length pat) (pat ++ s) = s).
  { induction pat as [|p pat IH]; simpl; auto. }
  destruct (pat ++ s) as [|c r] eqn:E; simpl.
  - destruct pat; [simpl in E; now subst | discriminate].
  - assert (St : Instagram.startsWith pat (c :: r) = true)
      by (rewrite <- E; apply startsWith_app).
    now rewrite St, S.
Qed.

Lemma removeFirst_absent (p : codeunit) (pat s : jsstring) :
  Forall (fun c => c <> p) s ->
  Instagram.removeFirst (p :: pat) s = s.
Proof.
  induction 1 as [|c s Hc _ IH]; [reflexivity|].
  cbn [Instagram.removeFirst Instagram.startsWith].
  destruct (Z.eqb_spec p c) as [->|_]; [congruence|]. simpl. now rewrite IH.
Qed.

Lemma hexEncode_length (b : Crypto.bytes) :
  List.length (Crypto.hexEncode b) = (2 * List.length b)%nat.
Proof.
  induction b as [|x b IH]; [reflexivity|].
  cbn [Crypto.hexEncode List.length]. rewrite IH. lia.
Qed.

Lemma hexEncode_digits (b : Crypto.bytes) :
  Forall (fun x => 0 <= x < 256) b ->
  Forall (fun c => c <> 115) (Crypto.hexEncode b).
Proof.
  induction 1 as [|x b Hx _ IH]; [constructor|].
  cbn [Crypto.hexEncode].
  assert (D : forall d, 0 <= d < 16 -> Crypto.hexDigit d <> 115).
  { intros d Hd. unfold Crypto.hexDigit. destruct (d <? 10) eqn:E; lia. }
  constructor; [|constructor; [|assumption]]; apply D.
  - split; [apply Z.div_pos; lia | apply Z.div_lt_upper_bound; lia].
  - apply Z.mod_pos_bound. lia.
Qed.

(** X13.  The signature that the sender computes is accepted: for every
    secret and payload, the hexadecimal HMAC-SHA256 of the payload behind
    the prefix [sha256=] verifies, and it has the 71 characters and the
    prefix that the format check of the middleware asks for.  The bare
    digest, without the prefix, verifies as well. *)
Theorem genuine_signature_is_accepted (payload : jsstring) (w : World) :
  let digest := Crypto.hmacHex appSecret payload in
  Instagram.verifyWebhookSignature rt appSecret payload
    (lit "sha256=" ++ digest) w = (Returned true, w)
  /\ Validators.validateWebhookSignature (Some (lit "sha256=" ++ digest))
     = Validators.Next
  /\ Instagram.verifyWebhookSignature rt appSecret payload digest w
     = (Returned true, w).
Proof.
  cbv zeta.
  assert (Ok : forall signature,
             Instagram.removeFirst (lit "sha256=") signature
             = Crypto.hmacHex appSecret payload ->
             Instagram.verifyWebhookSignature rt appSecret payload signature w
             = (Returned true, w)).
  { intros signature E. rewrite verifyWebhookSignature_run.
    unfold Spec.decodedSignature. rewrite E. unfold Crypto.hmacHex.
    rewrite hexDecode_hexEncode by apply sha256_bytes.
    fold (Spec.digest appSecret payload).
    rewrite Nat.eqb_refl. cbn [andb].
    replace (Crypto.bytes_eqb _ _) with true; [reflexivity|].
    symmetry. now apply bytes_eqb_eq. }
  split; [apply Ok, removeFirst_prefix|]. split.
  - set (signature := lit "sha256=" ++ Crypto.hmacHex appSecret payload).
    assert (St : Instagram.startsWith (lit "sha256=") signature = true)
      by apply startsWith_app.
    assert (Ln : List.length signature = 71%nat).
    { unfold signature, Crypto.hmacHex.
      fold (Spec.digest appSecret payload).
      rewrite length_app, hexEncode_length, digest_length. reflexivity. }
    destruct signature as [|c r]; [discriminate Ln|].
    unfold Validators.validateWebhookSignature. now rewrite St, Ln.
  - apply Ok. apply removeFirst_absent.
    unfold Crypto.hmacHex. apply hexEncode_digits, sha256_bytes.
Qed.

End SignatureFacts.

Section HandshakeFacts.

Variable webhookVerifyToken : jsstring.

(** X14.  The handshake of the webhook answers 200 with the challenge
    exactly when the mode is [subscribe], the token is the configured one
    and the challenge is not empty; every other request, one with the right
    token and no challenge included, gets 403. *)
Theorem handshake_answers_challenge (mode token challenge : option jsstring)
    (text : jsstring) :
  Api.webhookGet webhookVerifyToken mode token challenge
  = Api.Challenge200 text
  <-> mode = Some (lit "subscribe") /\ token = Some webhookVerifyToken
      /\ challenge = Some text /\ text <> [].
Proof.
  unfold Api.webhookGet, Webhook.verifyWebhookChallenge. split.
  - destruct mode as [m|]; [|discriminate].
    destruct token as [t|]; [|discriminate].
    destruct (eqb_spec m (lit "subscribe")) as [->|]; [|discriminate].
    destruct (eqb_spec t webhookVerifyToken) as [->|]; [|discriminate].
    simpl. destruct challenge as [[|c r]|]; try discriminate.
    intros [= <-]. repeat split. discriminate.
  - intros (-> & -> & -> & NE).
    rewrite !eqb_refl. simpl. destruct text; [congruence | reflexivity].
Qed.

End HandshakeFacts.

Section WebhookFacts.

Lemma resolvedFrom_add (answers : nat -> Http InstagramPost) (k a b : nat) :
  Terms.resolvedFrom answers k (a + b)
  = Terms.resolvedFrom answers k a ++ Terms.resolvedFrom answers (k + a) b.
Proof.
  revert k. induction a as [|a IH]; intros k; simpl.
  - now rewrite Nat.add_0_r.
  - rewrite IH, Nat.add_succ_r.
    destruct (answers k); reflexivity.
Qed.

Lemma processChanges_run (l : list Webhook.Change) (g : Webhook.Graph) :
  let fetch := flat_map
                 (fun change =>
                    match Webhook.newMedia change with
                    | Some mediaId => [mediaId]
                    | None => []
                    end) l in
  Webhook.processChanges l g
  = (Terms.resolvedFrom (Webhook.mediaDetails g)
       (List.length (Webhook.detailRequests g)) (List.length fetch),
     Webhook.mkGraph (Webhook.mediaDetails g)
       (Webhook.detailRequests g ++ fetch)
       (Webhook.recentMedia g) (Webhook.recentRequests g)).
Proof.
  cbv zeta. revert g. induction l as [|change rest IH]; intros g.
  - simpl. rewrite app_nil_r. now destruct g.
  - cbn [Webhook.processChanges flat_map].
    destruct (Webhook.newMedia change) as [mediaId|]; [|apply IH].
    unfold Webhook.getMediaDetails.
    cbn [app List.length Terms.resolvedFrom].
    destruct (Webhook.mediaDetails g (List.length (Webhook.detailRequests g)))
      as [post|e]; rewrite IH; cbn [Webhook.mediaDetails Webhook.detailRequests
                                      Webhook.recentMedia Webhook.recentRequests];
      rewrite length_app, Nat.add_1_r, <- app_assoc; reflexivity.
Qed.

Lemma processEntries_run (l : list Webhook.InstagramWebhookEntry)
    (g : Webhook.Graph) :
  let fetch := Terms.mediaToFetch (Webhook.mkPayload [] l) in
  Webhook.processEntries l g
  = (Terms.resolvedFrom (Webhook.mediaDetails g)
       (List.length (Webhook.detailRequests g)) (List.length fetch),
     Webhook.mkGraph (Webhook.mediaDetails g)
       (Webhook.detailRequests g ++ fetch)
       (Webhook.recentMedia g) (Webhook.recentRequests g)).
Proof.
  cbv zeta. unfold Terms.mediaToFetch. cbn [Webhook.entry].
  revert g. induction l as [|e rest IH]; intros g.
  - simpl. rewrite app_nil_r. now destruct g.
  - cbn [Webhook.processEntries flat_map]. unfold Webhook.processWebhookEntry.
    rewrite processChanges_run, IH.
    cbn [Webhook.mediaDetails Webhook.detailRequests Webhook.recentMedia
           Webhook.recentRequests].
    rewrite !length_app, resolvedFrom_add, <- app_assoc. reflexivity.
Qed.

Lemma processWebhookPayload_run (payload : Webhook.InstagramWebhookPayload)
    (g : Webhook.Graph) :
  Webhook.processWebhookPayload payload g
  = (Returned (Terms.resolvedFrom (Webhook.mediaDetails g)
                 (List.length (Webhook.detailRequests g))
                 (List.length (Terms.mediaToFetch payload))),
     Webhook.mkGraph (Webhook.mediaDetails g)
       (Webhook.detailRequests g ++ Terms.mediaToFetch payload)
       (Webhook.recentMedia g) (Webhook.recentRequests g)).
Proof.
  unfold Webhook.processWebhookPayload. rewrite processEntries_run.
  now destruct payload.
Qed.


End WebhookFacts.

Section BatchFacts.

Variable rt : Runtime.
Variable configTargetHashtag : jsstring.
Variable postFilter : Filters.PostFilter.

(** One post, one call of [logSync], and no exception. *)
Lemma processSinglePost_logs (post : InstagramPost) (w : World) :
  exists r w',
    Server.processSinglePost rt configTargetHashtag postFilter post w
    = (Returned tt, w')
    /\ logSyncCalls w' = logSyncCalls w ++ [r]
    /\ SyncLog.instagramPostId r = id post.
Proof.
  assert (F0 : Spec.sameLedger w (tick (tick w))) by repeat split.
  pose proof (filterPost_sameLedger rt configTargetHashtag postFilter post
                (tick (tick w))) as F1.
  unfold Server.processSinglePost, bind at 1 2, Date_now at 1 2, tryCatch.
  unfold bind at 1.
  destruct (filterPost_returns rt configTargetHashtag postFilter post
              (tick (tick w))) as [v Hv].
  unfold Spec.verdict in Hv.
  destruct (Filters.filterPost rt configTargetHashtag postFilter post
              (tick (tick w))) as [o w2].
  simpl in Hv, F1 |- *. subst o.
  pose proof (sameLedger_trans _ _ _ F0 F1) as F2.
  pose proof (createLocalPost_sameLedger rt post w2) as F3.
  destruct (shouldSync v); simpl;
    [unfold bind at 1;
     destruct (Gbp.createLocalPost rt post w2) as [[listing|e] w3];
     simpl in F3 |- *|];
    unfold bind at 1 2, Date_now at 1 2;
    match goal with
    | |- context [Logger.logSync ?r ?wx] =>
        assert (F4 : Spec.sameLedger w wx)
          by (first
                [ solve [eapply sameLedger_trans; [exact F2 | repeat split]]
                | solve [eapply sameLedger_trans; [exact F2|];
                         eapply sameLedger_trans; [exact F3 | repeat split]] ]);
        destruct (logSync_effect r w wx F4) as (R & C & _);
        destruct (Logger.logSync r wx) as [o wz]; simpl in R, C |- *;
        subst o; exists r, wz
    end; auto.
Qed.

Lemma processPosts_logs (posts : list InstagramPost) (w : World) :
  exists records w',
    Api.processPosts rt configTargetHashtag postFilter posts w
    = (Returned tt, w')
    /\ logSyncCalls w' = logSyncCalls w ++ records
    /\ map SyncLog.instagramPostId records = map id posts.
Proof.
  revert w. induction posts as [|post rest IH]; intros w.
  - exists [], w. simpl. rewrite app_nil_r. auto.
  - cbn [Api.processPosts]. unfold bind.
    destruct (processSinglePost_logs post w) as (r & w1 & Run & C & I).
    rewrite Run.
    destruct (IH w1) as (records & w2 & Run2 & C2 & I2).
    exists (r :: records), w2. rewrite Run2. split; [reflexivity|].
    split; [rewrite C2, C, <- app_assoc; reflexivity|].
    simpl. now rewrite I, I2.
Qed.


Lemma processWebhookAsync_returns
    (payload : Webhook.InstagramWebhookPayload) (g : Webhook.Graph)
    (w : World) :
  exists g' w',
    Api.processWebhookAsync rt configTargetHashtag postFilter payload g w
    = (Returned g', w').
Proof.
  unfold Api.processWebhookAsync. rewrite processWebhookPayload_run.
  unfold bind, tryCatch.
  destruct (Terms.resolvedFrom _ _ _) as [|post rest];
    [eexists; eexists; reflexivity|].
  destruct (processPosts_logs (post :: rest) w) as (records & w' & Run & _).
  rewrite Run. eexists; eexists; reflexivity.
Qed.

Variable appSecret : jsstring.

(** X17.  The POST handler of the webhook answers 400 without a signature,
    403 with one that does not verify, and 200 otherwise; only in the last
    case is anything done: a request that is not answered 200 sends nothing
    to the Graph API and leaves the credential, the disk and the ledger as
    they were. *)
Theorem unverified_webhook_is_not_processed (signature : option jsstring)
    (payload : jsstring) (body : Webhook.InstagramWebhookPayload)
    (g : Webhook.Graph) (w : World) :
  exists status g' w',
    Api.webhookPost rt configTargetHashtag postFilter appSecret signature
      payload body g w
    = (Returned (status, g'), w')
    /\ (status = 400 <-> truthy signature = false)
    /\ (status = 200 <->
        exists sig, signature = Some sig /\ sig <> []
                    /\ Spec.decodedSignature rt sig
                       = Spec.digest appSecret payload)
    /\ (status = 200 \/ status = 400 \/ status = 403)
    /\ (status <> 200 -> g' = g /\ w' = w).
Proof.
  unfold Api.webhookPost.
  destruct signature as [[|c sig]|].
  - exists 400, g, w. split; [reflexivity|]. simpl.
    split; [split; auto|].
    split; [split; [discriminate | intros (s & [= <-] & NE & _); congruence]|].
    auto.
  - unfold bind at 1. rewrite verifyWebhookSignature_run.
    rewrite digest_length.
    destruct ((32 =? _)%nat && _) eqn:V.
    + unfold bind.
      destruct (processWebhookAsync_returns body g w) as (g' & w' & Run).
      rewrite Run. exists 200, g', w'. split; [reflexivity|]. simpl.
      split; [split; discriminate|].
      split; [|split; [auto | congruence]].
      split; [|reflexivity]. intros _. exists (c :: sig).
      split; [reflexivity|]. split; [discriminate|].
      apply andb_true_iff in V as [_ V]. apply bytes_eqb_eq in V. auto.
    + exists 403, g, w. split; [reflexivity|]. simpl.
      split; [split; discriminate|].
      split; [|split; [auto | auto]].
      split; [discriminate|].
      intros (s & [= <-] & _ & E). rewrite E, digest_length in V.
      rewrite Nat.eqb_refl in V. cbn [andb] in V.
      assert (Crypto.bytes_eqb (Spec.digest appSecret payload)
                (Spec.digest appSecret payload) = true)
        by now apply bytes_eqb_eq.
      congruence.
  - exists 400, g, w. split; [reflexivity|]. simpl.
    split; [split; auto|].
    split; [split; [discriminate | intros (s & [=] & _)]|].
    auto.
Qed.

End BatchFacts.

(** ** The page of logs, and recency *)

Section LogsPage.

Variable rt : Runtime.

Lemma slice_length_le {A} (offset limit : Z) (l : list A) :
  0 <= limit ->
  Z.of_nat (List.length (Logger.slice offset (offset + limit) l)) <= limit.
Proof.
  intros H. unfold Logger.slice.
  rewrite length_firstn, length_skipn.
  set (N := List.length l).
  assert (K : forall i, Z.of_nat (Logger.relativeIndex N i)
                        = Z.max 0 (Z.min (Z.of_nat N)
                                     (if i <? 0 then Z.of_nat N + i else i))).
  { intros i. unfold Logger.relativeIndex.
    destruct (Z.ltb_spec i 0); lia. }
  pose proof (K offset) as Ko. pose proof (K (offset + limit)) as Ke.
  set (k := Logger.relativeIndex N offset) in *.
  set (e := Logger.relativeIndex N (offset + limit)) in *.
  clearbody k e. clear K.
  destruct (Z.ltb_spec offset 0), (Z.ltb_spec (offset + limit) 0); lia.
Qed.

Lemma getSyncLogs_length (limit offset : Z) (w : World) (logs : list SyncLog) :
  0 <= limit ->
  fst (Logger.getSyncLogs rt limit offset w) = Returned logs ->
  Z.of_nat (List.length logs) <= limit.
Proof.
  intros H Run.
  destruct (Logger.getSyncLogs rt limit offset w) as [o w'] eqn:E.
  simpl in Run. subst o.
  apply getSyncLogs_records in E as (_ & _ & [->|(lines & _ & ->)]).
  - simpl. lia.
  - now apply slice_length_le.
Qed.

Lemma ceilDiv_covers (a b : Z) : 0 < b -> a <= Api.ceilDiv a b * b.
Proof.
  intros H. unfold Api.ceilDiv.
  pose proof (Z.mul_div_le (- a) b H). lia.
Qed.

(** X18.  [GET /api/logs] never raises, and for a limit parameter that is
    absent, not a number, zero or positive it returns at most [limit]
    records with [limit] at most 100, whatever the page asked for; the
    total it reports is at most 1000, and the pages it announces are
    enough for that total. *)
Theorem logs_page_is_bounded (pageParam limitParam : option Z) (w : World) :
  0 < Api.orNumber limitParam 50 ->
  exists response,
    fst (Api.logsGet rt pageParam limitParam w) = Returned response
    /\ match response with
       | Api.Logs200 logs p =>
           Z.of_nat (List.length logs) <= Api.limit p <= 100
           /\ Api.page p = Api.orNumber pageParam 1
           /\ Z.of_nat (Api.total p) <= 1000
           /\ Z.of_nat (Api.total p) <= Api.totalPages p * Api.limit p
       | Api.Logs500 _ => True
       end.
Proof.
  intros Pos. unfold Api.logsGet, tryCatch, bind at 1.
  set (limit := Z.min (Api.orNumber limitParam 50) 100).
  set (offset := (Api.orNumber pageParam 1 - 1) * limit).
  pose proof (getSyncLogs_length limit offset w) as Len.
  destruct (Logger.getSyncLogs rt limit offset w) as [[logs|e] w1];
    [|eexists; split; [reflexivity | exact I]].
  specialize (Len logs ltac:(lia) eq_refl).
  unfold bind. rewrite getSyncLogStats_run.
  pose proof (getSyncLogs_length 1000 0 w1) as Tot.
  destruct (Logger.getSyncLogs rt 1000 0 w1) as [[all|e] w2].
  - specialize (Tot all ltac:(lia) eq_refl).
    eexists. split; [reflexivity|].
    cbn [Api.limit Api.page Api.total Api.totalPages Logger.Stats.total].
    fold limit.
    repeat split; try lia. apply ceilDiv_covers. lia.
  - eexists. split; [reflexivity|].
    cbn [Api.limit Api.page Api.total Api.totalPages Logger.Stats.total].
    fold limit.
    repeat split; try lia. unfold Api.ceilDiv. simpl. lia.
Qed.

End LogsPage.

Lemma logs_page_is_bounded_witness :
  exists response,
    fst (Api.logsGet Node.runtime (Some 2) (Some 2) (Sample.worldWithLedger 5))
    = Returned response
    /\ match response with
       | Api.Logs200 logs p =>
           Z.of_nat (List.length logs) <= Api.limit p <= 100
           /\ Api.page p = 2
           /\ Z.of_nat (Api.total p) <= 1000
           /\ Z.of_nat (Api.total p) <= Api.totalPages p * Api.limit p
       | Api.Logs500 _ => True
       end.
Proof.
  apply (logs_page_is_bounded Node.runtime (Some 2) (Some 2)
           (Sample.worldWithLedger 5)).
  reflexivity.
Defined.

(** A negative limit is not capped: with [limit=-1] the first page is the
    whole ledger but its last record. *)
Example negative_limit_reads_all_but_last :
  fst (Api.logsGet Node.runtime None (Some (-1)) (Sample.worldWithLedger 3))
  = Returned
      (Api.Logs200 [Sample.record 2; Sample.record 1]
         (Api.mkPagination 3 1 (-1) (-3))).
Proof. vm_compute. reflexivity. Qed.

Section RecencyFacts.

Variable rt : Runtime.

(** X19.  The two tests of recency, [isRecentPost] with a window of 24
    hours and [filterByAge], agree on every timestamp that parses, a
    timestamp in the future being recent for both; on a timestamp that does
    not parse they disagree: [isRecentPost] answers false, [filterByAge]
    lets the post pass. *)
Theorem recency_tests_agree_when_parsed (post : InstagramPost) (w : World) :
  exists recent v,
    fst (Webhook.isRecentPost rt (timestamp post) (24 * 60) w)
    = Returned recent
    /\ fst (Filters.filterByAge rt post 24 w) = Returned v
    /\ match dateParse rt (timestamp post) with
       | Some postTime =>
           recent = shouldSync v
           /\ (recent = true
               <-> clock w (ticks w) - postTime <= 24 * 60 * 60 * 1000)
       | None => recent = false /\ shouldSync v = true
       end.
Proof.
  unfold Webhook.isRecentPost, Filters.filterByAge, Filters.tooOld, bind,
    Date_now, ret.
  destruct (dateParse rt (timestamp post)) as [postTime|]; simpl.
  - destruct (Z.gtb_spec (clock w (ticks w) - postTime) 86400000)
      as [old|young]; simpl.
    + eexists; eexists. split; [reflexivity|]. split; [reflexivity|].
      simpl. split.
      * apply Z.leb_gt. lia.
      * split; [intros H; apply Z.leb_le in H; lia | lia].
    + eexists; eexists. split; [reflexivity|]. split; [reflexivity|].
      simpl. split.
      * apply Z.leb_le. lia.
      * split; [lia | intros _; apply Z.leb_le; lia].
  - eexists; eexists. repeat split.
Qed.

End RecencyFacts.

(** ** Polling *)

Section PollFacts.

Variable rt : Runtime.
Variable configTargetHashtag : jsstring.
Variable postFilter : Filters.PostFilter.
Variable maxPostsPerPoll : Z.

Lemma onlyClockRead_refl (w : World) : Terms.onlyClockRead w w.
Proof. unfold Terms.onlyClockRead. repeat split; auto. Qed.

Lemma onlyClockRead_tick (w : World) : Terms.onlyClockRead w (tick w).
Proof. unfold Terms.onlyClockRead. simpl. repeat split; auto. Qed.

Lemma onlyClockRead_trans (w1 w2 w3 : World) :
  Terms.onlyClockRead w1 w2 -> Terms.onlyClockRead w2 w3 ->
  Terms.onlyClockRead w1 w3.
Proof.
  unfold Terms.onlyClockRead.
  intros (A1 & B1 & C1 & D1 & E1 & F1 & G1 & H1 & I1 & J1 & K1 & L1)
         (A2 & B2 & C2 & D2 & E2 & F2 & G2 & H2 & I2 & J2 & K2 & L2).
  repeat split; try congruence. lia.
Qed.

Lemma filterPosts_reads_clock (posts : list InstagramPost) (w : World) :
  exists batch w',
    FilterBatch.filterPosts rt configTargetHashtag postFilter posts w
    = (Returned batch, w')
    /\ Terms.onlyClockRead w w'.
Proof.
  revert w. induction posts as [|post rest IH]; intros w.
  - exists (FilterBatch.mkBatch [] []), w. split; [reflexivity|].
    apply onlyClockRead_refl.
  - cbn [FilterBatch.filterPosts]. unfold bind at 1.
    rewrite filterPost_run.
    destruct (includes _ _).
    + unfold bind at 1.
      destruct (IH (tick w)) as (later & w2 & Run & Q). rewrite Run.
      match goal with
      | |- context [if ?b then _ else _] => destruct b
      end; eexists; eexists; (split; [reflexivity|]);
        (eapply onlyClockRead_trans; [apply onlyClockRead_tick | exact Q]).
    + unfold bind at 1.
      destruct (IH w) as (later & w2 & Run & Q). rewrite Run.
      simpl. eexists; eexists. split; [reflexivity | exact Q].
Qed.

Lemma syncAll_run (posts : list InstagramPost) (n : Z) (w : World) :
  exists records w',
    Cli.syncAll rt configTargetHashtag postFilter posts n w
    = (Returned (n + Z.of_nat (List.length posts)), w')
    /\ logSyncCalls w' = logSyncCalls w ++ records
    /\ map SyncLog.instagramPostId records = map id posts.
Proof.
  revert n w. induction posts as [|post rest IH]; intros n w.
  - exists [], w. simpl. rewrite app_nil_r, Z.add_0_r. auto.
  - cbn [Cli.syncAll]. unfold bind at 1, tryCatch, bind at 1.
    destruct (processSinglePost_logs rt configTargetHashtag postFilter post w)
      as (r & w1 & Run & C & I).
    rewrite Run. unfold ret at 1.
    destruct (IH (n + 1) w1) as (records & w2 & Run2 & C2 & I2).
    rewrite Run2. exists (r :: records), w2.
    split; [f_equal; f_equal; cbn [List.length]; lia|].
    split; [rewrite C2, C, <- app_assoc; reflexivity|].
    simpl. now rewrite I, I2.
Qed.

(** X20.  A polling cycle that is a dry run, or that finds no post newer
    than the last poll, changes nothing: it sends the one request for the
    recent media, with the limit of the options or else the configured
    one, reads the clock, and leaves the poll state, the credential, the
    disk and the ledger as they were, no listing request being sent.  When
    that request fails the cycle raises the error of the Graph API behind
    its prefix, and has changed nothing either. *)
Theorem idle_poll_changes_nothing (options : Cli.PollOptions)
    (pollState : Cli.PollState) (g : Webhook.Graph) (w : World) :
  (Cli.dryRun options = Some true
   \/ forall posts,
        Webhook.recentMedia g (List.length (Webhook.recentRequests g))
        = Resolved posts ->
        filter (Cli.newerThanPoll rt
                  (dateParse rt (Cli.lastPollTime pollState))) posts = []) ->
  exists result g' w',
    Cli.poll rt configTargetHashtag postFilter maxPostsPerPoll options
      pollState g w
    = (Returned (result, g'), w')
    /\ Terms.onlyClockRead w w'
    /\ Webhook.recentRequests g'
       = Webhook.recentRequests g
         ++ [Api.orNumber (Cli.limit options) maxPostsPerPoll]
    /\ Webhook.detailRequests g' = Webhook.detailRequests g
    /\ match Webhook.recentMedia g (List.length (Webhook.recentRequests g))
       with
       | Resolved _ => result = inr pollState
       | Rejected e =>
           result = inl (mkError (Webhook.instagramApiError ++ message e)
                           None)
       end.
Proof.
  intros Idle. unfold Cli.poll, bind at 1, Date_now at 1.
  unfold Webhook.getRecentMedia.
  destruct (Webhook.recentMedia g (List.length (Webhook.recentRequests g)))
    as [posts|e].
  - destruct posts as [|p ps].
    { eexists; eexists; eexists. split; [reflexivity|].
      split; [apply onlyClockRead_tick|]. auto. }
    set (newPosts := filter _ (p :: ps)).
    destruct newPosts as [|first others] eqn:New.
    { eexists; eexists; eexists. split; [reflexivity|].
      split; [apply onlyClockRead_tick|]. auto. }
    destruct Idle as [Dry|None_new].
    + unfold bind at 1.
      destruct (filterPosts_reads_clock (first :: others) (tick w))
        as (batch & w1 & Run & Q).
      rewrite Run, Dry.
      eexists; eexists; eexists. split; [reflexivity|].
      split; [eapply onlyClockRead_trans; [apply onlyClockRead_tick|exact Q]|].
      auto.
    + specialize (None_new (p :: ps) eq_refl). fold newPosts in None_new.
      congruence.
  - eexists; eexists; eexists. split; [reflexivity|].
    split; [apply onlyClockRead_tick|]. auto.
Qed.

(** X21.  A live polling cycle that finds new posts hands every post that
    passes the batch filter to [processSinglePost], which logs one Sync
    Record for it, the posts that the batch filter refused getting none.
    The state afterwards counts all the new posts as processed and all the
    posts that passed the filter as synced, whether or not their
    publication succeeded, and remembers the id of the first new post. *)
Theorem poll_counts_every_candidate (options : Cli.PollOptions)
    (pollState : Cli.PollState) (g : Webhook.Graph) (w : World)
    (posts : list InstagramPost) :
  Cli.dryRun options <> Some true ->
  Webhook.recentMedia g (List.length (Webhook.recentRequests g))
  = Resolved posts ->
  let newPosts :=
    filter (Cli.newerThanPoll rt (dateParse rt (Cli.lastPollTime pollState)))
      posts in
  newPosts <> [] ->
  exists pollState' g' w' batch records,
    Cli.poll rt configTargetHashtag postFilter maxPostsPerPoll options
      pollState g w
    = (Returned (inr pollState', g'), w')
    /\ fst (FilterBatch.filterPosts rt configTargetHashtag postFilter
              newPosts (tick w)) = Returned batch
    /\ Cli.totalProcessed pollState'
       = Cli.totalProcessed pollState + Z.of_nat (List.length newPosts)
    /\ Cli.totalSynced pollState'
       = Cli.totalSynced pollState
         + Z.of_nat (List.length (FilterBatch.toSync batch))
    /\ Cli.lastProcessedPostId pollState' = option_map id (hd_error newPosts)
    /\ logSyncCalls w' = logSyncCalls w ++ records
    /\ map SyncLog.instagramPostId records
       = map id (FilterBatch.toSync batch).
Proof.
  intros Live Answer newPosts Some_new.
  unfold Cli.poll, bind at 1, Date_now at 1.
  unfold Webhook.getRecentMedia. rewrite Answer.
  destruct posts as [|p ps]; [now destruct Some_new|].
  fold newPosts.
  destruct newPosts as [|first others] eqn:New; [now destruct Some_new|].
  unfold bind at 1.
  destruct (filterPosts_reads_clock (first :: others) (tick w))
    as (batch & w1 & Run & Q).
  rewrite Run.
  assert (C1 : logSyncCalls w1 = logSyncCalls w).
  { unfold Terms.onlyClockRead in Q. simpl in Q. tauto. }
  destruct (syncAll_run (FilterBatch.toSync batch) 0 w1)
    as (records & w2 & Sync & C2 & Ids).
  assert (Go : forall (A : Type) (a b : M A),
             match Cli.dryRun options with
             | Some true => a
             | _ => b
             end = b).
  { intros A a b. destruct (Cli.dryRun options) as [[|]|]; congruence. }
  rewrite Go. unfold bind at 1. rewrite Sync.
  unfold bind, Date_now, Cli.savePollState, tryCatch, fsOp.
  destruct (fsFault (tick w2) (fsOps (tick w2)));
    eexists; eexists; eexists; exists batch, records;
    (split; [reflexivity|]); simpl;
    (split; [reflexivity|]); (split; [reflexivity|]);
    (split; [reflexivity|]); (split; [reflexivity|]);
    (split; [congruence | assumption]).
Qed.

End PollFacts.

Lemma idle_poll_changes_nothing_witness :
  exists result g' w',
    Cli.poll Node.runtime (lit "#MEO") Sample.postFilter 25 Fixture.dry
      Fixture.pollState Fixture.graph Sample.world
    = (Returned (result, g'), w')
    /\ Terms.onlyClockRead Sample.world w'
    /\ Webhook.recentRequests g' = [5]
    /\ result = inr Fixture.pollState.
Proof.
  destruct (idle_poll_changes_nothing Node.runtime (lit "#MEO")
              Sample.postFilter 25 Fixture.dry Fixture.pollState
              Fixture.graph Sample.world)
    as (result & g' & w' & Run & Quiet & Asked & _ & Same).
  - left. reflexivity.
  - exists result, g', w'. auto.
Defined.

Lemma poll_counts_every_candidate_witness :
  exists pollState' g' w',
    Cli.poll Node.runtime (lit "#MEO") Sample.postFilter 25 Fixture.live
      Fixture.pollState Fixture.graph Sample.world
    = (Returned (inr pollState', g'), w')
    /\ Cli.totalProcessed pollState' = 2
    /\ Cli.lastProcessedPostId pollState' = Some (id Sample.menu).
Proof.
  destruct (poll_counts_every_candidate Node.runtime (lit "#MEO")
              Sample.postFilter 25 Fixture.live Fixture.pollState
              Fixture.graph Sample.world [Sample.menu; Sample.video])
    as (pollState' & g' & w' & batch & records & Run & _ & Processed & _
        & Last & _).
  - discriminate.
  - reflexivity.
  - vm_compute. discriminate.
  - exists pollState', g', w'. auto.
Defined.

(** The live cycle on the sample: of the two new posts the image is
    published and the video is refused by the batch filter, which logs
    nothing for it. *)
Example live_poll_of_two_posts :
  match Cli.poll Node.runtime (lit "#MEO") Sample.postFilter 25 Fixture.live
          Fixture.pollState Fixture.graph Sample.world with
  | (Returned (inr pollState', _), w') =>
      Cli.totalProcessed pollState' = 2
      /\ Cli.totalSynced pollState' = 1
      /\ map SyncLog.status (logSyncCalls w') = [success]
  | _ => False
  end.
Proof. vm_compute. auto. Qed.

(** With both endpoints of Google failing the post that passed the filter
    is still counted as synced. *)
Example failed_publication_counts_as_synced :
  match Cli.poll Node.runtime (lit "#MEO") Sample.postFilter 25 Fixture.live
          Fixture.pollState Fixture.graph Sample.worldOffline with
  | (Returned (inr pollState', _), w') =>
      Cli.totalSynced pollState' = 1
      /\ map SyncLog.status (logSyncCalls w') = [failed]
  | _ => False
  end.
Proof. vm_compute. auto. Qed.

(** ** The sanitizers *)

Section SanitizerFacts.

Lemma replaceChar_Forall (P Q : codeunit -> Prop) (c : codeunit)
    (text s : jsstring) :
  Forall Q s -> (forall x, Q x -> x <> c -> P x) -> Forall P text ->
  Forall P (Validators.replaceChar c text s).
Proof.
  intros Hs Step Ht. unfold Validators.replaceChar.
  induction Hs as [|x s Hx _ IH]; simpl; [constructor|].
  apply Forall_app. split; [|assumption].
  destruct (Z.eqb_spec x c) as [->|ne]; [assumption|].
  constructor; [auto | constructor].
Qed.

Lemma replaceChar_absent (c : codeunit) (text s : jsstring) :
  Forall (fun x => x <> c) s -> Validators.replaceChar c text s = s.
Proof.
  unfold Validators.replaceChar.
  induction 1 as [|x s Hx _ IH]; simpl; [reflexivity|].
  destruct (Z.eqb_spec x c); [congruence|]. simpl. now f_equal.
Qed.

(** X22.  What [sanitizeHtml] returns holds none of the characters
    [<], [>], the two quotes and the slash, whatever its input; and an
    input with none of them and no ampersand is returned as it is. *)
Theorem sanitized_html_has_no_markup (html : jsstring) :
  Forall (fun c => Terms.markupChar c = false) (Validators.sanitizeHtml html)
  /\ (Forall (fun c => Terms.markupChar c = false /\ c <> 38) html ->
      Validators.sanitizeHtml html = html).
Proof.
  unfold Validators.sanitizeHtml. split.
  - apply (replaceChar_Forall _
             (fun x => x <> 60 /\ x <> 62 /\ x <> 34 /\ x <> 39)).
    + apply (replaceChar_Forall _ (fun x => x <> 60 /\ x <> 62 /\ x <> 34)).
      * apply (replaceChar_Forall _ (fun x => x <> 60 /\ x <> 62)).
        -- apply (replaceChar_Forall _ (fun x => x <> 60)).
           ++ apply (replaceChar_Forall _ (fun _ => True)).
              ** apply (replaceChar_Forall _ (fun _ => True));
                   [apply Forall_forall| |repeat constructor]; auto.
              ** auto.
              ** repeat constructor; discriminate.
           ++ auto.
           ++ repeat constructor; discriminate.
        -- intros x [A B] C. auto.
        -- repeat constructor; discriminate.
      * intros x (A & B & C) D. auto.
      * repeat constructor; discriminate.
    + intros x (A & B & C & D) E. unfold Terms.markupChar.
      repeat (apply orb_false_iff; split); apply Z.eqb_neq; assumption.
    + repeat constructor.
  - intros Safe.
    assert (No : forall c, c = 38 \/ Terms.markupChar c = true ->
                           Forall (fun x => x <> c) html).
    { intros c Hc. eapply Forall_impl; [|exact Safe].
      intros x [M A] ->. destruct Hc as [->|Hc]; congruence. }
    rewrite (replaceChar_absent 38) by (apply No; auto).
    rewrite (replaceChar_absent 60) by (apply No; auto).
    rewrite (replaceChar_absent 62) by (apply No; auto).
    rewrite (replaceChar_absent 34) by (apply No; auto).
    rewrite (replaceChar_absent 39) by (apply No; auto).
    apply replaceChar_absent, No. auto.
Qed.

Lemma mergeSlashes_head (s : jsstring) :
  match Validators.mergeSlashes true s with
  | c :: _ => c <> 47
  | [] => True
  end.
Proof.
  induction s as [|c s IH]; simpl; [exact I|].
  destruct (Z.eqb_spec c 47); [exact IH | assumption].
Qed.

Lemma mergeSlashes_single (b : bool) (s : jsstring) :
  Terms.noDoubleSlash (Validators.mergeSlashes b s) = true.
Proof.
  revert b. induction s as [|c s IH]; intros b; [reflexivity|].
  cbn [Validators.mergeSlashes].
  destruct (Z.eqb_spec c 47) as [->|ne].
  - destruct b; [apply IH|].
    cbn [Terms.noDoubleSlash]. rewrite IH, andb_true_r.
    pose proof (mergeSlashes_head s) as H.
    destruct (Validators.mergeSlashes true s) as [|d r]; [reflexivity|].
    simpl. apply negb_true_iff, Z.eqb_neq. exact H.
  - cbn [Terms.noDoubleSlash]. rewrite IH, andb_true_r.
    apply negb_true_iff, andb_false_iff. left. now apply Z.eqb_neq.
Qed.

Lemma mergeSlashes_incl (b : bool) (s : jsstring) (x : codeunit) :
  In x (Validators.mergeSlashes b s) -> In x s.
Proof.
  revert b. induction s as [|c s IH]; intros b; simpl; [auto|].
  destruct (Z.eqb_spec c 47) as [->|_]; [destruct b|]; simpl; intros H;
    try (destruct H as [H|H]; [now left|]); right; eapply IH; exact H.
Qed.

Lemma mergeSlashes_plain (b : bool) (s : jsstring) :
  Forall (fun c => c <> 47) s -> Validators.mergeSlashes b s = s.
Proof.
  intros H. revert b. induction H as [|c s Hc _ IH]; intros b; simpl;
    [reflexivity|].
  destruct (Z.eqb_spec c 47); [congruence|]. now f_equal.
Qed.

Lemma removeDotPairs_plain (s : jsstring) :
  Forall (fun c => c <> 46) s -> Validators.removeDotPairs s = s.
Proof.
  induction 1 as [|c s Hc _ IH]; [reflexivity|].
  cbn [Validators.removeDotPairs]. rewrite IH.
  destruct c as [|p|p]; try reflexivity.
  do 6 (destruct p as [p|p|]; try reflexivity). congruence.
Qed.

(** X23.  The path that [sanitizePath] returns holds none of the
    characters [<], [>], [:], the double quote, [|], [?] and [*], and no
    two slashes side by side. *)
Theorem sanitized_path_is_clean (path : jsstring) :
  Forall (fun c => Validators.invalidFilenameChar c = false)
    (Validators.sanitizePath path)
  /\ Terms.noDoubleSlash (Validators.sanitizePath path) = true.
Proof.
  unfold Validators.sanitizePath. split; [|apply mergeSlashes_single].
  apply Forall_forall. intros x Hx.
  apply mergeSlashes_incl, filter_In in Hx as [_ Hx].
  now apply negb_true_iff.
Qed.

(** X24.  [sanitizePath] removes the pairs of dots before it removes the
    characters that no file name may hold, and does not look at the dots
    again: two dots that such a character keeps apart come out side by
    side.  So the result can begin with the parent directory. *)
Theorem sanitized_path_can_climb (x : codeunit) (name : jsstring) :
  Validators.invalidFilenameChar x = true ->
  Forall (fun c => c <> 46 /\ c <> 47
                   /\ Validators.invalidFilenameChar c = false) name ->
  Validators.sanitizePath (46 :: x :: 46 :: 47 :: name)
  = 46 :: 46 :: 47 :: name.
Proof.
  intros Bad Plain. unfold Validators.sanitizePath.
  assert (D : Validators.removeDotPairs (46 :: x :: 46 :: 47 :: name)
              = 46 :: x :: 46 :: 47 :: name).
  { assert (x <> 46) by (intros ->; discriminate Bad).
    cbn [Validators.removeDotPairs].
    rewrite removeDotPairs_plain
      by (eapply Forall_impl; [|exact Plain]; intros c (A & B & C); assumption).
    destruct x as [|p|p]; try reflexivity.
    do 6 (destruct p as [p|p|]; try reflexivity). congruence. }
  rewrite D. cbn [filter]. rewrite Bad. cbn [negb].
  change (Validators.invalidFilenameChar 46) with false.
  change (Validators.invalidFilenameChar 47) with false. cbn [negb].
  assert (F : filter (fun c => negb (Validators.invalidFilenameChar c)) name
              = name).
  { clear D. induction Plain as [|c s (_ & _ & Hc) _ IH]; simpl;
      [reflexivity|]. now rewrite Hc, IH. }
  rewrite F. cbn [Validators.mergeSlashes]. simpl (_ =? _).
  rewrite mergeSlashes_plain
    by (eapply Forall_impl; [|exact Plain]; intros c (A & B & C); assumption).
  reflexivity.
Qed.

End SanitizerFacts.

Lemma sanitized_path_can_climb_witness :
  Validators.sanitizePath (lit ".<./etc") = lit "../etc".
Proof.
  apply (sanitized_path_can_climb 60 (lit "etc")).
  - reflexivity.
  - repeat constructor; discriminate.
Defined.

(** ** The change of the target tag *)

Section RetargetFacts.

Variable rt : Runtime.
Variable configTargetHashtag : jsstring.

(** X25.  [updateTargetHashtag] refuses exactly the tags that do not begin
    with [#], with its one message.  After an update the filter judges the
    captions by the new tag, compared in lower case: a post with the new
    tag is no longer refused for want of the target tag, and a post without
    it is; but the reason of that refusal still names the tag of the
    configuration, which the update does not change. *)
Theorem retargeted_filter_names_old_tag (newHashtag : jsstring)
    (self : Filters.PostFilter) :
  match FilterBatch.updateTargetHashtag rt newHashtag self with
  | inl e =>
      Instagram.startsWith [hash] newHashtag = false
      /\ e = mkError FilterBatch.markerRequired None
  | inr self' =>
      Instagram.startsWith [hash] newHashtag = true
      /\ forall post w,
           exists v,
             fst (Filters.filterPost rt configTargetHashtag self' post w)
             = Returned v
             /\ (reason v = Some (TargetHashtagMissing configTargetHashtag)
                 <-> ~ In (toLowerCase rt newHashtag)
                       (map (toLowerCase rt)
                          (extractHashtags (wordChar rt) (caption post))))
  end.
Proof.
  unfold FilterBatch.updateTargetHashtag.
  destruct newHashtag as [|c s]; [split; reflexivity|].
  cbn [Instagram.startsWith].
  destruct (Z.eqb_spec c hash) as [->|ne].
  - rewrite Z.eqb_refl. split; [reflexivity|]. intros post w.
    rewrite filterPost_run. cbn [Filters.targetHashtag].
    unfold Spec.tagTokens.
    destruct (includes _ _) eqn:Inc.
    + apply includes_In in Inc.
      pose proof (filterByMediaType_refusal post) as HM.
      pose proof (filterByContent_refusal rt post) as HC.
      eexists. split; [reflexivity|]. cbn [fst].
      split; [|intros No; contradiction].
      intros R. exfalso. revert R.
      unfold Filters.filterByMediaType, Filters.filterByContent.
      destruct (caption post) as [[|a b]|]; cbv zeta;
        repeat match goal with
               | |- context [if ?b then _ else _] => destruct b
               end; simpl; discriminate.
    + eexists. split; [reflexivity|]. simpl.
      split; [|reflexivity]. intros _ Yes.
      apply includes_In in Yes. congruence.
  - replace (hash =? c) with false by (symmetry; apply Z.eqb_neq; congruence).
    split; reflexivity.
Qed.

End RetargetFacts.

(** ** The statistics after a record is logged *)

Section StatsFacts.

Variable rt : Runtime.

(** X26.  The statistics follow the ledger: on a ledger that can be read
    and written, with fewer than 1000 records, logging one record raises
    the total by one and the count of the status of that record by one,
    and leaves the counts of the other two statuses as they were. *)
Theorem stats_count_logged_record (r : SyncLog) (w : World)
    (lines : list Line) :
  Spec.readable w lines ->
  Z.of_nat (List.length (Logger.decoded lines)) < 1000 ->
  exists before after,
    fst (Logger.getSyncLogStats rt w) = Returned before
    /\ fst (Logger.getSyncLogStats rt (snd (Logger.logSync r w)))
       = Returned after
    /\ Logger.Stats.total after = S (Logger.Stats.total before)
    /\ match SyncLog.status r with
       | success =>
           Logger.Stats.successful after = S (Logger.Stats.successful before)
           /\ Logger.Stats.failed after = Logger.Stats.failed before
           /\ Logger.Stats.skipped after = Logger.Stats.skipped before
       | failed =>
           Logger.Stats.successful after = Logger.Stats.successful before
           /\ Logger.Stats.failed after = S (Logger.Stats.failed before)
           /\ Logger.Stats.skipped after = Logger.Stats.skipped before
       | skipped =>
           Logger.Stats.successful after = Logger.Stats.successful before
           /\ Logger.Stats.failed after = Logger.Stats.failed before
           /\ Logger.Stats.skipped after = S (Logger.Stats.skipped before)
       end.
Proof.
  intros R Small.
  assert (R1 : Spec.readable (snd (Logger.logSync r w)) (lines ++ [Entry r])).
  { destruct R as [File Quiet]. rewrite logSync_run, Quiet.
    split; [simpl; now rewrite File | exact Quiet]. }
  assert (D : Logger.decoded (lines ++ [Entry r]) = Logger.decoded lines ++ [r])
    by apply decoded_app.
  assert (P : forall s,
             Logger.countStatus s (Logger.sortLogs rt (Logger.decoded lines ++ [r]))
             = ((if SyncStatus_eqb (SyncLog.status r) s then 1 else 0)
                + Logger.countStatus s (Logger.sortLogs rt (Logger.decoded lines)))%nat).
  { intros s.
    rewrite <- (countStatus_perm s _ _ (sortLogs_perm rt (Logger.decoded lines ++ [r]))).
    rewrite <- (countStatus_perm s _ _ (sortLogs_perm rt (Logger.decoded lines))).
    rewrite (countStatus_perm s _ (r :: Logger.decoded lines))
      by (symmetry; apply Permutation_cons_append).
    unfold Logger.countStatus. simpl.
    destruct (SyncStatus_eqb (SyncLog.status r) s); reflexivity. }
  rewrite !getSyncLogStats_run.
  rewrite (getSyncLogs_readable rt _ _ _ _ R),
    (getSyncLogs_readable rt _ _ _ _ R1), D.
  rewrite !slice_all
    by (rewrite sortLogs_length, ?length_app; simpl; lia).
  eexists; eexists. split; [reflexivity|]. split; [reflexivity|].
  cbn [Logger.Stats.total Logger.Stats.successful Logger.Stats.failed
         Logger.Stats.skipped].
  rewrite !P, !sortLogs_length, length_app. simpl.
  split; [lia|].
  destruct (SyncLog.status r); simpl; auto.
Qed.

End StatsFacts.

Lemma stats_count_logged_record_witness :
  exists before after,
    fst (Logger.getSyncLogStats Node.runtime (Sample.worldWithLedger 3))
    = Returned before
    /\ fst (Logger.getSyncLogStats Node.runtime
              (snd (Logger.logSync (Sample.record 3)
                      (Sample.worldWithLedger 3))))
       = Returned after
    /\ Logger.Stats.total after = S (Logger.Stats.total before).
Proof.
  destruct (stats_count_logged_record Node.runtime (Sample.record 3)
              (Sample.worldWithLedger 3) (Sample.ledger 3))
    as (before & after & B & A & T & _).
  - split; [reflexivity | intros k; reflexivity].
  - simpl. lia.
  - exists before, after. auto.
Defined.

(** ** The order of a read *)

Section ReadOrder.

Variable rt : Runtime.

Lemma insertLog_atInstant (t : Z) (x : SyncLog) (l : list SyncLog) :
  Spec.timeOf rt x <> None -> Spec.parsed rt l ->
  filter (Spec.atInstant rt t) (Logger.insertLog rt x l)
  = filter (Spec.atInstant rt t) (x :: l).
Proof.
  intros Hx Hl. induction Hl as [|y l Hy _ IH]; [reflexivity|].
  cbn [Logger.insertLog].
  destruct (Logger.compareLogs rt x y <=? 0) eqn:C; [reflexivity|].
  cbn [filter] in IH |- *. rewrite IH.
  assert (N : Spec.atInstant rt t x && Spec.atInstant rt t y = false).
  { revert C. unfold Logger.compareLogs, Spec.atInstant, Spec.timeOf in *.
    destruct (dateParse rt (SyncLog.timestamp x)) as [tx|]; [|congruence].
    destruct (dateParse rt (SyncLog.timestamp y)) as [ty|]; [|congruence].
    intros C. apply Z.leb_gt in C.
    destruct (Z.eqb_spec tx t), (Z.eqb_spec ty t); try reflexivity. lia. }
  destruct (Spec.atInstant rt t x), (Spec.atInstant rt t y);
    try reflexivity; discriminate.
Qed.

Lemma sortLogs_parsed (l : list SyncLog) :
  Spec.parsed rt l -> Spec.parsed rt (Logger.sortLogs rt l).
Proof.
  intros H. eapply Permutation_Forall; [apply sortLogs_perm | exact H].
Qed.

Lemma sortLogs_atInstant (t : Z) (l : list SyncLog) :
  Spec.parsed rt l ->
  filter (Spec.atInstant rt t) (Logger.sortLogs rt l)
  = filter (Spec.atInstant rt t) l.
Proof.
  induction 1 as [|x l Hx Hl IH]; [reflexivity|].
  cbn [Logger.sortLogs].
  rewrite insertLog_atInstant by (auto using sortLogs_parsed).
  cbn [filter]. now rewrite IH.
Qed.

Lemma atInstant_own (r : SyncLog) :
  Spec.timeOf rt r <> None ->
  exists t, Spec.timeOf rt r = Some t /\ Spec.atInstant rt t r = true.
Proof.
  intros H. unfold Spec.atInstant.
  destruct (Spec.timeOf rt r) as [t|]; [|congruence].
  exists t. split; [reflexivity | apply Z.eqb_refl].
Qed.

Lemma atInstant_time (t : Z) (r : SyncLog) :
  Spec.atInstant rt t r = true -> Spec.timeOf rt r = Some t.
Proof.
  unfold Spec.atInstant. destruct (Spec.timeOf rt r) as [u|]; [|discriminate].
  intros H. apply Z.eqb_eq in H. now subst.
Qed.

(** A list in descending order is known by its records instant by
    instant. *)
Lemma stable_order_unique (l1 l2 : list SyncLog) :
  Spec.parsed rt l1 -> Spec.parsed rt l2 ->
  StronglySorted (Spec.notOlder rt) l1 ->
  StronglySorted (Spec.notOlder rt) l2 ->
  (forall t, filter (Spec.atInstant rt t) l1
             = filter (Spec.atInstant rt t) l2) ->
  l1 = l2.
Proof.
  intros P1. revert l2.
  induction P1 as [|x l1 Hx P1 IH]; intros l2 P2 S1 S2 Same.
  - destruct l2 as [|y l2]; [reflexivity|]. exfalso.
    inversion P2 as [|? ? Hy _]; subst.
    destruct (atInstant_own y Hy) as (t & _ & A).
    specialize (Same t). simpl in Same. rewrite A in Same. discriminate.
  - destruct (atInstant_own x Hx) as (t & Tx & Ax).
    destruct l2 as [|y l2].
    { specialize (Same t). simpl in Same. rewrite Ax in Same. discriminate. }
    inversion P2 as [|? ? Hy P2']; subst.
    destruct (atInstant_own y Hy) as (u & Ty & Ay).
    inversion S1 as [|? ? S1' F1]; subst.
    inversion S2 as [|? ? S2' F2]; subst.
    assert (In1 : forall r s, Spec.atInstant rt s r = true ->
                              In r (y :: l2) -> In r (x :: l1)).
    { intros r s A I.
      assert (I' : In r (filter (Spec.atInstant rt s) (y :: l2)))
        by (apply filter_In; auto).
      rewrite <- Same in I'. now apply filter_In in I'. }
    assert (In2 : forall r s, Spec.atInstant rt s r = true ->
                              In r (x :: l1) -> In r (y :: l2)).
    { intros r s A I.
      assert (I' : In r (filter (Spec.atInstant rt s) (x :: l1)))
        by (apply filter_In; auto).
      rewrite Same in I'. now apply filter_In in I'. }
    assert (Le : forall a l b, Forall (Spec.notOlder rt a) l ->
                               Spec.timeOf rt a <> None ->
                               In b (a :: l) -> Spec.notOlder rt a b).
    { intros a l b F Ha [<-|I].
      - destruct (Spec.timeOf rt a) as [ta|] eqn:E; [|congruence].
        exists ta, ta. repeat split; auto. lia.
      - rewrite Forall_forall in F. auto. }
    assert (E : u = t).
    { pose proof (Le y l2 x F2 Hy (In2 x t Ax (or_introl eq_refl)))
        as (a & b & Ea & Eb & L1).
      pose proof (Le x l1 y F1 Hx (In1 y u Ay (or_introl eq_refl)))
        as (c & d & Ec & Ed & L2).
      rewrite Ty in Ea, Ed. rewrite Tx in Eb, Ec.
      injection Ea as <-. injection Eb as <-.
      injection Ec as <-. injection Ed as <-. lia. }
    subst u.
    assert (x = y).
    { specialize (Same t). simpl in Same. rewrite Ax, Ay in Same.
      now injection Same. }
    subst y. f_equal. apply IH; auto.
    intros s. specialize (Same s). simpl in Same.
    destruct (Spec.atInstant rt s x); [now injection Same | assumption].
Qed.

(** X27.  The order of a read is determined by the records, not by the
    sort that the engine uses.  On a ledger whose timestamps all parse, the
    records that a read with a limit covering the ledger returns are in
    descending order of time, the records of one instant in the order in
    which the file holds them; and that is the only arrangement of the
    stored records with these two properties. *)
Theorem read_order_is_determined (w : World) (lines : list Line)
    (limit : Z) :
  Spec.readable w lines ->
  Spec.parsed rt (Spec.written lines) ->
  Z.of_nat (List.length (Spec.written lines)) <= limit ->
  exists logs,
    fst (Logger.getSyncLogs rt limit 0 w) = Returned logs
    /\ Spec.stablySorted rt (Spec.written lines) logs
    /\ forall l, Permutation (Spec.written lines) l ->
                 Spec.stablySorted rt (Spec.written lines) l -> l = logs.
Proof.
  intros R Valid Limit.
  rewrite (getSyncLogs_readable rt _ _ _ _ R), decoded_written.
  rewrite (slice_page limit 0) by lia.
  cbn [fst Z.to_nat skipn].
  rewrite firstn_all2 by (rewrite sortLogs_length; lia).
  eexists. split; [reflexivity|].
  assert (S : Spec.stablySorted rt (Spec.written lines)
                (Logger.sortLogs rt (Spec.written lines))).
  { split; [now apply sortLogs_sorted|].
    intros t. now apply sortLogs_atInstant. }
  split; [exact S|].
  intros l Pl [Sl Fl]. destruct S as [Ss Fs].
  apply stable_order_unique; auto using sortLogs_parsed.
  - eapply Permutation_Forall; [exact Pl | exact Valid].
  - intros t. now rewrite Fl, Fs.
Qed.

End ReadOrder.

Lemma read_order_is_determined_witness :
  exists logs,
    fst (Logger.getSyncLogs Node.runtime 50 0 (Sample.worldWithLedger 3))
    = Returned logs
    /\ Spec.stablySorted Node.runtime (Spec.written (Sample.ledger 3)) logs.
Proof.
  destruct (read_order_is_determined Node.runtime (Sample.worldWithLedger 3)
              (Sample.ledger 3) 50)
    as (logs & Run & Sorted & _).
  - split; [reflexivity | intros k; reflexivity].
  - repeat constructor; vm_compute; discriminate.
  - simpl. lia.
  - exists logs. split; assumption.
Defined.
